(** * koa-express-router: the dispatch engine, embedded and verified

    A shallow embedding of [lib/Layer.js], [lib/Route.js] and [lib/index.js].

    - JavaScript values are a tagged union ([jsval]); the dynamic tests of
      the source ([typeof], [instanceof RegExp], [Array.isArray],
      truthiness) become case analyses on the tag.
    - Objects used as maps are finite maps ([gmap]) when only lookups
      matter ([ctx.params], the parameter registry) and association lists
      when the key order is observable ([route.methods], query objects).
    - Every closure of the source ([routeNext], [router_next], [done],
      [trim_prefix], [param], [paramCallback]) is a transition on a record
      of the variables it captures.  All their calls are tail calls, so a
      transition returns the call it ends with; calls into user code are
      returned to the caller of the transition, which lets the theorems
      hold for arbitrary handlers.
    - Libraries the repository only calls ([path-to-regexp], [parseurl],
      [decodeURIComponent], [JSON.parse], [util.inspect]) are the fields
      of the class [HostEnv]. *)

From Stdlib Require Import Ascii String.
From stdpp Require Import base option list gmap strings pretty.

Set Warnings "-register-all,-clear-no-such-hyp".

(** ** JavaScript values *)

(** [F] is the type of function values: [Empty_set] for plain request
    data, [Callee] (below) for arguments of the registration calls. *)
Inductive jsval (F : Type) : Type :=
| VUndefined
| VNull
| VBool (b : bool)
| VNum (n : Z)
| VStr (s : string)
| VRegExp (src : string)
| VArr (xs : list (jsval F))
| VObj (props : list (string * jsval F))
| VFun (f : F).

Arguments VUndefined {F}.
Arguments VNull {F}.
Arguments VBool {F} b.
Arguments VNum {F} n.
Arguments VStr {F} s.
Arguments VRegExp {F} src.
Arguments VArr {F} xs.
Arguments VObj {F} props.
Arguments VFun {F} f.

(** Request data holds no functions. *)
Abbreviation value := (jsval Empty_set).

(** [!!v] of the source is [negb (truthy v)]. *)
Definition truthy {F} (v : jsval F) : bool :=
  match v with
  | VUndefined | VNull => false
  | VBool b => b
  | VNum n => negb (n =? 0)%Z
  | VStr s => negb (String.eqb s EmptyString)
  | _ => true
  end.

(** [typeof v === 'function'] *)
Definition is_function {F} (v : jsval F) : bool :=
  match v with VFun _ => true | _ => false end.

(** [typeof v === 'string' || v instanceof RegExp] *)
Definition is_string_or_regexp {F} (v : jsval F) : bool :=
  match v with VStr _ | VRegExp _ => true | _ => false end.

(** [e === a] between a value of the routing table and a value of the
    request: equal primitives are equal; arrays, objects, regular
    expressions and functions are compared by identity, and no object of
    the table is an object of the request. *)
Definition strict_eq {F G} (e : jsval F) (a : jsval G) : bool :=
  match e, a with
  | VUndefined, VUndefined => true
  | VNull, VNull => true
  | VBool b, VBool c => Bool.eqb b c
  | VNum n, VNum m => (n =? m)%Z
  | VStr s, VStr t => String.eqb s t
  | _, _ => false
  end.

(** The characters of a string, as one-character strings. *)
Fixpoint chars (s : string) : list string :=
  match s with
  | EmptyString => []
  | String c r => String c EmptyString :: chars r
  end.

(** [Object.keys(v)] paired with [v[key]], in the order of [Object.keys]. *)
Definition own_props {F} (v : jsval F) : list (string * jsval F) :=
  match v with
  | VObj props => props
  | VArr xs => imap (fun i x => (pretty i, x)) xs
  | VStr s => imap (fun i c => (pretty i, VStr c)) (chars s)
  | _ => []
  end.

(** [o[key]] on an object built from [props]; [undefined] when absent. *)
Fixpoint assoc {A} (key : string) (props : list (string * A)) : option A :=
  match props with
  | [] => None
  | (k, v) :: r => if String.eqb k key then Some v else assoc key r
  end.

Definition get_prop {F} (v : jsval F) (key : string) : jsval F :=
  default VUndefined (assoc key (own_props v)).

(** [o[key] = v]: an existing key keeps its place, a new key goes last. *)
Fixpoint assoc_set {A} (key : string) (v : A) (props : list (string * A))
  : list (string * A) :=
  match props with
  | [] => [(key, v)]
  | (k, w) :: r =>
      if String.eqb k key then (k, v) :: r else (k, w) :: assoc_set key v r
  end.

(** The property names every plain object inherits from
    [Object.prototype].  On an object created as [{}], [o[name]] is
    truthy for each of them, whether or not [name] is an own key. *)
Definition Object_prototype_names : list string :=
  ["constructor"; "__defineGetter__"; "__defineSetter__"; "hasOwnProperty";
   "__lookupGetter__"; "__lookupSetter__"; "isPrototypeOf";
   "propertyIsEnumerable"; "toString"; "valueOf"; "__proto__";
   "toLocaleString"].

Definition inherited (name : string) : bool :=
  bool_decide (name ∈ Object_prototype_names).

(** [array-flatten]: nested arrays are spliced in place, at any depth. *)
Fixpoint flatten_val {F} (v : jsval F) : list (jsval F) :=
  match v with
  | VArr xs => flat_map flatten_val xs
  | _ => [v]
  end.

Definition flatten {F} (xs : list (jsval F)) : list (jsval F) :=
  flat_map flatten_val xs.

(** ASCII case mapping, as [toLowerCase] and [toUpperCase] act on verbs. *)
Definition lower_ascii (c : ascii) : ascii :=
  let n := nat_of_ascii c in
  if (65 <=? n)%nat && (n <=? 90)%nat then ascii_of_nat (n + 32) else c.

Definition upper_ascii (c : ascii) : ascii :=
  let n := nat_of_ascii c in
  if (97 <=? n)%nat && (n <=? 122)%nat then ascii_of_nat (n - 32) else c.

Fixpoint map_string (f : ascii -> ascii) (s : string) : string :=
  match s with
  | EmptyString => EmptyString
  | String c r => String (f c) (map_string f r)
  end.

Definition toLowerCase : string -> string := map_string lower_ascii.
Definition toUpperCase : string -> string := map_string upper_ascii.

(** [s.substr(start)] *)
Definition substr_from (start : nat) (s : string) : string :=
  String.substring start (String.length s - start) s.

(** [s[s.length - 1]] *)
Definition last_char (s : string) : option ascii :=
  String.get (String.length s - 1) s.

(** ** Exceptions and results *)

Inductive Exn :=
| URIError (message : string) (status : nat)
| TypeError (message : string)
| Error (message : string).

Inductive Res (A : Type) :=
| Ret (a : A)
| Throw (e : Exn).

Arguments Ret {A} a.
Arguments Throw {A} e.

(** ** Parameters and the request context *)

(** A property name of [params]: an array index or any other name. *)
Inductive PKey := Idx (n : nat) | Name (s : string).

#[global] Instance PKey_eq_dec : EqDecision PKey.
Proof. solve_decision. Defined.

#[global] Instance PKey_countable : Countable PKey.
Proof.
  refine (inj_countable'
    (fun k => match k with Idx n => inl n | Name s => inr s end)
    (fun x => match x with inl n => Idx n | inr s => Name s end) _).
  by intros [].
Defined.

(** A property name that [Object.prototype] holds; an array index never
    is one. *)
Definition inherited_key (name : PKey) : bool :=
  match name with Name s => inherited s | Idx _ => false end.

(** A capture: a string, or [undefined] for a group that took no part. *)
Inductive pval := PUndef | PStr (s : string).

#[global] Instance pval_eq_dec : EqDecision pval.
Proof. solve_decision. Defined.

Abbreviation Params := (gmap PKey pval).

(** [params[name]] *)
Definition param_get (p : Params) (name : PKey) : pval :=
  default PUndef (p !! name).

(** What [ctx.next] can hold: nothing, a continuation of the host, or the
    [router_next] closure of the [handle] call at nesting depth [depth]. *)
Inductive Cont :=
| KUndefined
| KHost (id : nat)
| KRouterNext (depth : nat).

Record Ctx := mkCtx {
  ctx_method : string;
  ctx_url : string;
  ctx_query : option (list (string * value));
  ctx_params : option Params;
  ctx_baseUrl : option string;
  ctx_originalUrl : option string;
  ctx_route : option nat;          (* the matched Route, by its layer's index *)
  ctx_next : Cont;
  ctx_allow : option string;       (* the Allow header, [ctx.set('Allow', _)] *)
  ctx_body : option string
}.

(** ** User functions *)

(** How a handler written as [return next(signal)] ends. *)
Inductive Action :=
| Stop
| CallNext (signal : option string).

(** A function of the application: its [name], its [length], what it does
    when called as [(ctx, next, ...extra)] and whether its result is truthy
    when called on one value (the query-predicate position). *)
Record UserFn := mkUserFn {
  uf_name : string;
  uf_length : nat;
  uf_call : Ctx -> list value -> Ctx * Action;
  uf_test : value -> bool
}.

(** What the engine reports: calls it makes into user code. *)
Inductive Event :=
| EPredicate (fn : string) (actual : value)
| EHandler (fn : string) (url : string) (baseUrl : option string)
| EParam (fn : string) (val : pval) (name : PKey).

(** ** Layers, Routes and Routers *)

Record Key := mkKey { key_name : PKey }.

(** The comparator the [query] setter picks for a declared key. *)
Inductive Checker := ChkString | ChkRegExp | ChkArray | ChkFunction | ChkJSON.

(** [regexp.exec(path)]: the whole match and the capture groups.  The
    regular expression is one without the [g] and [y] flags, as
    [path-to-regexp] builds from a string path, so that [exec] keeps no
    [lastIndex] between calls.  A regular expression given as a path
    with one of these flags, whose [exec] starts where an earlier call
    stopped, is outside this model. *)
Definition Matcher := string -> option (string * list (option string)).

Record Layer_ (C R : Type) := mkLayer {
  layer_method : option string;
  layer_handle : C;
  layer_name : string;
  layer_params : option Params;
  layer_path : option string;
  layer__query : option (jsval C);
  layer_queryCheckers : list (string * Checker);
  layer_queryKeys : list string;
  layer_route : option R;
  layer_regexp : Matcher;
  layer_keys : list Key;
  layer_fast_star : bool;
  layer_fast_slash : bool
}.

Arguments mkLayer {C R}.
Arguments layer_method {C R}.
Arguments layer_handle {C R}.
Arguments layer_name {C R}.
Arguments layer_params {C R}.
Arguments layer_path {C R}.
Arguments layer__query {C R}.
Arguments layer_queryCheckers {C R}.
Arguments layer_queryKeys {C R}.
Arguments layer_route {C R}.
Arguments layer_regexp {C R}.
Arguments layer_keys {C R}.
Arguments layer_fast_star {C R}.
Arguments layer_fast_slash {C R}.

Record Route_ (C : Type) := mkRoute {
  route_path : jsval C;
  route_stack : list (Layer_ C Empty_set);
  route_methods : list (string * bool)
}.

Arguments mkRoute {C}.
Arguments route_path {C}.
Arguments route_stack {C}.
Arguments route_methods {C}.

Record Router_ (C : Type) := mkRouter {
  router_params : gmap PKey (list C);
  router_caseSensitive : bool;
  router_mergeParams : bool;
  router_strict : bool;
  router_prefix : option string;
  router_stack : list (Layer_ C (Route_ C))
}.

Arguments mkRouter {C}.
Arguments router_params {C}.
Arguments router_caseSensitive {C}.
Arguments router_mergeParams {C}.
Arguments router_strict {C}.
Arguments router_prefix {C}.
Arguments router_stack {C}.

(** A function value of the engine: a function of the application, the
    function [router] returned by [routes()] (its [.router] is [rt]), or
    [route.dispatch.bind(route)]. *)
Inductive Callee :=
| User (f : UserFn)
| RouterFn (rt : Router_ Callee)
| DispatchFn (r : Route_ Callee).

Abbreviation Route := (Route_ Callee).
Abbreviation Router := (Router_ Callee).
Abbreviation Layer := (Layer_ Callee Route).
Abbreviation RouteLayer := (Layer_ Callee Empty_set).
Abbreviation Arg := (jsval Callee).

(** [fn.name] *)
Definition fn_name (c : Callee) : string :=
  match c with
  | User f => uf_name f
  | RouterFn _ => "router"
  | DispatchFn _ => "bound dispatch"
  end.

(** [fn.length]: [router(ctx, next)] declares two parameters,
    [dispatch(ctx, next = ...)] one before its default. *)
Definition fn_length (c : Callee) : nat :=
  match c with
  | User f => uf_length f
  | RouterFn _ => 2
  | DispatchFn _ => 1
  end.

(** [fn.router] *)
Definition fn_router (c : Callee) : option Router :=
  match c with RouterFn rt => Some rt | _ => None end.

(** ** The host environment *)

Record RegexpOpts := mkOpts {
  opt_sensitive : option bool;
  opt_strict : option bool;
  opt_end : option bool
}.

Class HostEnv := {
  (** [None]: a [URIError] *)
  decodeURIComponent : string -> option string;
  (** [None]: a [SyntaxError] *)
  JSON_parse : value -> option value;
  (** [re.exec(actual)] is not [null], for [re] without the [g] and [y]
      flags *)
  regexp_test : string -> value -> bool;
  (** [util.inspect(v, { depth: null })] *)
  inspect : Arg -> string;
  (** [parseUrl(ctx).pathname]; [None] when there is none *)
  parseUrl_pathname : string -> option string;
  (** [pathRegexp(path, keys, opts)]: the matcher and the keys it pushed *)
  pathRegexp : Arg -> RegexpOpts -> Matcher * list Key
}.

Section Engine.
Context `{HostEnv}.

(** ** Layer.js *)

(** [new Layer(path, options, fn)] *)
Definition Layer_new {R} (path : Arg) (opts : RegexpOpts) (fn : Callee)
  : Layer_ Callee R :=
  let '(re, keys) := pathRegexp path opts in
  {| layer_method := None;
     layer_handle := fn;
     layer_name := if String.eqb (fn_name fn) EmptyString then "<anonymous>" else fn_name fn;
     layer_params := None;
     layer_path := None;
     layer__query := None;
     layer_queryCheckers := [];
     layer_queryKeys := [];
     layer_route := None;
     layer_regexp := re;
     layer_keys := keys;
     layer_fast_star := strict_eq path (VStr "*" : value);
     layer_fast_slash :=
       strict_eq path (VStr "/" : value) &&
       match opt_end opts with Some false => true | _ => false end |}.

(** The comparator chosen by the type of a declared value. *)
Definition checker_for (declared : Arg) : Checker :=
  match declared with
  | VStr _ => ChkString
  | VRegExp _ => ChkRegExp
  | VArr _ => ChkArray
  | VFun _ => ChkFunction
  | _ => ChkJSON
  end.

(** [set query(newQuery)] *)
Definition Layer_set_query {R} (l : Layer_ Callee R) (newQuery : Arg)
  : Layer_ Callee R :=
  let keys := (own_props newQuery).*1 in
  let with_query q qkeys checkers :=
    {| layer_method := layer_method l; layer_handle := layer_handle l;
       layer_name := layer_name l; layer_params := layer_params l;
       layer_path := layer_path l;
       layer__query := q;
       layer_queryCheckers := checkers;
       layer_queryKeys := qkeys;
       layer_route := layer_route l; layer_regexp := layer_regexp l;
       layer_keys := layer_keys l; layer_fast_star := layer_fast_star l;
       layer_fast_slash := layer_fast_slash l |} in
  if negb (truthy newQuery) || (length keys =? 0)%nat then
    with_query None [] []
  else
    with_query (Some newQuery) keys
      (foldl (fun acc key =>
                assoc_set key (checker_for (get_prop newQuery key)) acc)
             [] keys).

(** One comparator applied as [checker(expected, actual)]: the calls it
    makes into user code, and whether its result is truthy.  A regular
    expression declared for a key is one without the [g] and [y] flags
    (see [regexp_test]). *)
Definition run_checker (c : Checker) (expected : Arg) (actual : value)
  : list Event * bool :=
  match c with
  | ChkString => ([], strict_eq actual expected)
  | ChkRegExp =>
      ([], match expected with
           | VRegExp src => regexp_test src actual
           | _ => false
           end)
  | ChkArray =>
      ([], match expected with
           | VArr xs => existsb (fun x => strict_eq x actual) xs
           | _ => false
           end)
  | ChkFunction =>
      match expected with
      | VFun (User f) => ([EPredicate (uf_name f) actual], uf_test f actual)
      | VFun _ => ([], true)      (* an async function returns a promise *)
      | _ => ([], false)
      end
  | ChkJSON =>
      ([], match JSON_parse actual with
           | Some parsed => strict_eq expected parsed
           | None => false
           end)
  end.

(** [queryKeys.every(key => queryCheckers[key](_query[key], actualQuery[key]))] *)
Fixpoint query_every (declared : Arg) (checkers : list (string * Checker))
    (actualQuery : option (list (string * value))) (keys : list string)
  : list Event * Res bool :=
  match keys with
  | [] => ([], Ret true)
  | key :: rest =>
      match actualQuery with
      | None => ([], Throw (TypeError "Cannot read properties of undefined"))
      | Some q =>
          match assoc key checkers with
          | None => ([], Throw (TypeError "this.queryCheckers[key] is not a function"))
          | Some chk =>
              let '(log, ok) :=
                run_checker chk (get_prop declared key)
                            (default VUndefined (assoc key q)) in
              if ok then
                let '(log', r) := query_every declared checkers actualQuery rest in
                (log ++ log', r)
              else (log, Ret false)
          end
      end
  end.

(** [queryMatch(actualQuery)] *)
Definition queryMatch {R} (l : Layer_ Callee R)
    (actualQuery : option (list (string * value))) : list Event * Res bool :=
  match layer__query l with
  | None => ([], Ret true)
  | Some declared =>
      query_every declared (layer_queryCheckers l) actualQuery (layer_queryKeys l)
  end.

(** [decode_param(val)] *)
Definition decode_param (val : option string) : Res pval :=
  match val with
  | None => Ret PUndef
  | Some s =>
      if (String.length s =? 0)%nat then Ret (PStr s)
      else match decodeURIComponent s with
           | Some d => Ret (PStr d)
           | None => Throw (URIError ("Failed to decode param '" +:+ s +:+ "'") 400)
           end
  end.

(** [this.params] and [this.path] overwritten. *)
Definition set_scratch {R} (l : Layer_ Callee R) (p : option Params)
    (path : option string) : Layer_ Callee R :=
  {| layer_method := layer_method l; layer_handle := layer_handle l;
     layer_name := layer_name l;
     layer_params := p;
     layer_path := path;
     layer__query := layer__query l;
     layer_queryCheckers := layer_queryCheckers l;
     layer_queryKeys := layer_queryKeys l;
     layer_route := layer_route l; layer_regexp := layer_regexp l;
     layer_keys := layer_keys l; layer_fast_star := layer_fast_star l;
     layer_fast_slash := layer_fast_slash l |}.

(** The loop [for (i = 1; i < match.length; i += 1)] of [match]: the
    groups left, the keys left, and [params] so far.  It stops at the
    first capture that fails to decode, with [params] as filled so far. *)
Fixpoint store_captures (groups : list (option string)) (keys : list Key)
    (params : Params) : Params * Res unit :=
  match groups with
  | [] => (params, Ret ())
  | g :: groups' =>
      match keys with
      | [] => (params, Throw (TypeError "Cannot read properties of undefined (reading 'name')"))
      | key :: keys' =>
          let prop := key_name key in
          match decode_param g with
          | Throw e => (params, Throw e)
          | Ret val =>
              let params' :=
                if bool_decide (val ≠ PUndef) || negb (bool_decide (is_Some (params !! prop)))
                then <[prop := val]> params
                else params in
              store_captures groups' keys' params'
          end
      end
  end.

(** [match(path, query)]: the layer with its scratch as the call leaves
    it, the calls made into query predicates, and the result. *)
Definition Layer_match {R} (l : Layer_ Callee R) (path : option string)
    (query : option (list (string * value)))
  : Layer_ Callee R * list Event * Res bool :=
  let '(log, queryMatched) := queryMatch l query in
  match queryMatched with
  | Throw e => (l, log, Throw e)
  | Ret queryMatched =>
      let no_match := (set_scratch l None None, log, Ret false) in
      match path with
      | None => no_match
      | Some p =>
          if layer_fast_slash l then
            (set_scratch l (Some ∅) (Some EmptyString), log, Ret queryMatched)
          else if layer_fast_star l then
            match decode_param (Some p) with
            | Throw e => (l, log, Throw e)
            | Ret v =>
                (set_scratch l (Some {[Idx 0 := v]}) (Some p), log, Ret queryMatched)
            end
          else
            match layer_regexp l p with
            | None => no_match
            | Some (whole, groups) =>
                let '(params, r) := store_captures groups (layer_keys l) ∅ in
                let l' := set_scratch l (Some params) (Some whole) in
                match r with
                | Throw e => (l', log, Throw e)
                | Ret _ => (l', log, Ret queryMatched)
                end
            end
      end
  end.

(** [handle_request(ctx, next)]: a function declaring more than three
    parameters is not invoked, [next()] is called in its place. *)
Inductive Invocation :=
| Skip
| Invoke (fn : Callee).

Definition handle_request {R} (l : Layer_ Callee R) : Invocation :=
  if (3 <? fn_length (layer_handle l))%nat then Skip
  else Invoke (layer_handle l).

(** ** Route.js *)

(** [new Route(path)] *)
Definition Route_new (path : Arg) : Route :=
  {| route_path := path; route_stack := []; route_methods := [] |}.

(** The flag the verb methods wrote under [name], if any.  It is
    [this.methods[name]], as a condition, for the names the code spells
    out ([_all], [get], [head]), none of which [Object.prototype]
    holds. *)
Definition methods_get (r : Route) (name : string) : bool :=
  default false (assoc name (route_methods r)).

(** [_handles_method(method)]; [Boolean(this.methods[name])] for a name
    that comes from the request also finds what [methods], created as
    [{}], inherits. *)
Definition _handles_method (r : Route) (method : string) : bool :=
  if methods_get r "_all" then true
  else
    let name := toLowerCase method in
    let name :=
      if String.eqb name "head" && negb (methods_get r "head") then "get"
      else name in
    methods_get r name || inherited name.

Definition _options (r : Route) : list string :=
  let methodsArr := (route_methods r).*1 in
  let methodsArr :=
    if methods_get r "get" && negb (methods_get r "head")
    then methodsArr ++ ["head"]
    else methodsArr in
  toUpperCase <$> methodsArr.

(** [layer.method = m] *)
Definition set_method {R} (l : Layer_ Callee R) (m : option string)
  : Layer_ Callee R :=
  {| layer_method := m;
     layer_handle := layer_handle l; layer_name := layer_name l;
     layer_params := layer_params l; layer_path := layer_path l;
     layer__query := layer__query l;
     layer_queryCheckers := layer_queryCheckers l;
     layer_queryKeys := layer_queryKeys l;
     layer_route := layer_route l; layer_regexp := layer_regexp l;
     layer_keys := layer_keys l; layer_fast_star := layer_fast_star l;
     layer_fast_slash := layer_fast_slash l |}.

(** The optional leading query argument:
    [if (middlewares[0] && typeof middlewares[0] !== 'function')
       query = middlewares.shift()] *)
Definition shift_query (middlewares : list Arg) : Arg * list Arg :=
  match middlewares with
  | m0 :: rest =>
      if truthy m0 && negb (is_function m0) then (m0, rest)
      else (VUndefined, middlewares)
  | [] => (VUndefined, [])
  end.

Definition Route_error (methodName : string) (handle : Arg) : Exn :=
  TypeError ("Route." +:+
             (if String.eqb methodName "_all" then "all" else methodName) +:+
             "() requires callback functions but got a " +:+ inspect handle).

(** The loop of [method]: the Route as the loop leaves it, and the error
    it threw, if any. *)
Fixpoint Route_method_loop (r : Route) (methodName : string) (query : Arg)
    (middlewares : list Arg) : Route * option Exn :=
  match middlewares with
  | [] => (r, None)
  | handle :: rest =>
      match handle with
      | VFun fn =>
          let isAll := String.eqb methodName "_all" in
          let layer := Layer_new (VStr "/") (mkOpts None None None) fn in
          let layer := set_method layer (if isAll then None else Some methodName) in
          let layer := Layer_set_query layer query in
          Route_method_loop
            {| route_path := route_path r;
               route_stack := route_stack r ++ [layer];
               route_methods := assoc_set methodName true (route_methods r) |}
            methodName query rest
      | _ => (r, Some (Route_error methodName handle))
      end
  end.

(** [route.method(methodName, ...middlewares)] *)
Definition Route_method (r : Route) (methodName : string)
    (middlewares : list Arg) : Route * option Exn :=
  let '(query, middlewares) := shift_query middlewares in
  Route_method_loop r methodName query middlewares.

Definition Route_get r mws := Route_method r "get" mws.
Definition Route_post r mws := Route_method r "post" mws.
Definition Route_delete r mws := Route_method r "delete" mws.
Definition Route_put r mws := Route_method r "put" mws.
Definition Route_patch r mws := Route_method r "patch" mws.
Definition Route_head r mws := Route_method r "head" mws.
Definition Route_options r mws := Route_method r "options" mws.

(** The variables captured by [routeNext]. *)
Record RouteFrame := mkRouteFrame {
  rf_stack : list RouteLayer;
  rf_method : string;
  rf_idx : nat
}.

(** The call a transition of [dispatch] ends with. *)
Inductive RouteCall :=
| RNext (signal : option string)     (* [next(signal)] *)
| RRouteNext                         (* [routeNext()] *)
| RHandle (layer : RouteLayer)       (* [layer.handle_request(ctx, routeNext)] *)
| RThrow (e : Exn).

(** [layer.method && layer.method !== method] *)
Definition other_method {R} (l : Layer_ Callee R) (method : string) : bool :=
  match layer_method l with
  | Some m => negb (String.eqb m EmptyString) && negb (String.eqb m method)
  | None => false
  end.

(** [routeNext(signal)] *)
Definition routeNext (f : RouteFrame) (ctx : Ctx) (signal : option string)
  : RouteFrame * list Event * RouteCall :=
  if bool_decide (signal = Some "route") then (f, [], RNext None)
  else if bool_decide (signal = Some "router") then (f, [], RNext signal)
  else
    let layer := rf_stack f !! rf_idx f in
    let f' := {| rf_stack := rf_stack f; rf_method := rf_method f;
                 rf_idx := S (rf_idx f) |} in
    match layer with
    | None => (f', [], RNext None)
    | Some layer =>
        if other_method layer (rf_method f) then (f', [], RRouteNext)
        else
          match queryMatch layer (ctx_query ctx) with
          | (log, Throw e) => (f', log, RThrow e)
          | (log, Ret false) => (f', log, RRouteNext)
          | (log, Ret true) => (f', log, RHandle layer)
          end
    end.

(** [dispatch(ctx, next)] up to its first call: [None] when the Route has
    no layer and [next()] is called at once. *)
Definition Route_dispatch (r : Route) (ctx : Ctx) : option RouteFrame :=
  if (length (route_stack r) =? 0)%nat then None
  else
    let method := toLowerCase (ctx_method ctx) in
    let method :=
      if String.eqb method "head" && negb (methods_get r "head") then "get"
      else method in
    Some {| rf_stack := route_stack r; rf_method := method; rf_idx := 0 |}.

(** ** index.js *)

(** A continuation argument is a signal when it is truthy. *)
Definition sig_truthy (signal : option string) : bool :=
  match signal with
  | Some s => negb (String.eqb s EmptyString)
  | None => false
  end.

(** [appendMethods(list, addition)] *)
Definition appendMethods (methods addition : list string) : list string :=
  foldl (fun acc method =>
           if bool_decide (method ∈ acc) then acc else acc ++ [method])
        methods addition.

(** [options.join(',')] *)
Fixpoint join (sep : string) (xs : list string) : string :=
  match xs with
  | [] => EmptyString
  | [x] => x
  | x :: rest => x +:+ sep +:+ join sep rest
  end.

(** [setOptionsResponse(ctx, options)] *)
Definition setOptionsResponse (ctx : Ctx) (options : list string) : Ctx :=
  let body := join "," options in
  {| ctx_method := ctx_method ctx; ctx_url := ctx_url ctx;
     ctx_query := ctx_query ctx; ctx_params := ctx_params ctx;
     ctx_baseUrl := ctx_baseUrl ctx; ctx_originalUrl := ctx_originalUrl ctx;
     ctx_route := ctx_route ctx; ctx_next := ctx_next ctx;
     ctx_allow := Some body;
     ctx_body := Some body |}.

(** [getProtohost(url)]; [None] is [undefined]. *)
Definition getProtohost (url : string) : option string :=
  if (String.length url =? 0)%nat || bool_decide (String.get 0 url = Some "/"%char)
  then None
  else
    let pathLength := default (String.length url) (String.index 0 "?" url) in
    match String.index 0 "://" (String.substring 0 pathLength url) with
    | Some fqdnIndex =>
        Some (match String.index (3 + fqdnIndex) "/" url with
              | Some slash => String.substring 0 slash url
              | None => EmptyString
              end)
    | None => None
    end.

(** [while (i in params) i += 1], from [i]; [fuel] bounds the walk and
    [size params] is always enough. *)
Fixpoint first_gap (fuel : nat) (params : Params) (i : nat) : nat :=
  match fuel with
  | 0 => i
  | S fuel' =>
      if bool_decide (is_Some (params !! Idx i))
      then first_gap fuel' params (S i)
      else i
  end.

(** [for (i -= 1; i >= 0; i -= 1)] of [mergeParams], with [i] indices
    left: [params[i + o] = params[i]], then [delete params[i]] when
    [i < o]. *)
Fixpoint offset_indices (i o : nat) (params : Params) : Params :=
  match i with
  | 0 => params
  | S i' =>
      let params := <[Idx (i' + o) := param_get params (Idx i')]> params in
      let params := if (i' <? o)%nat then delete (Idx i') params else params in
      offset_indices i' o params
  end.

(** [mergeParams(params, parent)]; [Object.assign(obj, params)] on a copy
    [obj] of [parent] is the union that prefers [params]. *)
Definition mergeParams (params : Params) (parent : option Params) : Params :=
  match parent with
  | None => params
  | Some parent =>
      if negb (bool_decide (is_Some (params !! Idx 0)))
         || negb (bool_decide (is_Some (parent !! Idx 0)))
      then params ∪ parent
      else
        let i := first_gap (size params) params 0 in
        let o := first_gap (size parent) parent 0 in
        offset_indices i o params ∪ parent
  end.

(** One record of the per-request memo, [{ signal, match, value }]. *)
Record MemoRec := mkMemoRec {
  memo_signal : option string;
  memo_match : pval;
  memo_value : pval
}.

(** [paramcalled]: the records allocated so far and, for each name, the
    record it refers to; [process_params] keeps a reference of its own. *)
Record Memo := mkMemo {
  memo_heap : list MemoRec;
  memo_called : gmap PKey nat
}.

(** What [handle] fixes on entry. *)
Record HandleEnv := mkHandleEnv {
  he_self : Router;
  he_protohost : string;
  he_parentParams : option Params;
  he_parentUrl : string;
  he_vals : option string * option Params * Cont  (* baseUrl, params, next *)
}.

(** The variables captured by [router_next], [done] and [trim_prefix]. *)
Record RouterFrame := mkRouterFrame {
  hf_env : HandleEnv;
  hf_idx : nat;
  hf_removed : string;
  hf_slashAdded : bool;
  hf_paramcalled : Memo;
  hf_options : list string
}.

(** The variables captured by [param] and [paramCallback], and by the
    continuation [router_next] hands to [process_params]. *)
Record ParamFrame := mkParamFrame {
  pf_params : gmap PKey (list Callee);
  pf_keys : list Key;
  pf_i : nat;
  pf_paramIndex : nat;
  pf_key : option Key;
  pf_paramVal : pval;
  pf_paramCallbacks : option (list Callee);
  pf_paramCalled : option nat;
  pf_layer : Layer;
  pf_layerPath : string;
  pf_path : string
}.

Inductive Frame :=
| FRouter (f : RouterFrame)
| FRoute (f : RouteFrame)
| FParam (f : ParamFrame).

(** The call about to be made.  [CNext] calls the continuation that the
    running code was given, which is the closure of the innermost frame. *)
Inductive Call :=
| CNext (signal : option string)
| CInvoke (fn : Callee)
| CInvokeParam (fn : Callee) (paramVal : pval) (name : PKey)
| CDispatch (r : Route)
| CRouteNext (signal : option string)
| CHandle (rt : Router)
| CRouterNext (signal : option string)
| CDone
| CProcessParams (layer : Layer) (layerPath path : string)
| CParamsDone (layer : Layer) (layerPath path : string) (paramSignal : option string)
| CTrimPrefix (layer : Layer) (layerPath path : string)
| CParam (signal : option string)
| CParamCallback (signal : option string)
| CFinished (signal : option string)   (* the host's continuation is called *)
| CStopped                             (* a handler returned without [next] *)
| CThrown (e : Exn)
| CStuck.

Definition ctx_set_url (ctx : Ctx) (url : string) : Ctx :=
  {| ctx_method := ctx_method ctx; ctx_url := url;
     ctx_query := ctx_query ctx; ctx_params := ctx_params ctx;
     ctx_baseUrl := ctx_baseUrl ctx; ctx_originalUrl := ctx_originalUrl ctx;
     ctx_route := ctx_route ctx; ctx_next := ctx_next ctx;
     ctx_allow := ctx_allow ctx; ctx_body := ctx_body ctx |}.

Definition ctx_set_baseUrl (ctx : Ctx) (baseUrl : option string) : Ctx :=
  {| ctx_method := ctx_method ctx; ctx_url := ctx_url ctx;
     ctx_query := ctx_query ctx; ctx_params := ctx_params ctx;
     ctx_baseUrl := baseUrl; ctx_originalUrl := ctx_originalUrl ctx;
     ctx_route := ctx_route ctx; ctx_next := ctx_next ctx;
     ctx_allow := ctx_allow ctx; ctx_body := ctx_body ctx |}.

Definition ctx_set_params (ctx : Ctx) (params : option Params) : Ctx :=
  {| ctx_method := ctx_method ctx; ctx_url := ctx_url ctx;
     ctx_query := ctx_query ctx; ctx_params := params;
     ctx_baseUrl := ctx_baseUrl ctx; ctx_originalUrl := ctx_originalUrl ctx;
     ctx_route := ctx_route ctx; ctx_next := ctx_next ctx;
     ctx_allow := ctx_allow ctx; ctx_body := ctx_body ctx |}.

Definition ctx_set_route (ctx : Ctx) (route : option nat) : Ctx :=
  {| ctx_method := ctx_method ctx; ctx_url := ctx_url ctx;
     ctx_query := ctx_query ctx; ctx_params := ctx_params ctx;
     ctx_baseUrl := ctx_baseUrl ctx; ctx_originalUrl := ctx_originalUrl ctx;
     ctx_route := route; ctx_next := ctx_next ctx;
     ctx_allow := ctx_allow ctx; ctx_body := ctx_body ctx |}.

Definition ctx_set_next (ctx : Ctx) (next : Cont) : Ctx :=
  {| ctx_method := ctx_method ctx; ctx_url := ctx_url ctx;
     ctx_query := ctx_query ctx; ctx_params := ctx_params ctx;
     ctx_baseUrl := ctx_baseUrl ctx; ctx_originalUrl := ctx_originalUrl ctx;
     ctx_route := ctx_route ctx; ctx_next := next;
     ctx_allow := ctx_allow ctx; ctx_body := ctx_body ctx |}.

Definition ctx_set_originalUrl (ctx : Ctx) (u : option string) : Ctx :=
  {| ctx_method := ctx_method ctx; ctx_url := ctx_url ctx;
     ctx_query := ctx_query ctx; ctx_params := ctx_params ctx;
     ctx_baseUrl := ctx_baseUrl ctx; ctx_originalUrl := u;
     ctx_route := ctx_route ctx; ctx_next := ctx_next ctx;
     ctx_allow := ctx_allow ctx; ctx_body := ctx_body ctx |}.

(** [a || ''] on an optional string *)
Definition or_empty (a : option string) : string := default EmptyString a.

(** [handle(ctx, next)] up to [return router_next()]; [depth] names the
    new [router_next] closure. *)
Definition Router_handle (self : Router) (ctx : Ctx) (depth : nat)
  : RouterFrame * Ctx :=
  let protohost := or_empty (getProtohost (ctx_url ctx)) in
  let parentParams := ctx_params ctx in
  let parentUrl := or_empty (ctx_baseUrl ctx) in
  let vals := (ctx_baseUrl ctx, ctx_params ctx, ctx_next ctx) in
  let ctx := ctx_set_next ctx (KRouterNext depth) in
  let ctx := ctx_set_baseUrl ctx (Some parentUrl) in
  let ctx :=
    ctx_set_originalUrl ctx
      (Some (match ctx_originalUrl ctx with
             | Some u => if String.eqb u EmptyString then ctx_url ctx else u
             | None => ctx_url ctx
             end)) in
  ({| hf_env := {| he_self := self; he_protohost := protohost;
                   he_parentParams := parentParams;
                   he_parentUrl := parentUrl; he_vals := vals |};
      hf_idx := 0; hf_removed := EmptyString; hf_slashAdded := false;
      hf_paramcalled := {| memo_heap := []; memo_called := ∅ |};
      hf_options := [] |}, ctx).

(** [done()]: the context it leaves; it ends with [next()]. *)
Definition done (f : RouterFrame) (ctx : Ctx) : Ctx :=
  let ctx :=
    if String.eqb (ctx_method ctx) "OPTIONS"
       && (0 <? length (hf_options f))%nat
    then setOptionsResponse ctx (hf_options f)
    else ctx in
  let '(baseUrl, params, next) := he_vals (hf_env f) in
  ctx_set_next (ctx_set_params (ctx_set_baseUrl ctx baseUrl) params) next.

(** The [while] loop of [router_next] over the layers from [idx] on: the
    new [idx] and [options], the predicate calls made, and the layer it
    stopped at with a match, carrying the scratch [match] left in it. *)
Fixpoint scan_stack (path : string) (ctx : Ctx) (rest : list Layer)
    (idx : nat) (options : list string)
  : nat * list string * list Event * Res (option Layer) :=
  match rest with
  | [] => (idx, options, [], Ret None)
  | layer :: rest' =>
      let idx := S idx in
      let '(layer, log, matched) := Layer_match layer (Some path) (ctx_query ctx) in
      let continue options :=
        let '(idx', options', log', found) :=
          scan_stack path ctx rest' idx options in
        (idx', options', log ++ log', found) in
      match matched with
      | Throw e => (idx, options, log, Throw e)
      | Ret false => continue options
      | Ret true =>
          match layer_route layer with
          | None => (idx, options, log, Ret (Some layer))
          | Some route =>
              let method := ctx_method ctx in
              let has_method := _handles_method route method in
              let options :=
                if negb has_method && String.eqb method "OPTIONS"
                then appendMethods options (_options route)
                else options in
              if negb has_method && negb (String.eqb method "HEAD")
              then continue options
              else (idx, options, log, Ret (Some layer))
          end
      end
  end.

(** [layer.handle_request(ctx, next)] as the call it makes. *)
Definition handle_request_call {R} (l : Layer_ Callee R) : Call :=
  match handle_request l with
  | Skip => CNext None
  | Invoke fn => CInvoke fn
  end.

(** The head of [router_next]: the added slash is removed and the
    trimmed prefix put back; [slashAdded] and [removed] are then reset. *)
Definition restore_url (f : RouterFrame) (ctx : Ctx) : Ctx :=
  let env := hf_env f in
  let protohost := he_protohost env in
  (* remove added slash *)
  let ctx :=
    if hf_slashAdded f then ctx_set_url ctx (substr_from 1 (ctx_url ctx))
    else ctx in
  (* restore altered ctx.url *)
  if negb (String.length (hf_removed f) =? 0)%nat then
    ctx_set_url (ctx_set_baseUrl ctx (Some (he_parentUrl env)))
      (protohost +:+ hf_removed f
         +:+ substr_from (String.length protohost) (ctx_url ctx))
  else ctx.

(** [router_next(signal)] *)
Definition router_next (f : RouterFrame) (ctx : Ctx) (signal : option string)
  : RouterFrame * Ctx * list Event * Call :=
  let env := hf_env f in
  let stack := router_stack (he_self env) in
  let ctx := restore_url f ctx in
  let frame idx options :=
    {| hf_env := env; hf_idx := idx; hf_removed := EmptyString;
       hf_slashAdded := false; hf_paramcalled := hf_paramcalled f;
       hf_options := options |} in
  if (length stack <=? hf_idx f)%nat || bool_decide (signal = Some "router")
  then (frame (hf_idx f) (hf_options f), ctx, [], CDone)
  else
    match parseUrl_pathname (ctx_url ctx) with
    | None => (frame (hf_idx f) (hf_options f), ctx, [], CDone)
    | Some path =>
        let '(idx, options, log, found) :=
          scan_stack path ctx (drop (hf_idx f) stack) (hf_idx f) (hf_options f) in
        match found with
        | Throw e => (frame idx options, ctx, log, CThrown e)
        | Ret None => (frame idx options, ctx, log, CDone)
        | Ret (Some layer) =>
            let ctx :=
              match layer_route layer with
              | Some _ => ctx_set_route ctx (Some (idx - 1))
              | None => ctx
              end in
            (* a layer that matched holds both [params] and [path] *)
            match layer_params layer, layer_path layer with
            | Some params, Some layerPath =>
                let ctx :=
                  ctx_set_params ctx
                    (Some (if router_mergeParams (he_self env)
                           then mergeParams params (he_parentParams env)
                           else params)) in
                (frame idx options, ctx, log, CProcessParams layer layerPath path)
            | _, _ =>
                (frame idx options, ctx, log,
                 CThrown (TypeError "Cannot read properties of undefined"))
            end
        end
    end.

(** [trim_prefix(layer, layerPath, path)] *)
Definition trim_prefix (f : RouterFrame) (ctx : Ctx) (layer : Layer)
    (layerPath path : string) : RouterFrame * Ctx * Call :=
  let env := hf_env f in
  let protohost := he_protohost env in
  let trimmed :=
    let removed := layerPath in
    let url :=
      protohost +:+
      substr_from (String.length protohost + String.length removed) (ctx_url ctx) in
    let slash :=
      (String.length protohost =? 0)%nat
      && negb (bool_decide (String.get 0 url = Some "/"%char)) in
    let url := if slash then "/" +:+ url else url in
    let baseUrl :=
      he_parentUrl env +:+
      (if bool_decide (last_char removed = Some "/"%char)
       then String.substring 0 (String.length removed - 1) removed
       else removed) in
    ({| hf_env := env; hf_idx := hf_idx f; hf_removed := removed;
        hf_slashAdded := if slash then true else hf_slashAdded f;
        hf_paramcalled := hf_paramcalled f; hf_options := hf_options f |},
     ctx_set_baseUrl (ctx_set_url ctx url) (Some baseUrl),
     handle_request_call layer) in
  if negb (String.length layerPath =? 0)%nat then
    match String.get (String.length layerPath) path with
    | Some c =>
        if negb (Ascii.eqb c "/") && negb (Ascii.eqb c ".")
        then (f, ctx, CRouterNext None)
        else trimmed
    | None => trimmed
    end
  else (f, ctx, handle_request_call layer).

(** The continuation [router_next] hands to [process_params]. *)
Definition params_done (layer : Layer) (layerPath path : string)
    (paramSignal : option string) : Call :=
  if sig_truthy paramSignal then CRouterNext paramSignal
  else
    match layer_route layer with
    | Some _ => handle_request_call layer
    | None => CTrimPrefix layer layerPath path
    end.

(** [process_params(layer, called, ctx, next)] up to its first call:
    [None] on the fast track, where [next()] is called at once. *)
Definition process_params (self : Router) (layer : Layer)
    (layerPath path : string) : option ParamFrame :=
  if (length (layer_keys layer) =? 0)%nat then None
  else
    Some {| pf_params := router_params self; pf_keys := layer_keys layer;
            pf_i := 0; pf_paramIndex := 0; pf_key := None;
            pf_paramVal := PUndef; pf_paramCallbacks := None;
            pf_paramCalled := None;
            pf_layer := layer; pf_layerPath := layerPath; pf_path := path |}.

(** The call a transition of [process_params] ends with. *)
Inductive ParamCall :=
| PNext (signal : option string)            (* [next(signal)] *)
| PParam (signal : option string)           (* [param(signal)] *)
| PParamCallback                            (* [paramCallback()] *)
| PMiddleware (fn : Callee) (paramVal : pval) (name : PKey)
| PThrow (e : Exn).

(** [paramCalled && (paramCalled.match === paramVal ||
      (paramCalled.signal && paramCalled.signal !== 'route'))] *)
Definition replays (paramCalled : option MemoRec) (paramVal : pval) : bool :=
  match paramCalled with
  | None => false
  | Some rec =>
      bool_decide (memo_match rec = paramVal)
      || (sig_truthy (memo_signal rec)
          && negb (bool_decide (memo_signal rec = Some "route")))
  end.

(** [param(signal)] *)
Definition param (pf : ParamFrame) (called : Memo) (ctx : Ctx)
    (signal : option string) : ParamFrame * Memo * Ctx * ParamCall :=
  if sig_truthy signal then (pf, called, ctx, PNext signal)
  else if (length (pf_keys pf) <=? pf_i pf)%nat then (pf, called, ctx, PNext None)
  else
    match pf_keys pf !! pf_i pf, ctx_params ctx with
    | Some key, Some params =>
        let name := key_name key in
        let paramVal := param_get params name in
        let paramCallbacks := pf_params pf !! name in
        let paramCalled := memo_called called !! name in
        let frame ref :=
          {| pf_params := pf_params pf; pf_keys := pf_keys pf;
             pf_i := S (pf_i pf); pf_paramIndex := 0; pf_key := Some key;
             pf_paramVal := paramVal; pf_paramCallbacks := paramCallbacks;
             pf_paramCalled := ref;
             pf_layer := pf_layer pf; pf_layerPath := pf_layerPath pf;
             pf_path := pf_path pf |} in
        if bool_decide (paramVal = PUndef) || negb (bool_decide (is_Some paramCallbacks))
        then (frame paramCalled, called, ctx, PParam None)
        else
          let rec := paramCalled ≫= (fun ref => memo_heap called !! ref) in
          if replays rec paramVal then
            match rec with
            | Some rec =>
                (frame paramCalled, called,
                 ctx_set_params ctx (Some (<[name := memo_value rec]> params)),
                 PParam (memo_signal rec))
            | None => (frame paramCalled, called, ctx, PParam None)
            end
          else
            let ref := length (memo_heap called) in
            (frame (Some ref),
             {| memo_heap :=
                  memo_heap called
                    ++ [{| memo_signal := None; memo_match := paramVal;
                           memo_value := paramVal |}];
                memo_called := <[name := ref]> (memo_called called) |},
             ctx, PParamCallback)
    | _, _ =>
        (pf, called, ctx, PThrow (TypeError "Cannot read properties of undefined"))
    end.

(** [paramCallback(signal)] *)
Definition paramCallback (pf : ParamFrame) (called : Memo) (ctx : Ctx)
    (signal : option string) : ParamFrame * Memo * ParamCall :=
  match pf_paramCallbacks pf, pf_key pf, ctx_params ctx,
        pf_paramCalled pf ≫= (fun ref => memo_heap called !! ref) with
  | Some paramCallbacks, Some key, Some params, Some rec =>
      let ref := default 0 (pf_paramCalled pf) in
      let paramMiddleware := paramCallbacks !! pf_paramIndex pf in
      let pf :=
        {| pf_params := pf_params pf; pf_keys := pf_keys pf;
           pf_i := pf_i pf; pf_paramIndex := S (pf_paramIndex pf);
           pf_key := pf_key pf; pf_paramVal := pf_paramVal pf;
           pf_paramCallbacks := pf_paramCallbacks pf;
           pf_paramCalled := pf_paramCalled pf;
           pf_layer := pf_layer pf; pf_layerPath := pf_layerPath pf;
           pf_path := pf_path pf |} in
      (* store updated value *)
      let value := param_get params (key_name key) in
      let store sig :=
        {| memo_heap :=
             <[ref := {| memo_signal := sig; memo_match := memo_match rec;
                         memo_value := value |}]> (memo_heap called);
           memo_called := memo_called called |} in
      if sig_truthy signal then (pf, store signal, PParam signal)
      else
        match paramMiddleware with
        | None => (pf, store (memo_signal rec), PParam None)
        | Some fn =>
            (pf, store (memo_signal rec),
             PMiddleware fn (pf_paramVal pf) (key_name key))
        end
  | _, _, _, _ =>
      (pf, called, PThrow (TypeError "Cannot read properties of undefined"))
  end.

(** *** Registration *)

Record RouterOptions := mkRouterOptions {
  o_caseSensitive : option bool;
  o_mergeParams : option bool;
  o_strict : option bool;
  o_prefix : option string
}.

(** [Router.defaultOptions], a property of the class that an application
    may assign to; the flags by their truth value. *)
Record DefaultOptions := mkDefaultOptions {
  d_caseSensitive : bool;
  d_mergeParams : bool;
  d_strict : bool;
  d_prefix : option string
}.

(** [Router.defaultOptions] as the module sets it: every flag off and no
    prefix. *)
Definition Router_defaultOptions : DefaultOptions :=
  mkDefaultOptions false false false None.

(** [new Router(options)] at a time when [Router.defaultOptions] is
    [defaults]: [Object.assign({}, Router.defaultOptions, options)]. *)
Definition Router_new_with (defaults : DefaultOptions) (options : RouterOptions)
  : Router :=
  {| router_params := ∅;
     router_caseSensitive :=
       default (d_caseSensitive defaults) (o_caseSensitive options);
     router_mergeParams := default (d_mergeParams defaults) (o_mergeParams options);
     router_strict := default (d_strict defaults) (o_strict options);
     router_prefix :=
       match o_prefix options with
       | Some prefix => Some prefix
       | None => d_prefix defaults
       end;
     router_stack := [] |}.

(** [new Router(options)] while [Router.defaultOptions] is as the module
    sets it. *)
Definition Router_new (options : RouterOptions) : Router :=
  Router_new_with Router_defaultOptions options.

Definition push_layer (self : Router) (layer : Layer) : Router :=
  {| router_params := router_params self;
     router_caseSensitive := router_caseSensitive self;
     router_mergeParams := router_mergeParams self;
     router_strict := router_strict self;
     router_prefix := router_prefix self;
     router_stack := router_stack self ++ [layer] |}.

Definition Router_use_error (fn : Arg) : Exn :=
  TypeError ("Router.use() requires a middleware function but got a "
             +:+ inspect fn).

(** [fn.router && fn.router.prefix], when truthy *)
Definition mounted_prefix (fn : Callee) : option string :=
  match fn_router fn ≫= router_prefix with
  | Some p => if String.eqb p EmptyString then None else Some p
  | None => None
  end.

(** The path a middleware is mounted at: ['/usedPath/'] and
    ['/routerPath'] merge to ['/usedPath/routerPath']. *)
Definition prefixed_path (path : Arg) (fn : Callee) : Res Arg :=
  match mounted_prefix fn with
  | None => Ret path
  | Some prefix =>
      match path with
      | VStr p =>
          let p :=
            if bool_decide (last_char p = Some "/"%char)
               && bool_decide (String.get 0 prefix = Some "/"%char)
            then String.substring 0 (String.length p - 1) p
            else p in
          Ret (VStr (p +:+ prefix))
      | _ => Throw (TypeError "prefixedPath.endsWith is not a function")
      end
  end.

(** [layer.route = route] *)
Definition set_route (l : Layer) (route : option Route) : Layer :=
  {| layer_method := layer_method l;
     layer_handle := layer_handle l; layer_name := layer_name l;
     layer_params := layer_params l; layer_path := layer_path l;
     layer__query := layer__query l;
     layer_queryCheckers := layer_queryCheckers l;
     layer_queryKeys := layer_queryKeys l;
     layer_route := route; layer_regexp := layer_regexp l;
     layer_keys := layer_keys l; layer_fast_star := layer_fast_star l;
     layer_fast_slash := layer_fast_slash l |}.

(** The loop of [use]: the Router as the loop leaves it, and the error it
    threw, if any. *)
Fixpoint Router_use_loop (self : Router) (path query : Arg)
    (middlewares : list Arg) : Router * option Exn :=
  match middlewares with
  | [] => (self, None)
  | fn :: rest =>
      match fn with
      | VFun callee =>
          match prefixed_path path callee with
          | Throw e => (self, Some e)
          | Ret prefixedPath =>
              let layer :=
                Layer_new prefixedPath
                  (mkOpts (Some (router_caseSensitive self)) (Some false) (Some false))
                  callee in
              let layer := Layer_set_query (set_route layer None) query in
              Router_use_loop (push_layer self layer) path query rest
          end
      | _ => (self, Some (Router_use_error fn))
      end
  end.

(** The head of [use]: the path, the query and the middleware it reads
    from its arguments. *)
Definition use_arguments (middlewares : list Arg) : Arg * Arg * list Arg :=
  let firstArg := default VUndefined (head middlewares) in
  let firstArg := match firstArg with VArr xs => xs | _ => [firstArg] end in
  let '(path, middlewares) :=
    if forallb is_string_or_regexp firstArg
    then (default VUndefined (head middlewares), tail middlewares)
    else (VStr "/", middlewares) in
  let middlewares := flatten middlewares in
  let '(query, middlewares) := shift_query middlewares in
  (path, query, middlewares).

(** [router.use(...middlewares)] *)
Definition Router_use (self : Router) (middlewares : list Arg)
  : Router * option Exn :=
  let '(path, query, middlewares) := use_arguments middlewares in
  if (length middlewares =? 0)%nat
  then (self, Some (TypeError "Router.use() requires a middleware function"))
  else Router_use_loop self path query middlewares.

(** [routes(usedByRouter)], called at a time when [Router.defaultOptions]
    is [defaults], which the [new Router()] of the wrapper reads. *)
Definition routes (defaults : DefaultOptions) (self : Router)
    (usedByRouter : bool) : Callee :=
  let router := RouterFn self in
  if negb usedByRouter && bool_decide (is_Some (mounted_prefix router))
  then
    let wrapper := Router_new_with defaults (mkRouterOptions None None None None) in
    RouterFn (Router_use wrapper [VFun router]).1
  else router.

(** [route[method]], for the verbs [Route] declares *)
Definition Route_verb (method : string) : option string :=
  if String.eqb method "all" then Some "_all"
  else if String.eqb method "del" then Some "delete"
  else if bool_decide
            (method ∈ ["get"; "post"; "delete"; "put"; "patch"; "head"; "options"])
  then Some method
  else None.

(** [router.method(method, path, ...middlewares)]: [route(path, query)]
    pushes a layer that owns the new Route, and [route[method]] then adds
    the handlers to that Route. *)
Definition Router_method (self : Router) (method : string) (path : Arg)
    (middlewares : list Arg) : Router * option Exn :=
  let '(query, middlewares) := shift_query middlewares in
  let '(route, err) :=
    match Route_verb method with
    | Some methodName => Route_method (Route_new path) methodName middlewares
    | None => (Route_new path, Some (TypeError "route[method] is not a function"))
    end in
  let layer :=
    Layer_new path
      (mkOpts (Some (router_caseSensitive self)) (Some (router_strict self))
              (Some true))
      (DispatchFn route) in
  let layer := Layer_set_query (set_route layer (Some route)) query in
  (push_layer self layer, err).

(** [router.param(name, ...middlewares)].  For a name that
    [Object.prototype] holds, [this.params[name] || []] is the inherited
    member, which has no [push]; the assignment before the [push] stores
    that member under the same name, which changes no later read of
    [this.params[name]]. *)
Fixpoint Router_param (self : Router) (name : PKey) (shown : string)
    (middlewares : list Arg) : Router * option Exn :=
  match middlewares with
  | [] => (self, None)
  | fn :: rest =>
      match fn with
      | VFun callee =>
          if inherited_key name
          then (self, Some (TypeError "this.params[name].push is not a function"))
          else
            Router_param
              {| router_params :=
                   <[name := default [] (router_params self !! name) ++ [callee]]>
                     (router_params self);
                 router_caseSensitive := router_caseSensitive self;
                 router_mergeParams := router_mergeParams self;
                 router_strict := router_strict self;
                 router_prefix := router_prefix self;
                 router_stack := router_stack self |}
              name shown rest
      | _ =>
          (self, Some (Error ("invalid param() call for " +:+ shown +:+ ", got "
                              +:+ inspect fn)))
      end
  end.

(** *** The dispatch machine *)

Record Machine := mkMachine {
  m_ctx : Ctx;
  m_frames : list Frame;
  m_call : Call;
  m_trace : list Event
}.

Definition frame_memo (f : RouterFrame) (called : Memo) : RouterFrame :=
  {| hf_env := hf_env f; hf_idx := hf_idx f; hf_removed := hf_removed f;
     hf_slashAdded := hf_slashAdded f; hf_paramcalled := called;
     hf_options := hf_options f |}.

Definition pval_value (v : pval) : value :=
  match v with PUndef => VUndefined | PStr s => VStr s end.

Definition key_value (k : PKey) : value :=
  match k with Idx n => VNum (Z.of_nat n) | Name s => VStr s end.

(** One call of the engine, or of a handler that ends in [next]. *)
Definition step (m : Machine) : Machine :=
  let ctx := m_ctx m in
  let frames := m_frames m in
  let trace := m_trace m in
  let stuck := mkMachine ctx frames CStuck trace in
  let after_user (f : UserFn) (extra : list value) (e : Event) :=
    let '(ctx', act) := uf_call f ctx extra in
    mkMachine ctx' frames
      (match act with Stop => CStopped | CallNext s => CNext s end)
      (trace ++ [e]) in
  match m_call m with
  | CNext signal =>
      match frames with
      | [] => mkMachine ctx frames (CFinished signal) trace
      | FRouter _ :: _ => mkMachine ctx frames (CRouterNext signal) trace
      | FRoute _ :: _ => mkMachine ctx frames (CRouteNext signal) trace
      | FParam _ :: _ => mkMachine ctx frames (CParamCallback signal) trace
      end
  | CInvoke (User f) =>
      after_user f [] (EHandler (uf_name f) (ctx_url ctx) (ctx_baseUrl ctx))
  | CInvokeParam (User f) paramVal name =>
      after_user f [pval_value paramVal; key_value name]
        (EParam (uf_name f) paramVal name)
  | CInvoke (RouterFn rt) | CInvokeParam (RouterFn rt) _ _ =>
      mkMachine ctx frames (CHandle rt) trace
  | CInvoke (DispatchFn r) | CInvokeParam (DispatchFn r) _ _ =>
      mkMachine ctx frames (CDispatch r) trace
  | CDispatch r =>
      match Route_dispatch r ctx with
      | None => mkMachine ctx frames (CNext None) trace
      | Some f => mkMachine ctx (FRoute f :: frames) (CRouteNext None) trace
      end
  | CRouteNext signal =>
      match frames with
      | FRoute f :: rest =>
          let '(f', log, call) := routeNext f ctx signal in
          match call with
          | RNext s => mkMachine ctx rest (CNext s) (trace ++ log)
          | RRouteNext =>
              mkMachine ctx (FRoute f' :: rest) (CRouteNext None) (trace ++ log)
          | RHandle layer =>
              mkMachine ctx (FRoute f' :: rest) (handle_request_call layer)
                (trace ++ log)
          | RThrow e => mkMachine ctx (FRoute f' :: rest) (CThrown e) (trace ++ log)
          end
      | _ => stuck
      end
  | CHandle rt =>
      let '(f, ctx') := Router_handle rt ctx (length frames) in
      mkMachine ctx' (FRouter f :: frames) (CRouterNext None) trace
  | CRouterNext signal =>
      match frames with
      | FRouter f :: rest =>
          let '(f', ctx', log, call) := router_next f ctx signal in
          mkMachine ctx' (FRouter f' :: rest) call (trace ++ log)
      | _ => stuck
      end
  | CDone =>
      match frames with
      | FRouter f :: rest => mkMachine (done f ctx) rest (CNext None) trace
      | _ => stuck
      end
  | CProcessParams layer layerPath path =>
      match frames with
      | FRouter f :: _ =>
          match process_params (he_self (hf_env f)) layer layerPath path with
          | None =>
              mkMachine ctx frames (params_done layer layerPath path None) trace
          | Some pf => mkMachine ctx (FParam pf :: frames) (CParam None) trace
          end
      | _ => stuck
      end
  | CParamsDone layer layerPath path paramSignal =>
      mkMachine ctx frames (params_done layer layerPath path paramSignal) trace
  | CParam signal =>
      match frames with
      | FParam pf :: FRouter f :: rest =>
          let '(pf', called, ctx', call) := param pf (hf_paramcalled f) ctx signal in
          let below := FRouter (frame_memo f called) :: rest in
          match call with
          | PNext s =>
              mkMachine ctx' below
                (CParamsDone (pf_layer pf) (pf_layerPath pf) (pf_path pf) s) trace
          | PParam s => mkMachine ctx' (FParam pf' :: below) (CParam s) trace
          | PParamCallback =>
              mkMachine ctx' (FParam pf' :: below) (CParamCallback None) trace
          | PMiddleware fn v name =>
              mkMachine ctx' (FParam pf' :: below) (CInvokeParam fn v name) trace
          | PThrow e => mkMachine ctx' (FParam pf' :: below) (CThrown e) trace
          end
      | _ => stuck
      end
  | CParamCallback signal =>
      match frames with
      | FParam pf :: FRouter f :: rest =>
          let '(pf', called, call) := paramCallback pf (hf_paramcalled f) ctx signal in
          let frames' := FParam pf' :: FRouter (frame_memo f called) :: rest in
          match call with
          | PParam s => mkMachine ctx frames' (CParam s) trace
          | PMiddleware fn v name =>
              mkMachine ctx frames' (CInvokeParam fn v name) trace
          | PThrow e => mkMachine ctx frames' (CThrown e) trace
          | PNext _ | PParamCallback => stuck
          end
      | _ => stuck
      end
  | CTrimPrefix layer layerPath path =>
      match frames with
      | FRouter f :: rest =>
          let '(f', ctx', call) := trim_prefix f ctx layer layerPath path in
          mkMachine ctx' (FRouter f' :: rest) call trace
      | _ => stuck
      end
  | CFinished _ | CStopped | CThrown _ | CStuck => m
  end.

(** [n] calls in a row. *)
Fixpoint run (n : nat) (m : Machine) : Machine :=
  match n with
  | 0 => m
  | S n' => run n' (step m)
  end.

(** The host calls [router.handle(ctx, next)]. *)
Definition start (self : Router) (ctx : Ctx) : Machine :=
  mkMachine ctx [] (CHandle self) [].

(** The host calls [route.dispatch(ctx, next)]. *)
Definition start_route (r : Route) (ctx : Ctx) : Machine :=
  mkMachine ctx [] (CDispatch r) [].

End Engine.

(** ** A small host, to run the engine on concrete requests

    Stand-ins for the libraries behind [HostEnv], enough for ASCII paths
    made of literal and [:name] segments. *)
Module SmallHost.

(** The segments of a path: ["/a/b"] is [["a"; "b"]]. *)
Fixpoint segments_aux (s : string) (cur : string) : list string :=
  match s with
  | EmptyString => [cur]
  | String c r =>
      if Ascii.eqb c "/" then cur :: segments_aux r EmptyString
      else segments_aux r (cur +:+ String c EmptyString)
  end.

Definition segments (s : string) : list string :=
  filter (fun seg => seg ≠ EmptyString) (segments_aux s EmptyString).

(** Pattern segments against the first path segments: the segments taken
    and the captures, in order. *)
Fixpoint match_segments (pattern path : list string)
  : option (list string * list (option string)) :=
  match pattern, path with
  | [], _ => Some ([], [])
  | _ :: _, [] => None
  | p :: pattern', s :: path' =>
      '(taken, caps) ← match_segments pattern' path';
      match p with
      | String ":" _ => Some (s :: taken, Some s :: caps)
      | _ => if String.eqb p s then Some (s :: taken, caps) else None
      end
  end.

Definition keys_of (pattern : list string) : list Key :=
  omap (fun p => match p with
                 | String ":" name => Some (mkKey (Name name))
                 | _ => None
                 end) pattern.

Definition prefix_of (taken : list string) : string :=
  foldr (fun seg acc => "/" +:+ seg +:+ acc) EmptyString taken.

(** A string pattern matches whole segments, all of them when [end] is
    not [false]; a regular expression [^literal] matches that prefix. *)
Definition small_pathRegexp (path : Arg) (opts : RegexpOpts) : Matcher * list Key :=
  match path with
  | VStr pattern =>
      let pat := segments pattern in
      (fun p =>
         let segs := segments p in
         '(taken, caps) ← match_segments pat segs;
         if bool_decide (opt_end opts = Some false)
            || (length taken =? length segs)%nat
         then Some (prefix_of taken, caps)
         else None,
       keys_of pat)
  | VRegExp (String "^" literal) =>
      (fun p => if String.prefix literal p then Some (literal, []) else None, [])
  | _ => (fun _ => None, [])
  end.

Definition hex_digit (c : ascii) : option nat :=
  let n := nat_of_ascii c in
  if (48 <=? n)%nat && (n <=? 57)%nat then Some (n - 48)
  else if (65 <=? n)%nat && (n <=? 70)%nat then Some (n - 55)
  else if (97 <=? n)%nat && (n <=? 102)%nat then Some (n - 87)
  else None.

(** Escapes below [%80]; anything else after a [%] is malformed. *)
Fixpoint small_decode (s : string) : option string :=
  match s with
  | EmptyString => Some EmptyString
  | String "%" (String a (String b r)) =>
      hi ← hex_digit a; lo ← hex_digit b;
      if (hi <? 8)%nat
      then String (ascii_of_nat (16 * hi + lo)) <$> small_decode r
      else None
  | String "%" _ => None
  | String c r => String c <$> small_decode r
  end.

Definition small_JSON_parse (v : value) : option value :=
  match v with
  | VStr "true" => Some (VBool true)
  | VStr "false" => Some (VBool false)
  | VStr "null" => Some VNull
  | VStr "1" => Some (VNum 1)
  | _ => None
  end.

Definition small_inspect (v : Arg) : string :=
  match v with
  | VUndefined => "undefined"
  | VNull => "null"
  | VBool true => "true"
  | VBool false => "false"
  | VNum n => pretty n
  | VStr s => "'" +:+ s +:+ "'"
  | VRegExp src => "/" +:+ src +:+ "/"
  | VArr _ => "[Array]"
  | VObj _ => "{}"
  | VFun f => "[Function: " +:+ fn_name f +:+ "]"
  end.

(** [parseurl(req).pathname]: what stands between the host and the query
    string; ["/"] when a host is followed by no path, and none at all for
    a URL that has neither, such as the blank URL. *)
Definition small_pathname (url : string) : option string :=
  let protohost := or_empty (getProtohost url) in
  let rest := substr_from (String.length protohost) url in
  let pathname :=
    String.substring 0 (default (String.length rest) (String.index 0 "?" rest)) rest in
  if String.eqb pathname EmptyString
  then if String.eqb protohost EmptyString then None else Some "/"
  else Some pathname.

#[local] Instance host : HostEnv := {|
  decodeURIComponent := small_decode;
  JSON_parse := small_JSON_parse;
  regexp_test src actual :=
    match actual with
    | VStr s => bool_decide (is_Some (String.index 0 src s))
    | _ => false
    end;
  inspect := small_inspect;
  parseUrl_pathname := small_pathname;
  pathRegexp := small_pathRegexp
|}.

(** [(ctx, next) => next(signal)] *)
Definition calls_next (name : string) (signal : option string) : UserFn :=
  {| uf_name := name; uf_length := 2;
     uf_call ctx _ := (ctx, CallNext signal);
     uf_test _ := true |}.

(** [(ctx) => { ctx.body = ... }], which ends the request *)
Definition responds (name : string) : UserFn :=
  {| uf_name := name; uf_length := 1;
     uf_call ctx _ := (ctx, Stop);
     uf_test _ := true |}.

Definition request (method url : string) : Ctx :=
  {| ctx_method := method; ctx_url := url; ctx_query := Some [];
     ctx_params := None; ctx_baseUrl := None; ctx_originalUrl := None;
     ctx_route := None; ctx_next := KUndefined; ctx_allow := None;
     ctx_body := None |}.

Definition no_options := mkRouterOptions None None None None.

Definition handler (name : string) : Arg := VFun (User (calls_next name None)).

(** [route.post(h).get(h)] *)
Definition post_then_get : Route :=
  (Route_get (Route_post (Route_new (VStr "/")) [handler "h"]).1 [handler "h"]).1.

(** [router.get('/', h)] *)
Definition get_root : Router :=
  (Router_method (Router_new no_options) "get" (VStr "/")
     [VFun (User (responds "h"))]).1.

(** [router.param('user', loadUser)], then three mounts that capture
    [user] from the first, second and third segment. *)
Definition aba_router : Router :=
  let r := Router_new no_options in
  let r := (Router_param r (Name "user") "user" [handler "loadUser"]).1 in
  let r := (Router_use r [VStr "/:user"; handler "first"]).1 in
  let r := (Router_use r [VStr "/a/:user"; handler "second"]).1 in
  (Router_use r [VStr "/a/b/:user"; handler "third"]).1.

(** [router.use(/^\/foo/, inFoo)], then [router.use(fallback)] *)
Definition foo_router : Router :=
  let r := Router_new no_options in
  let r := (Router_use r [VRegExp "^/foo"; handler "inFoo"]).1 in
  (Router_use r [handler "fallback"]).1.

(** [router.get('/', first, second)], then [router.get('/', third)], where
    [first] is [(ctx, next) => next(signal)] *)
Definition signalling (signal : string) : Router :=
  let r := Router_new no_options in
  let r := (Router_method r "get" (VStr "/")
              [VFun (User (calls_next "first" (Some signal))); handler "second"]).1 in
  (Router_method r "get" (VStr "/") [handler "third"]).1.



(** [use('/:user', h)] as the layer it pushes *)
Definition user_layer : Layer :=
  Layer_new (VStr "/:user") (mkOpts (Some false) (Some false) (Some false))
    (User (calls_next "h" None)).


Definition gap_parent : Params := {[Idx 0 := PStr "a"; Idx 2 := PStr "b"]}.
Definition one_parent : Params := {[Idx 0 := PStr "a"; Name "id" := PStr "1"]}.
Definition two_child : Params := {[Idx 0 := PStr "x"; Idx 1 := PStr "y"]}.
Definition named_child : Params := {[Name "id" := PStr "2"]}.

(** [process_params] on [user_layer] with [user] captured as ["a"], after
    the memo recorded ["b"] for [user]. *)
Definition user_frame : ParamFrame :=
  {| pf_params := router_params aba_router;
     pf_keys := [mkKey (Name "user")];
     pf_i := 0; pf_paramIndex := 0; pf_key := None; pf_paramVal := PUndef;
     pf_paramCallbacks := None; pf_paramCalled := None;
     pf_layer := user_layer; pf_layerPath := "/a"; pf_path := "/a/b/a" |}.

Definition memo_b : Memo :=
  {| memo_heap := [{| memo_signal := None; memo_match := PStr "b";
                      memo_value := PStr "b" |}];
     memo_called := {[Name "user" := 0]} |}.

Definition ctx_a : Ctx :=
  ctx_set_params (request "GET" "/a/b/a") (Some {[Name "user" := PStr "a"]}).

(** A request as a parent Router hands it down: with a base URL, with
    parameters and with a continuation in [ctx.next]. *)
Definition mounted_request : Ctx :=
  {| ctx_method := "GET"; ctx_url := "/a/b/a"; ctx_query := Some [];
     ctx_params := Some {[Name "version" := PStr "1"]};
     ctx_baseUrl := Some "/api"; ctx_originalUrl := Some "/api/a/b/a";
     ctx_route := None; ctx_next := KHost 7; ctx_allow := None;
     ctx_body := None |}.

End SmallHost.

(** ** Vocabulary of the statements *)

(** A list of verbs in ascending order, as [Array.prototype.sort] leaves
    one. *)
Fixpoint sorted_strings (l : list string) : bool :=
  match l with
  | a :: (b :: _) as rest => String.leb a b && sorted_strings rest
  | _ => true
  end.

(** The keys the verb methods of [Route] write into [methods]. *)
Definition verb_keys : list string :=
  ["_all"; "get"; "post"; "delete"; "put"; "patch"; "head"; "options"].

(** [child] over [parent], key by key. *)
Definition prefer (child parent : option pval) : option pval :=
  match child with Some v => Some v | None => parent end.

(** The positional captures of [m] are exactly the indices below [n]. *)
Definition positional (m : Params) (n : nat) : Prop :=
  ∀ k, is_Some (m !! Idx k) ↔ k < n.

(** The frame of a Router whose scan has visited every layer. *)
Definition exhausted (f : RouterFrame) : RouterFrame :=
  {| hf_env := hf_env f;
     hf_idx := length (router_stack (he_self (hf_env f)));
     hf_removed := hf_removed f; hf_slashAdded := hf_slashAdded f;
     hf_paramcalled := hf_paramcalled f; hf_options := hf_options f |}.

(** The frame as [router_next] leaves it. *)
Definition reset (f : RouterFrame) (idx : nat) (options : list string)
  : RouterFrame :=
  {| hf_env := hf_env f; hf_idx := idx; hf_removed := EmptyString;
     hf_slashAdded := false; hf_paramcalled := hf_paramcalled f;
     hf_options := options |}.


(** [propsToRestore], read off a context. *)
Definition vals_of (ctx : Ctx) : option string * option Params * Cont :=
  (ctx_baseUrl ctx, ctx_params ctx, ctx_next ctx).

(** The host's continuation has not been called. *)
Definition running (call : Call) : Prop :=
  match call with CFinished _ => False | _ => True end.

(** The outermost frame belongs to a [handle] call that saved [vals]. *)
Definition bottom (vals : option string * option Params * Cont)
    (frames : list Frame) : Prop :=
  ∃ f, last frames = Some (FRouter f) ∧ he_vals (hf_env f) = vals.

(** The outermost [handle] call saved [vals]: its frame stays at the
    bottom until [done] pops it, and the context then holds [vals]. *)
Definition saved (vals : option string * option Params * Cont) (m : Machine)
  : Prop :=
  match m_frames m with
  | [] =>
      match m_call m with
      | CHandle _ | CNext _ | CFinished _ => vals_of (m_ctx m) = vals
      | CStopped | CThrown _ | CStuck => True
      | _ => False
      end
  | _ :: _ => running (m_call m) ∧ bottom vals (m_frames m)
  end.

(** The memo record [called[name]] refers to. *)
Definition recalled (called : Memo) (name : PKey) : option MemoRec :=
  memo_called called !! name ≫= (fun ref => memo_heap called !! ref).

(** The prefix of [path] a layer matches, whatever its query condition. *)
Definition matched_prefix {R} (l : Layer_ Callee R) (path : option string)
  : option string :=
  p ← path;
  if layer_fast_slash l then Some EmptyString
  else if layer_fast_star l then Some p
  else fst <$> layer_regexp l p.

Section Vocabulary.
Context `{HostEnv}.

(** A Route as [new Route] and the verb methods build it. *)
Inductive RouteBuilt : Route → Prop :=
| built_new path : RouteBuilt (Route_new path)
| built_method r methodName middlewares :
    RouteBuilt r → methodName ∈ verb_keys →
    RouteBuilt (Route_method r methodName middlewares).1.

(** A registration call that adds at least one handler. *)
Definition registers (middlewares : list Arg) : bool :=
  match (shift_query middlewares).2 with
  | VFun _ :: _ => true
  | _ => false
  end.


End Vocabulary.

(** ** The rest of the engine's interface, and the words of further
    statements *)

Section Interface.
Context `{HostEnv}.

(** [get query()] *)
Definition Layer_query {R} (l : Layer_ Callee R) : option Arg := layer__query l.

(** [router.all(path, ...middlewares)] *)
Definition Router_all (self : Router) (path : Arg) (middlewares : list Arg)
  : Router * option Exn :=
  Router_method self "all" path middlewares.

(** The layer [Route.method] pushes for one handler. *)
Definition method_layer (methodName : string) (query : Arg) (fn : Callee)
  : RouteLayer :=
  Layer_set_query
    (set_method (Layer_new (VStr "/") (mkOpts None None None) fn)
       (if String.eqb methodName "_all" then None else Some methodName))
    query.

(** The layer [Router.use] pushes for one middleware mounted at
    [prefixedPath]. *)
Definition use_layer (self : Router) (prefixedPath query : Arg) (fn : Callee)
  : Layer :=
  Layer_set_query
    (set_route
       (Layer_new prefixedPath
          (mkOpts (Some (router_caseSensitive self)) (Some false) (Some false)) fn)
       None)
    query.

(** One declared key of a query object, checked against the request. *)
Definition key_passes (actualQuery : list (string * value))
    (declared : string * Arg) : bool :=
  (run_checker (checker_for declared.2) declared.2
     (default VUndefined (assoc declared.1 actualQuery))).2.

End Interface.

(** A handler that always ends in [return next()]. *)
Definition always_next (f : UserFn) : Prop :=
  ∀ ctx extra, (uf_call f ctx extra).2 = CallNext None.

(** A handler that leaves [ctx.url] as it found it. *)
Definition keeps_url (f : UserFn) : Prop :=
  ∀ ctx extra, ctx_url (uf_call f ctx extra).1 = ctx_url ctx.

(** A handler that leaves an object in [ctx.params] when it finds one. *)
Definition keeps_params (f : UserFn) : Prop :=
  ∀ ctx extra,
    is_Some (ctx_params ctx) → is_Some (ctx_params (uf_call f ctx extra).1).

(** The handlers a trace reports, by name. *)
Definition handler_names (trace : list Event) : list string :=
  omap (fun e => match e with EHandler fn _ _ => Some fn | _ => None end) trace.

(** Handlers that end in [next()], called one after the other with no
    extra argument: the context they leave and the calls reported. *)
Fixpoint thread_handlers (fns : list UserFn) (ctx : Ctx) : Ctx * list Event :=
  match fns with
  | [] => (ctx, [])
  | f :: rest =>
      let '(ctx', log) := thread_handlers rest (uf_call f ctx []).1 in
      (ctx', EHandler (uf_name f) (ctx_url ctx) (ctx_baseUrl ctx) :: log)
  end.

(** [removed[removed.length - 1] === '/' ? removed.substring(0, removed.length - 1) : removed] *)
Definition without_trailing_slash (s : string) : string :=
  if bool_decide (last_char s = Some "/"%char)
  then String.substring 0 (String.length s - 1) s
  else s.

(** A layer of a Route that [routeNext] passes over for [method] and
    [ctx]: its verb is another one, or its query condition fails. *)
Definition passed_over `{HostEnv} (ctx : Ctx) (method : string)
    (layer : RouteLayer) : Prop :=
  other_method layer method = true
  ∨ (queryMatch layer (ctx_query ctx)).2 = Ret false.

(** The calls into query predicates [routeNext] makes on [layers]: those
    of the query condition of each layer whose verb fits. *)
Definition predicate_calls `{HostEnv} (ctx : Ctx) (method : string)
    (layers : list RouteLayer) : list Event :=
  flat_map (fun layer =>
              if other_method layer method then []
              else (queryMatch layer (ctx_query ctx)).1) layers.

(** The path [use] mounts [fn] at when it is given the string [path]:
    [path] itself, or [path] joined with [fn.router.prefix]. *)
Definition mount_path (path : string) (fn : Callee) : Arg :=
  match mounted_prefix fn with
  | None => VStr path
  | Some prefix =>
      VStr ((if bool_decide (last_char path = Some "/"%char)
                && bool_decide (String.get 0 prefix = Some "/"%char)
             then String.substring 0 (String.length path - 1) path
             else path) +:+ prefix)
  end.

(** A layer of a Route that [routeNext] enters for [method], with the
    handler [f] it invokes. *)
Definition entered (method : string) (layer : RouteLayer) (f : UserFn) : Prop :=
  layer_handle layer = User f
  ∧ other_method layer method = false
  ∧ layer__query layer = None
  ∧ uf_length f ≤ 3.


(** A layer as [use(f)] pushes it for a function of the application
    mounted at ["/"], with no query condition. *)
Definition mounted_at_root (layer : Layer) (f : UserFn) : Prop :=
  layer_fast_slash layer = true
  ∧ layer_route layer = None
  ∧ layer__query layer = None
  ∧ layer_keys layer = []
  ∧ layer_handle layer = User f
  ∧ uf_length f ≤ 3.

(** ** More requests and tables for the small host *)
Module Samples.
Import SmallHost.
#[local] Existing Instance host.

(** A predicate that rejects every value. *)
Definition rejects (name : string) : UserFn :=
  {| uf_name := name; uf_length := 1;
     uf_call ctx _ := (ctx, Stop);
     uf_test _ := false |}.

(** [route.get({ n: odd }, h)], where [odd] answers [false] *)
Definition odd_only : Route :=
  (Route_get (Route_new (VStr "/"))
     [VObj [("n", VFun (User (rejects "odd")))]; handler "h"]).1.

(** [route.get(a, b)] *)
Definition get_twice : Route :=
  (Route_get (Route_new (VStr "/")) [handler "a"; handler "b"]).1.

(** The variables of [routeNext] when [dispatch] starts a walk. *)
Definition walk (r : Route) (method : string) : RouteFrame :=
  {| rf_stack := route_stack r; rf_method := method; rf_idx := 0 |}.

(** [router.use(a, b)] *)
Definition use_twice : Router :=
  (Router_use (Router_new no_options) [handler "a"; handler "b"]).1.

(** [new Router({ prefix: '/api' })] *)
Definition api_router : Router :=
  Router_new (mkRouterOptions None None None (Some "/api")).


(** A child Router with [param('user', loadUser)] and
    [use('/:user', inner)] ... *)
Definition child_router : Router :=
  let r := Router_new no_options in
  let r := (Router_param r (Name "user") "user" [handler "loadUser"]).1 in
  (Router_use r [VStr "/:user"; handler "inner"]).1.

(** ... mounted twice: [parent.use(child.routes(), child.routes())]. *)
Definition twice_mounted : Router :=
  let child := VFun (routes Router_defaultOptions child_router true) in
  (Router_use (Router_new no_options) [child; child]).1.

(** [handle] entered for [GET /foo/bar] on [foo_router]. *)
Definition foo_frame : RouterFrame :=
  (Router_handle foo_router (request "GET" "/foo/bar") 0).1.

Definition foo_ctx : Ctx :=
  (Router_handle foo_router (request "GET" "/foo/bar") 0).2.

End Samples.

Ltac eqb_cases :=
  repeat match goal with
         | |- context [String.eqb ?a ?b] =>
             destruct (String.eqb_spec a b); subst; simpl
         end.


#[local] Arguments decode_param : simpl never.

(** * Route: verbs and registration *)

Section RouteProofs.
Context `{HostEnv}.

Lemma assoc_set_keys {A} key (v : A) props :
  (assoc_set key v props).*1
  = if bool_decide (key ∈ props.*1) then props.*1 else props.*1 ++ [key].
Proof.
  induction props as [|[k w] r IH]; csimpl; [done|].
  destruct (String.eqb_spec k key) as [->|Hne]; csimpl.
  - rewrite bool_decide_eq_true_2; [done|set_solver].
  - rewrite IH. destruct (decide (key ∈ r.*1)).
    + rewrite !bool_decide_eq_true_2; [done|set_solver|done].
    + rewrite !bool_decide_eq_false_2; [done|set_solver|done].
Qed.

Lemma assoc_set_assoc {A} key (v : A) props k :
  assoc k (assoc_set key v props)
  = if bool_decide (key = k) then Some v else assoc k props.
Proof.
  induction props as [|[k' w] r IH]; simpl.
  - case_bool_decide; eqb_cases; congruence.
  - destruct (String.eqb_spec k' key); subst; simpl.
    + case_bool_decide; eqb_cases; congruence.
    + rewrite IH. case_bool_decide; eqb_cases; congruence.
Qed.

Lemma assoc_set_idem {A} key (v : A) props :
  assoc_set key v (assoc_set key v props) = assoc_set key v props.
Proof.
  induction props as [|[k w] r IH]; simpl.
  - by rewrite String.eqb_refl.
  - destruct (String.eqb k key) eqn:E; simpl; rewrite E; [done|by rewrite IH].
Qed.

Lemma assoc_elem_of {A} k (props : list (string * A)) :
  k ∈ props.*1 ↔ is_Some (assoc k props).
Proof.
  induction props as [|[k' w] r IH]; csimpl.
  - split; [set_solver|by intros []].
  - destruct (String.eqb_spec k' k) as [->|Hne]; [set_solver by eauto|].
    rewrite <- IH. set_solver.
Qed.

Lemma Route_method_loop_methods r methodName query middlewares :
  route_methods (Route_method_loop r methodName query middlewares).1
  = match middlewares with
    | VFun _ :: _ => assoc_set methodName true (route_methods r)
    | _ => route_methods r
    end.
Proof.
  revert r. induction middlewares as [|handle rest IH]; intros r; [done|].
  destruct handle; try done. simpl. rewrite IH. simpl.
  destruct rest as [|[] ?]; try done. apply assoc_set_idem.
Qed.

Lemma Route_method_methods r methodName middlewares :
  route_methods (Route_method r methodName middlewares).1
  = if registers middlewares then assoc_set methodName true (route_methods r)
    else route_methods r.
Proof.
  unfold Route_method, registers. destruct (shift_query middlewares) as [query mws].
  rewrite Route_method_loop_methods. simpl. by destruct mws as [|[] ?].
Qed.

(** What the verb methods keep true of [methods]: no key twice, every key
    one of theirs, every flag [true]. *)
Lemma RouteBuilt_methods r :
  RouteBuilt r →
  NoDup (route_methods r).*1
  ∧ (∀ k, k ∈ (route_methods r).*1 → k ∈ verb_keys)
  ∧ (∀ k, k ∈ (route_methods r).*1 → methods_get r k = true).
Proof.
  induction 1 as [path|r methodName middlewares _ (Hnd & Hverbs & Htrue) Hin].
  - split_and!; [constructor|set_solver..].
  - unfold methods_get. rewrite Route_method_methods.
    destruct (registers middlewares); [|done].
    rewrite assoc_set_keys. split_and!.
    + case_bool_decide; [done|].
      apply NoDup_app; split_and!; [done|set_solver|apply NoDup_singleton].
    + intros k. case_bool_decide; set_solver.
    + intros k Hk. rewrite assoc_set_assoc.
      destruct (decide (methodName = k)) as [->|Hne].
      * by rewrite bool_decide_eq_true_2.
      * rewrite bool_decide_eq_false_2 by done.
        apply Htrue. case_bool_decide; set_solver.
Qed.

Lemma toUpperCase_verb_inj x y :
  x ∈ "head" :: verb_keys → y ∈ "head" :: verb_keys →
  toUpperCase x = toUpperCase y → x = y.
Proof.
  unfold verb_keys. rewrite !elem_of_cons, !elem_of_nil.
  intros Hx Hy; destruct_or!; subst; (done || by vm_compute).
Qed.

(** C7 (as amended). For every Route built by its verb methods,
    [_options()] returns the keys of [methods] in the order they were
    first registered -- it does not sort them --, in upper case and without
    duplicates, and appends ["HEAD"] last when [get] is declared and
    [head] is not.  A registration call adds its key at the end when it
    registers a handler under a key not yet present, and changes nothing
    otherwise. *)
Theorem C7_options_in_registration_order (r : Route) :
  RouteBuilt r →
  _options r
  = (toUpperCase <$> (route_methods r).*1)
    ++ (if methods_get r "get" && negb (methods_get r "head")
        then ["HEAD"] else [])
  ∧ NoDup (_options r)
  ∧ (∀ k, methods_get r k = true → toUpperCase k ∈ _options r)
  ∧ (∀ methodName middlewares,
       (route_methods (Route_method r methodName middlewares).1).*1
       = if registers middlewares
            && negb (bool_decide (methodName ∈ (route_methods r).*1))
         then (route_methods r).*1 ++ [methodName]
         else (route_methods r).*1).
Proof.
  intros Hr. destruct (RouteBuilt_methods r Hr) as (Hnd & Hverbs & Htrue).
  assert (Hopt : _options r
    = toUpperCase <$> ((route_methods r).*1
        ++ (if methods_get r "get" && negb (methods_get r "head")
            then ["head"] else []))).
  { unfold _options. by destruct (_ && _); [|rewrite app_nil_r]. }
  split_and!.
  - rewrite Hopt, fmap_app. by destruct (_ && _).
  - rewrite Hopt. apply NoDup_fmap_2_strong.
    + intros x y Hx Hy. apply toUpperCase_verb_inj.
      * apply elem_of_app in Hx as [Hx|Hx]; [set_solver|].
        destruct (_ && _); set_solver.
      * apply elem_of_app in Hy as [Hy|Hy]; [set_solver|].
        destruct (_ && _); set_solver.
    + destruct (methods_get r "get" && negb (methods_get r "head")) eqn:Hhead;
        [|by rewrite app_nil_r].
      apply NoDup_app; split_and!; [done| |apply NoDup_singleton].
      intros k Hk ->%list_elem_of_singleton. apply Htrue in Hk.
      rewrite Hk in Hhead. by rewrite andb_false_r in Hhead.
  - intros k Hk. rewrite Hopt. apply list_elem_of_fmap_2, elem_of_app. left.
    apply assoc_elem_of. unfold methods_get in Hk.
    by destruct (assoc k (route_methods r)).
  - intros methodName middlewares. rewrite Route_method_methods.
    destruct (registers middlewares); [|done].
    rewrite assoc_set_keys. by case_bool_decide.
Qed.





End RouteProofs.

(** C7 as the spec words it fails: [route.post(h).get(h)] answers
    [POST, GET, HEAD], which is not sorted. *)
Lemma C7_counterexample :
  _options SmallHost.post_then_get = ["POST"; "GET"; "HEAD"]
  ∧ sorted_strings (_options SmallHost.post_then_get) = false.
Proof. split; reflexivity. Qed.

Lemma C7_witness :
  _options SmallHost.post_then_get = ["POST"; "GET"; "HEAD"]
  ∧ NoDup (_options SmallHost.post_then_get)
  ∧ toUpperCase "post" ∈ _options SmallHost.post_then_get.
Proof.
  assert (Hbuilt : RouteBuilt (H := SmallHost.host) SmallHost.post_then_get).
  { apply built_method; [apply built_method; [apply built_new|]|];
      unfold verb_keys;
      repeat first [apply list_elem_of_here | apply list_elem_of_further]. }
  destruct (C7_options_in_registration_order (H := SmallHost.host) _ Hbuilt)
    as (Heq & Hnd & Hin & _).
  split_and!; [reflexivity|exact Hnd|exact (Hin "post" eq_refl)].
Defined.



(** * Layer: matching *)

Section LayerProofs.
Context `{HostEnv}.










(** C10. [match] evaluates the query condition first and whatever the
    path: the calls it makes into query predicates are those of
    [queryMatch] alone, for every path and every outcome; when the query
    condition throws, the path is not looked at and the scratch is left
    as it was; it returns [true] only if the query condition holds and
    the path matches.  In particular a layer whose query declares one
    predicate function calls it, on the actual value of its key, on
    every [match], path matching or not. *)
Theorem C10_query_condition_evaluated_first {R} (l : Layer_ Callee R) path query :
  (Layer_match l path query).1.2 = (queryMatch l query).1
  ∧ match (queryMatch l query).2 with
    | Throw e => Layer_match l path query = (l, (queryMatch l query).1, Throw e)
    | Ret _ => True
    end
  ∧ match (Layer_match l path query).2 with
    | Ret true =>
        (queryMatch l query).2 = Ret true ∧ is_Some (matched_prefix l path)
    | _ => True
    end
  ∧ ∀ key f q,
      (Layer_match (Layer_set_query l (VObj [(key, VFun (User f))])) path (Some q)).1.2
      = [EPredicate (uf_name f) (default VUndefined (assoc key q))].
Proof.
  assert (Hlog : ∀ (l0 : Layer_ Callee R) q0,
             (Layer_match l0 path q0).1.2 = (queryMatch l0 q0).1).
  { intros l0 q0. unfold Layer_match.
    destruct (queryMatch l0 q0) as [log [qm|e]]; [|done].
    destruct path as [p|]; [|done].
    destruct (layer_fast_slash l0); [done|].
    destruct (layer_fast_star l0); [by destruct (decode_param (Some p))|].
    destruct (layer_regexp l0 p) as [[whole groups]|]; [|done].
    by destruct (store_captures groups (layer_keys l0) ∅) as [params [[]|e]]. }
  split_and!.
  - apply Hlog.
  - unfold Layer_match. by destruct (queryMatch l query) as [log [qm|e]].
  - unfold Layer_match, matched_prefix.
    destruct (queryMatch l query) as [log [qm|e]]; [|done].
    destruct path as [p|]; [|done]. simpl.
    destruct (layer_fast_slash l); [by destruct qm; simpl; eauto|].
    destruct (layer_fast_star l).
    { destruct (decode_param (Some p)); [|done]. by destruct qm; simpl; eauto. }
    destruct (layer_regexp l p) as [[whole groups]|]; [|done].
    destruct (store_captures groups (layer_keys l) ∅) as [params [[]|e]]; [|done].
    by destruct qm; simpl; eauto.
  - intros key f q. rewrite Hlog.
    unfold queryMatch, Layer_set_query, get_prop. simpl.
    rewrite String.eqb_refl. unfold get_prop. simpl. rewrite String.eqb_refl. simpl.
    by destruct (uf_test f (default VUndefined (assoc key q))).
Qed.

End LayerProofs.



(** * mergeParams *)

Section MergeProofs.

Lemma indices_size (m : Params) n :
  (∀ k, k < n → is_Some (m !! Idx k)) → n ≤ size m.
Proof.
  revert m. induction n as [|n IH]; intros m Hm; [lia|].
  destruct (Hm n) as [v Hv]; [lia|].
  rewrite <- (insert_delete_id m (Idx n) v Hv).
  rewrite map_size_insert_None by apply lookup_delete_eq.
  apply le_n_S, IH. intros k Hk.
  rewrite lookup_delete_ne by (intros [= ->]; lia). apply Hm. lia.
Qed.

Lemma first_gap_spec fuel (m : Params) i n :
  positional m n → i ≤ n → n - i ≤ fuel → first_gap fuel m i = n.
Proof.
  intros Hpos. revert i.
  induction fuel as [|fuel IH]; intros i Hi Hfuel; simpl.
  - lia.
  - case_bool_decide as Hk.
    + apply Hpos in Hk. apply IH; lia.
    + destruct (decide (i = n)) as [|Hne]; [done|].
      exfalso. apply Hk, Hpos. lia.
Qed.



Lemma first_gap_positional (m : Params) n :
  positional m n → first_gap (size m) m 0 = n.
Proof.
  intros Hpos. apply first_gap_spec; [done|lia|].
  pose proof (indices_size m n (fun k Hk => proj2 (Hpos k) Hk)). lia.
Qed.

(** The renumbering loop, key by key: index [j] of the result holds what
    index [j - o] held when [o <= j < o + i], is deleted when [j < i]
    otherwise, and is untouched above. *)
Lemma offset_indices_lookup i o (m : Params) key :
  0 < o →
  offset_indices i o m !! key
  = match key with
    | Idx j =>
        if bool_decide (o ≤ j < o + i) then Some (param_get m (Idx (j - o)))
        else if bool_decide (j < i) then None
        else m !! Idx j
    | Name s => m !! Name s
    end.
Proof.
  intros Ho. revert m. induction i as [|i IH]; intros m; simpl.
  - destruct key as [j|s]; [|done]. repeat case_bool_decide; (done || lia).
  - rewrite IH. clear IH.
    set (m1 := <[Idx (i + o) := param_get m (Idx i)]> m).
    set (m2 := if (i <? o)%nat then delete (Idx i) m1 else m1).
    assert (Hm2 : ∀ k, k ≠ Idx i → k ≠ Idx (i + o) → m2 !! k = m !! k).
    { intros k H1 H2. unfold m2, m1.
      destruct (i <? o)%nat; [rewrite lookup_delete_ne by done|];
        by rewrite lookup_insert_ne. }
    destruct key as [j|s]; [|by apply Hm2].
    destruct (decide (o ≤ j < o + i)) as [Hin|Hout].
    + rewrite !bool_decide_eq_true_2 by lia. f_equal. unfold param_get.
      rewrite Hm2; [done|intros [= ?]; lia..].
    + rewrite (bool_decide_eq_false_2 (o ≤ j < o + i)) by done.
      destruct (decide (j = i + o)) as [->|Hne].
      * rewrite bool_decide_eq_false_2 by lia.
        rewrite bool_decide_eq_true_2 by lia.
        replace (i + o - o) with i by lia. unfold m2, m1.
        destruct (i <? o)%nat;
          [rewrite lookup_delete_ne by (intros [= ?]; lia)|];
          by rewrite lookup_insert_eq.
      * rewrite (bool_decide_eq_false_2 (o ≤ j < o + S i)) by lia.
        destruct (decide (j = i)) as [->|Hne'].
        -- rewrite bool_decide_eq_false_2 by lia.
           rewrite bool_decide_eq_true_2 by lia.
           unfold m2. destruct (i <? o)%nat eqn:Hlt.
           ++ apply lookup_delete_eq.
           ++ apply Nat.ltb_ge in Hlt. lia.
        -- rewrite Hm2 by (intros [= ?]; lia).
           destruct (decide (j < i)).
           ++ by rewrite !bool_decide_eq_true_2 by lia.
           ++ by rewrite !bool_decide_eq_false_2 by lia.
Qed.

Lemma lookup_union_prefer (m1 m2 : Params) key :
  (m1 ∪ m2) !! key = prefer (m1 !! key) (m2 !! key).
Proof. rewrite lookup_union. by destruct (m1 !! key), (m2 !! key). Qed.

(** C5 (as amended). When either side has no capture at index 0 the two
    mappings are merged key by key and the child's value wins.  When both
    have one and the positional captures of each side are its indices
    [0 .. n-1] with no gap, the parent keeps its [o] indices, the child's
    index [k] becomes [o + k] -- in order, after the parent's highest
    index --, named captures are merged with the child's value winning,
    and the result again has no gap. *)
Theorem C5_mergeParams_renumbers (params parent : Params) :
  (params !! Idx 0 = None ∨ parent !! Idx 0 = None →
   ∀ key, mergeParams params (Some parent) !! key
          = prefer (params !! key) (parent !! key))
  ∧ (∀ i o, positional params i → positional parent o → 0 < i → 0 < o →
       let merged := mergeParams params (Some parent) in
       (∀ k, k < o → merged !! Idx k = parent !! Idx k)
       ∧ (∀ k, k < i → merged !! Idx (o + k) = params !! Idx k)
       ∧ (∀ s, merged !! Name s = prefer (params !! Name s) (parent !! Name s))
       ∧ positional merged (o + i)).
Proof.
  split.
  - intros Hzero key. unfold mergeParams.
    assert (negb (bool_decide (is_Some (params !! Idx 0)))
            || negb (bool_decide (is_Some (parent !! Idx 0))) = true) as ->.
    { destruct Hzero as [Hz|Hz]; rewrite Hz;
        rewrite (bool_decide_eq_false_2 (is_Some None)) by (by intros []);
        by rewrite ?orb_true_r. }
    apply lookup_union_prefer.
  - intros i o Hi Ho Hpi Hpo merged.
    assert (Hm : ∀ key, merged !! key
                 = prefer (offset_indices i o params !! key) (parent !! key)).
    { intros key. unfold merged, mergeParams.
      rewrite !bool_decide_eq_true_2 by (by apply Hi || by apply Ho). simpl.
      rewrite (first_gap_positional params i Hi), (first_gap_positional parent o Ho).
      apply lookup_union_prefer. }
    assert (Habove : ∀ m n k, positional m n → n ≤ k → m !! Idx k = None).
    { intros m n k Hm' Hk. apply eq_None_not_Some. rewrite (Hm' k). lia. }
    split_and!.
    + intros k Hk. rewrite Hm, offset_indices_lookup by done.
      rewrite bool_decide_eq_false_2 by lia. case_bool_decide; [done|].
      by rewrite (Habove params i k) by (done || lia).
    + intros k Hk. rewrite Hm, offset_indices_lookup by done.
      rewrite bool_decide_eq_true_2 by lia. replace (o + k - o) with k by lia.
      destruct (proj2 (Hi k) Hk) as [v Hv]. unfold param_get. by rewrite Hv.
    + intros s. by rewrite Hm, offset_indices_lookup.
    + intros j. rewrite Hm, offset_indices_lookup by done.
      destruct (decide (o ≤ j < o + i)).
      * rewrite bool_decide_eq_true_2 by done. simpl. split; [lia|eauto].
      * rewrite bool_decide_eq_false_2 by done.
        destruct (decide (j < o)).
        -- destruct (proj2 (Ho j)) as [v Hv]; [done|]. rewrite Hv.
           split; [lia|]. intros _. case_bool_decide; simpl; [eauto|].
           destruct (params !! Idx j); simpl; eauto.
        -- rewrite bool_decide_eq_false_2 by lia.
           rewrite (Habove params i j), (Habove parent o j) by (done || lia).
           simpl. split; [by intros []|lia].
Qed.

End MergeProofs.

(** C5 as the spec words it fails: a parent with captures at 0 and 2 and
    a child with captures at 0 and 1.  The child's index 0 becomes 1, not
    3, and its index 1 overwrites the parent's capture at 2. *)
Lemma C5_counterexample :
  SmallHost.gap_parent !! Idx 2 = Some (PStr "b")
  ∧ mergeParams SmallHost.two_child (Some SmallHost.gap_parent) !! Idx 1
    = Some (PStr "x")
  ∧ mergeParams SmallHost.two_child (Some SmallHost.gap_parent) !! Idx 2
    = Some (PStr "y")
  ∧ mergeParams SmallHost.two_child (Some SmallHost.gap_parent) !! Idx 3 = None.
Proof. by vm_compute. Qed.

Lemma C5_witness :
  mergeParams SmallHost.two_child (Some SmallHost.one_parent) !! Idx 0
  = Some (PStr "a")
  ∧ mergeParams SmallHost.two_child (Some SmallHost.one_parent) !! Idx 1
    = Some (PStr "x")
  ∧ mergeParams SmallHost.two_child (Some SmallHost.one_parent) !! Idx 2
    = Some (PStr "y")
  ∧ mergeParams SmallHost.two_child (Some SmallHost.one_parent) !! Name "id"
    = Some (PStr "1")
  ∧ mergeParams SmallHost.named_child (Some SmallHost.one_parent) !! Name "id"
    = Some (PStr "2")
  ∧ mergeParams SmallHost.named_child (Some SmallHost.one_parent) !! Idx 0
    = Some (PStr "a").
Proof.
  assert (Hzero : SmallHost.named_child !! Idx 0 = None) by (by vm_compute).
  pose proof (proj1 (C5_mergeParams_renumbers SmallHost.named_child
                       SmallHost.one_parent) (or_introl Hzero)) as Hsimple.
  assert (Hchild : positional SmallHost.two_child 2).
  { intros [|[|k]]; [by vm_compute; split; eauto with lia..|].
    unfold SmallHost.two_child.
    rewrite lookup_insert_ne, lookup_singleton_ne by done.
    split; [by intros []|lia]. }
  assert (Hparent : positional SmallHost.one_parent 1).
  { intros [|k]; [by vm_compute; split; eauto with lia|].
    unfold SmallHost.one_parent.
    rewrite lookup_insert_ne, lookup_singleton_ne by done.
    split; [by intros []|lia]. }
  destruct (proj2 (C5_mergeParams_renumbers SmallHost.two_child SmallHost.one_parent)
              2 1 Hchild Hparent) as (Hp & Hc & Hn & _); [lia..|].
  split_and!.
  - exact (Hp 0 (Nat.lt_0_succ 0)).
  - exact (Hc 0 (Nat.lt_0_succ 1)).
  - exact (Hc 1 (Nat.lt_succ_diag_r 1)).
  - exact (Hn "id").
  - exact (Hsimple (Name "id")).
  - exact (Hsimple (Idx 0)).
Defined.

(** * Dispatch: signals, the end of a scan, prefix trimming *)

Section DispatchProofs.
Context `{HostEnv}.

Lemma router_next_router_signal f ctx :
  router_next f ctx (Some "router")
  = (reset f (hf_idx f) (hf_options f), restore_url f ctx, [], CDone).
Proof.
  unfold router_next.
  rewrite (bool_decide_eq_true_2 (Some "router" = Some "router")) by done.
  by rewrite orb_true_r.
Qed.

Lemma router_next_exhausted f ctx signal :
  length (router_stack (he_self (hf_env f))) ≤ hf_idx f →
  router_next f ctx signal
  = (reset f (hf_idx f) (hf_options f), restore_url f ctx, [], CDone).
Proof.
  intros Hlen. unfold router_next.
  by rewrite (proj2 (Nat.leb_le _ _) Hlen).
Qed.

(** C1. In a Route's walk, a continuation called with no signal moves
    the walk on by one layer: the index grows by one and the layer it
    pointed at is the one invoked, skipped (other verb, failed query
    condition) or, past the last layer, replaced by the Route's own
    continuation.  Called with ["route"] it invokes no layer and calls
    the Route's continuation with no signal.  Called with ["router"] it
    invokes no layer and passes ["router"] to the Route's continuation;
    when that is the [router_next] of a Router, the Router invokes no
    further layer and runs [done()], ending in the very state it reaches
    from a scan that has visited every layer. *)
Theorem C1_continuation_signals (f : RouteFrame) (h : RouterFrame)
    (ctx : Ctx) (frames : list Frame) (trace : list Event) :
  (let '(f', _, call) := routeNext f ctx None in
   rf_idx f' = S (rf_idx f) ∧ rf_stack f' = rf_stack f
   ∧ rf_method f' = rf_method f
   ∧ match rf_stack f !! rf_idx f with
     | None => call = RNext None
     | Some layer =>
         if other_method layer (rf_method f) then call = RRouteNext
         else match (queryMatch layer (ctx_query ctx)).2 with
              | Ret true => call = RHandle layer
              | Ret false => call = RRouteNext
              | Throw e => call = RThrow e
              end
     end)
  ∧ step (mkMachine ctx (FRoute f :: frames) (CRouteNext (Some "route")) trace)
    = mkMachine ctx frames (CNext None) trace
  ∧ step (mkMachine ctx (FRoute f :: frames) (CRouteNext (Some "router")) trace)
    = mkMachine ctx frames (CNext (Some "router")) trace
  ∧ run 4 (mkMachine ctx (FRoute f :: FRouter h :: frames)
             (CRouteNext (Some "router")) trace)
    = mkMachine (done h (restore_url h ctx)) frames (CNext None) trace
  ∧ run 2 (mkMachine ctx (FRouter (exhausted h) :: frames) (CRouterNext None) trace)
    = mkMachine (done h (restore_url h ctx)) frames (CNext None) trace.
Proof.
  split_and!.
  - unfold routeNext. simpl.
    destruct (rf_stack f !! rf_idx f) as [layer|]; [|done].
    destruct (other_method layer (rf_method f)); [done|].
    by destruct (queryMatch layer (ctx_query ctx)) as [log [[]|e]].
  - unfold step, routeNext. simpl. by rewrite app_nil_r.
  - unfold step, routeNext. simpl. by rewrite app_nil_r.
  - unfold run. unfold step at 4. unfold routeNext. simpl.
    unfold step at 3. simpl. unfold step at 2. simpl.
    rewrite router_next_router_signal. unfold step. simpl.
    by rewrite !app_nil_r.
  - unfold run. unfold step at 2. simpl.
    rewrite router_next_exhausted by done. unfold step. simpl.
    by rewrite !app_nil_r.
Qed.



(** C2 (as amended). A scan that finds no matching layer ends in
    [done()].  [done()] restores the saved [baseUrl], [params] and
    [next] and then calls the original continuation, always: when the
    verb is [OPTIONS] and verbs were gathered it first sets the Allow
    header and the body to the gathered verbs joined by commas, and
    calls the continuation all the same. *)
Theorem C2_no_match_restores_then_continues (f : RouterFrame) (ctx : Ctx)
    (signal : option string) (frames : list Frame) (trace : list Event) :
  (∀ path idx options log,
     hf_idx f < length (router_stack (he_self (hf_env f))) →
     signal ≠ Some "router" →
     parseUrl_pathname (ctx_url (restore_url f ctx)) = Some path →
     scan_stack path (restore_url f ctx)
       (drop (hf_idx f) (router_stack (he_self (hf_env f))))
       (hf_idx f) (hf_options f) = (idx, options, log, Ret None) →
     router_next f ctx signal
     = (reset f idx options, restore_url f ctx, log, CDone))
  ∧ step (mkMachine ctx (FRouter f :: frames) CDone trace)
    = mkMachine (done f ctx) frames (CNext None) trace
  ∧ vals_of (done f ctx) = he_vals (hf_env f)
  ∧ (let respond :=
       String.eqb (ctx_method ctx) "OPTIONS" && (0 <? length (hf_options f))%nat in
     ctx_allow (done f ctx)
     = (if respond then Some (join "," (hf_options f)) else ctx_allow ctx)
     ∧ ctx_body (done f ctx)
       = (if respond then Some (join "," (hf_options f)) else ctx_body ctx))
  ∧ step (mkMachine (done f ctx) [] (CNext None) trace)
    = mkMachine (done f ctx) [] (CFinished None) trace.
Proof.
  split_and!; try done.
  - intros path idx options log Hidx Hsig Hpath Hscan. unfold router_next.
    rewrite (proj2 (Nat.leb_gt _ _) Hidx).
    rewrite (bool_decide_eq_false_2 _ Hsig). simpl.
    by rewrite Hpath, Hscan.
  - unfold done, vals_of.
    by destruct (he_vals (hf_env f)) as [[baseUrl params] next].
  - unfold done. destruct (he_vals (hf_env f)) as [[baseUrl params] next].
    by destruct (_ && _).
Qed.

End DispatchProofs.

(** C2 as the spec words it fails: [OPTIONS /] on a Router that only
    declares [get('/')] sets the Allow header and the body, and the
    original continuation is called all the same. *)
Lemma C2_counterexample :
  let m :=
    run (H := SmallHost.host) 4
      (start SmallHost.get_root (SmallHost.request "OPTIONS" "/")) in
  m_call m = CFinished None
  ∧ ctx_allow (m_ctx m) = Some "GET,HEAD"
  ∧ ctx_body (m_ctx m) = Some "GET,HEAD"
  ∧ m_trace m = [].
Proof. by vm_compute. Qed.

Lemma C2_witness :
  (router_next (H := SmallHost.host)
     (Router_handle SmallHost.get_root (SmallHost.request "OPTIONS" "/") 0).1
     (Router_handle SmallHost.get_root (SmallHost.request "OPTIONS" "/") 0).2
     None).2 = CDone
  ∧ hf_options
      (router_next (H := SmallHost.host)
         (Router_handle SmallHost.get_root (SmallHost.request "OPTIONS" "/") 0).1
         (Router_handle SmallHost.get_root (SmallHost.request "OPTIONS" "/") 0).2
         None).1.1.1 = ["GET"; "HEAD"].
Proof.
  rewrite (proj1 (C2_no_match_restores_then_continues (H := SmallHost.host)
             (Router_handle SmallHost.get_root (SmallHost.request "OPTIONS" "/") 0).1
             (Router_handle SmallHost.get_root (SmallHost.request "OPTIONS" "/") 0).2
             None [] [])
           "/" 1 ["GET"; "HEAD"] []).
  - split; reflexivity.
  - vm_compute. lia.
  - discriminate.
  - reflexivity.
  - reflexivity.
Defined.


(** [use(/^\/foo/, inFoo)] is passed over for ["/foobar"] and entered,
    with the prefix cut, for ["/foo/bar"]. *)
Example foo_mount_skips_foobar :
  m_trace (run (H := SmallHost.host) 30
             (start SmallHost.foo_router (SmallHost.request "GET" "/foobar")))
  = [EHandler "fallback" "/foobar" (Some EmptyString)]
  ∧ m_trace (run (H := SmallHost.host) 30
               (start SmallHost.foo_router (SmallHost.request "GET" "/foo/bar")))
    = [EHandler "inFoo" "/bar" (Some "/foo");
       EHandler "fallback" "/foo/bar" (Some EmptyString)].
Proof. by vm_compute. Qed.

(** [next('route')] leaves the rest of its Route and goes on with the
    Router's next layer; [next('router')] leaves the Router. *)
Example signals_skip_layers :
  m_trace (run (H := SmallHost.host) 30
             (start (SmallHost.signalling "route") (SmallHost.request "GET" "/")))
  = [EHandler "first" "/" (Some EmptyString);
     EHandler "third" "/" (Some EmptyString)]
  ∧ m_trace (run (H := SmallHost.host) 30
               (start (SmallHost.signalling "router") (SmallHost.request "GET" "/")))
    = [EHandler "first" "/" (Some EmptyString)]
  ∧ m_call (run (H := SmallHost.host) 30
              (start (SmallHost.signalling "router") (SmallHost.request "GET" "/")))
    = CFinished None.
Proof. by vm_compute. Qed.

(** * The fields a Router saves and restores *)

Section FrameProofs.
Context `{HostEnv}.

Lemma done_vals f ctx : vals_of (done f ctx) = he_vals (hf_env f).
Proof.
  unfold done, vals_of.
  by destruct (he_vals (hf_env f)) as [[baseUrl params] next].
Qed.

Lemma router_next_env f ctx signal :
  hf_env (router_next f ctx signal).1.1.1 = hf_env f.
Proof.
  unfold router_next.
  destruct (_ || _); [done|].
  destruct (parseUrl_pathname _) as [path|]; [|done].
  destruct (scan_stack _ _ _ _ _) as [[[idx options] log] [[layer|]|e]]; try done.
  by destruct (layer_params layer), (layer_path layer).
Qed.

Lemma trim_prefix_env f ctx layer layerPath path :
  hf_env (trim_prefix f ctx layer layerPath path).1.1 = hf_env f.
Proof.
  unfold trim_prefix. destruct (negb _); [|done].
  destruct (String.get _ _) as [c|]; [|done]. by destruct (_ && _).
Qed.

Lemma handle_request_call_running {R} (l : Layer_ Callee R) :
  running (handle_request_call l).
Proof. unfold handle_request_call. by destruct (handle_request l). Qed.

Lemma params_done_running layer layerPath path s :
  running (params_done layer layerPath path s).
Proof.
  unfold params_done. destruct (sig_truthy s); [done|].
  destruct (layer_route layer); [apply handle_request_call_running|done].
Qed.

Lemma router_next_running f ctx signal : running (router_next f ctx signal).2.
Proof.
  unfold router_next.
  destruct (_ || _); [done|].
  destruct (parseUrl_pathname _) as [path|]; [|done].
  destruct (scan_stack _ _ _ _ _) as [[[idx options] log] [[layer|]|e]]; try done.
  by destruct (layer_params layer), (layer_path layer).
Qed.

Lemma trim_prefix_running f ctx layer layerPath path :
  running (trim_prefix f ctx layer layerPath path).2.
Proof.
  unfold trim_prefix. destruct (negb _); [|apply handle_request_call_running].
  destruct (String.get _ _) as [c|]; [|apply handle_request_call_running].
  destruct (_ && _); [done|apply handle_request_call_running].
Qed.

Lemma bottom_push vals x frames :
  frames ≠ [] → bottom vals frames → bottom vals (x :: frames).
Proof. by destruct frames. Qed.

Lemma bottom_top vals f f' frames :
  hf_env f' = hf_env f →
  bottom vals (FRouter f :: frames) → bottom vals (FRouter f' :: frames).
Proof.
  intros Henv (f0 & Hlast & Hvals). destruct frames as [|y frames]; simpl in *.
  - injection Hlast as <-. exists f'. by rewrite Henv.
  - by exists f0.
Qed.

Lemma bottom_route vals f frames :
  bottom vals (FRoute f :: frames) → frames ≠ [] ∧ bottom vals frames.
Proof.
  intros (f0 & Hlast & Hvals). destruct frames; [done|].
  split; [done|by exists f0].
Qed.

Lemma bottom_param vals f frames :
  bottom vals (FParam f :: frames) → frames ≠ [] ∧ bottom vals frames.
Proof.
  intros (f0 & Hlast & Hvals). destruct frames; [done|].
  split; [done|by exists f0].
Qed.

Lemma saved_intro vals ctx frames call trace :
  frames ≠ [] → running call → bottom vals frames →
  saved vals (mkMachine ctx frames call trace).
Proof. by destruct frames. Qed.

(** Every call keeps the saved values where they are. *)
Lemma saved_step vals m : saved vals m → saved vals (step m).
Proof.
  destruct m as [ctx frames call trace]. intros Hs.
  destruct frames as [|top frames].
  { destruct call; try done. unfold saved, step, Router_handle in *; simpl in *.
    split; [done|]. eexists; split; [done|done]. }
  destruct Hs as [Hrun0 Hb]. simpl in Hb, Hrun0.
  assert (Hne : top :: frames ≠ []) by done.
  destruct call; unfold step; simpl m_call; simpl m_frames; simpl m_ctx;
    simpl m_trace; cbv iota beta.
  - (* CNext *) destruct top; by apply saved_intro.
  - (* CInvoke *)
    destruct fn as [u|rt|r]; [|by apply saved_intro..].
    destruct (uf_call u ctx []) as [ctx' []]; by apply saved_intro.
  - (* CInvokeParam *)
    destruct fn as [u|rt|r]; [|by apply saved_intro..].
    destruct (uf_call u ctx _) as [ctx' []]; by apply saved_intro.
  - (* CDispatch *)
    destruct (Route_dispatch r ctx); [|by apply saved_intro].
    apply saved_intro; [done..|by apply bottom_push].
  - (* CRouteNext *)
    destruct top as [f|f|f]; try by apply saved_intro.
    apply bottom_route in Hb as [Hne' Hb].
    destruct (routeNext f ctx signal) as [[f' log] [s| |layer|e]];
      apply saved_intro; try done; try by apply bottom_push.
    apply handle_request_call_running.
  - (* CHandle *)
    destruct (Router_handle rt ctx (length (top :: frames))) as [f ctx'].
    apply saved_intro; [done..|by apply bottom_push].
  - (* CRouterNext *)
    destruct top as [f|f|f]; try by apply saved_intro.
    pose proof (router_next_env f ctx signal) as Henv.
    pose proof (router_next_running f ctx signal) as Hrun.
    destruct (router_next f ctx signal) as [[[f' ctx'] log] call].
    apply saved_intro; [done..|by eapply bottom_top].
  - (* CDone *)
    destruct top as [f|f|f]; try by apply saved_intro.
    destruct frames as [|y frames].
    + destruct Hb as (f0 & [= <-] & Hvals). unfold saved. simpl.
      by rewrite done_vals.
    + apply saved_intro; [done..|].
      destruct Hb as (f0 & Hlast & Hvals). by exists f0.
  - (* CProcessParams *)
    destruct top as [f|f|f]; try by apply saved_intro.
    destruct (process_params _ _ _ _).
    + apply saved_intro; [done..|by apply bottom_push].
    + apply saved_intro; [done|apply params_done_running|done].
  - (* CParamsDone *)
    apply saved_intro; [done|apply params_done_running|done].
  - (* CTrimPrefix *)
    destruct top as [f|f|f]; try by apply saved_intro.
    pose proof (trim_prefix_env f ctx layer layerPath path) as Henv.
    pose proof (trim_prefix_running f ctx layer layerPath path) as Hrun.
    destruct (trim_prefix f ctx layer layerPath path) as [[f' ctx'] call].
    apply saved_intro; [done..|by eapply bottom_top].
  - (* CParam *)
    destruct top as [f|f|pf]; try by apply saved_intro.
    destruct frames as [|[f|f|f] rest]; try by apply saved_intro.
    apply bottom_param in Hb as [_ Hb].
    assert (Hb' : ∀ called, bottom vals (FRouter (frame_memo f called) :: rest))
      by (intros called; by eapply bottom_top; [|exact Hb]).
    destruct (param pf (hf_paramcalled f) ctx signal)
      as [[[pf' called] ctx'] [s|s| |fn v name|e]]; cbv zeta;
      (apply saved_intro; [done|done|]);
      first [apply Hb'|apply bottom_push; [done|apply Hb']].
  - (* CParamCallback *)
    destruct top as [f|f|pf]; try by apply saved_intro.
    destruct frames as [|[f|f|f] rest]; try by apply saved_intro.
    apply bottom_param in Hb as [_ Hb0].
    assert (Hb' : ∀ called, bottom vals (FRouter (frame_memo f called) :: rest))
      by (intros called; by eapply bottom_top; [|exact Hb0]).
    destruct (paramCallback pf (hf_paramcalled f) ctx signal)
      as [[pf' called] [s|s| |fn v name|e]]; cbv zeta;
      (apply saved_intro; [done|done|]);
      first [apply bottom_push; [done|apply Hb']
            |apply bottom_push; [done|exact Hb0]].
  - (* CFinished *) done.
  - by apply saved_intro.
  - by apply saved_intro.
  - by apply saved_intro.
Qed.

Lemma saved_run vals n m : saved vals m → saved vals (run n m).
Proof.
  revert m. induction n as [|n IH]; intros m Hm; [done|].
  by apply IH, saved_step.
Qed.

(** C8. [handle] saves [baseUrl], [params] and [ctx.next] on entry;
    [router_next] and [trim_prefix] never change what was saved; each of
    the three ways out of the Router (every layer visited, a ["router"]
    signal, no pathname) is [done()], which puts the saved values back
    whatever the handlers did to the context.  So whenever a call of
    [handle] by the host reaches the host's continuation, the three
    fields hold the values they had on entry. *)
Theorem C8_handle_restores_saved_fields (self : Router) (ctx0 : Ctx) :
  (∀ depth f ctx,
     hf_env f = hf_env (Router_handle self ctx0 depth).1 →
     vals_of (done f ctx) = vals_of ctx0)
  ∧ (∀ f ctx signal,
       hf_env (router_next f ctx signal).1.1.1 = hf_env f
       ∧ (length (router_stack (he_self (hf_env f))) ≤ hf_idx f
          ∨ signal = Some "router"
          ∨ parseUrl_pathname (ctx_url (restore_url f ctx)) = None →
          (router_next f ctx signal).2 = CDone))
  ∧ (∀ f ctx layer layerPath path,
       hf_env (trim_prefix f ctx layer layerPath path).1.1 = hf_env f)
  ∧ (∀ n signal,
       m_call (run n (start self ctx0)) = CFinished signal →
       vals_of (m_ctx (run n (start self ctx0))) = vals_of ctx0).
Proof.
  split_and!.
  - intros depth f ctx Henv. by rewrite done_vals, Henv.
  - intros f ctx signal. split; [apply router_next_env|].
    unfold router_next. intros [Hlen|[->|Hpath]].
    + by rewrite (proj2 (Nat.leb_le _ _) Hlen).
    + rewrite (bool_decide_eq_true_2 (Some "router" = Some "router")) by done.
      by rewrite orb_true_r.
    + destruct (_ || _); [done|]. by rewrite Hpath.
  - apply trim_prefix_env.
  - intros n signal Hcall.
    pose proof (saved_run (vals_of ctx0) n (start self ctx0) eq_refl) as Hs.
    unfold saved in Hs. rewrite Hcall in Hs.
    destruct (m_frames (run n (start self ctx0))); [done|]. by destruct Hs.
Qed.

End FrameProofs.

Lemma C8_witness :
  m_call (run (H := SmallHost.host) 40
            (start SmallHost.aba_router SmallHost.mounted_request))
  = CFinished None
  ∧ vals_of (m_ctx (run (H := SmallHost.host) 40
                      (start SmallHost.aba_router SmallHost.mounted_request)))
    = (Some "/api", Some {[Name "version" := PStr "1"]}, KHost 7)
  ∧ vals_of (done (Router_handle SmallHost.aba_router SmallHost.mounted_request 0).1
               (SmallHost.request "GET" "/"))
    = (Some "/api", Some {[Name "version" := PStr "1"]}, KHost 7)
  ∧ (router_next (H := SmallHost.host)
       (Router_handle SmallHost.aba_router SmallHost.mounted_request 0).1
       SmallHost.mounted_request (Some "router")).2 = CDone.
Proof.
  assert (Hcall : m_call (run (H := SmallHost.host) 40
                            (start SmallHost.aba_router SmallHost.mounted_request))
                  = CFinished None) by (vm_compute; reflexivity).
  destruct (C8_handle_restores_saved_fields (H := SmallHost.host)
              SmallHost.aba_router SmallHost.mounted_request)
    as (Hdone & Hnext & _ & Hrun).
  split_and!.
  - exact Hcall.
  - exact (Hrun 40 None Hcall).
  - exact (Hdone 0 (Router_handle SmallHost.aba_router SmallHost.mounted_request 0).1
             (SmallHost.request "GET" "/") eq_refl).
  - exact (proj2 (Hnext (Router_handle SmallHost.aba_router
                           SmallHost.mounted_request 0).1
                   SmallHost.mounted_request (Some "router"))
             (or_intror (or_introl eq_refl))).
Defined.

(** * The per-request parameter memo *)

Section ParamProofs.
Context `{HostEnv}.

Lemma drop_cons_inv {A} (l : list A) n x rest :
  drop n l = x :: rest → l !! n = Some x ∧ drop (S n) l = rest.
Proof.
  intros Hd. split.
  - pose proof (lookup_drop l n 0) as Hl. by rewrite Hd, Nat.add_0_r in Hl.
  - pose proof (drop_drop l 1 n) as Hl. rewrite Hd in Hl.
    replace (S n) with (n + 1) by lia. by rewrite <- Hl.
Qed.

Lemma drop_nil_inv {A} (l : list A) n : drop n l = [] → l !! n = None.
Proof.
  intros Hd. pose proof (lookup_drop l n 0) as Hl.
  by rewrite Hd, Nat.add_0_r in Hl.
Qed.

Lemma run_S n m : run (S n) m = run n (step m).
Proof. done. Qed.

Lemma run_add n k m : run (n + k) m = run k (run n m).
Proof. revert m. induction n as [|n IH]; intros m; [done|]. simpl. apply IH. Qed.

Lemma replays_spec rec paramVal :
  replays (Some rec) paramVal = true
  ↔ memo_match rec = paramVal
    ∨ ∃ s, memo_signal rec = Some s ∧ s ≠ EmptyString ∧ s ≠ "route".
Proof.
  unfold replays, sig_truthy.
  rewrite orb_true_iff, andb_true_iff, bool_decide_eq_true.
  rewrite negb_true_iff, bool_decide_eq_false.
  split; intros [Hm|Hs]; eauto.
  - right. destruct (memo_signal rec) as [s|]; [|by destruct Hs].
    destruct Hs as [Hs Hr]. exists s. split_and!; [done| |congruence].
    intros ->. done.
  - right. destruct Hs as (s & -> & Hs & Hr). split; [|congruence].
    by destruct (String.eqb_spec s EmptyString).
Qed.

(** [param(name, f, g)] puts [f], then [g], after the callbacks [name]
    already has. *)
Lemma Router_param_appends (self : Router) name shown (fns : list Callee) :
  inherited_key name = false →
  router_params (Router_param self name shown (VFun <$> fns)).1 !! name
  = match fns with
    | [] => router_params self !! name
    | _ => Some (default [] (router_params self !! name) ++ fns)
    end.
Proof.
  intros Hname. revert self. induction fns as [|fn fns IH]; intros self; [done|].
  simpl. rewrite Hname, IH. simpl. rewrite lookup_insert_eq. simpl.
  destruct fns; [done|]. by rewrite <- app_assoc.
Qed.

Lemma frame_memo_same f : frame_memo f (hf_paramcalled f) = f.
Proof. by destruct f. Qed.

(** The callbacks of one name, each ending in [next()], run one after the
    other from [paramCallback] on; the record of the name keeps its
    [match] and its signal and ends up holding the value the last
    callback left in [ctx.params]. *)
Lemma param_callbacks_run (fns : list UserFn) (pf : ParamFrame) (f : RouterFrame)
    (ctx : Ctx) (frames : list Frame) (trace : list Event)
    (callbacks : list Callee) (key : Key) (ref : nat) (rec : MemoRec) :
  pf_paramCallbacks pf = Some callbacks →
  drop (pf_paramIndex pf) callbacks = User <$> fns →
  pf_key pf = Some key → pf_paramCalled pf = Some ref →
  memo_heap (hf_paramcalled f) !! ref = Some rec →
  is_Some (ctx_params ctx) →
  Forall always_next fns → Forall keeps_params fns →
  ∃ pf' f' ctx' params',
    run (3 * length fns + 1)
      (mkMachine ctx (FParam pf :: FRouter f :: frames) (CParamCallback None) trace)
    = mkMachine ctx' (FParam pf' :: FRouter f' :: frames) (CParam None)
        (trace ++ ((fun fn => EParam (uf_name fn) (pf_paramVal pf) (key_name key))
                     <$> fns))
    ∧ pf_i pf' = pf_i pf ∧ pf_keys pf' = pf_keys pf
    ∧ pf_params pf' = pf_params pf
    ∧ memo_called (hf_paramcalled f') = memo_called (hf_paramcalled f)
    ∧ ctx_params ctx' = Some params'
    ∧ memo_heap (hf_paramcalled f') !! ref
      = Some {| memo_signal := memo_signal rec; memo_match := memo_match rec;
                memo_value := param_get params' (key_name key) |}.
Proof.
  revert pf f ctx trace rec.
  induction fns as [|fn fns IH];
    intros pf f ctx trace rec Hcbs Hdrop Hkey Href Hrec [params Hparams] Hnext Hkeep.
  - apply drop_nil_inv in Hdrop.
    assert (Hlt : ref < length (memo_heap (hf_paramcalled f)))
      by by eapply lookup_lt_Some.
    exists {| pf_params := pf_params pf; pf_keys := pf_keys pf;
              pf_i := pf_i pf; pf_paramIndex := S (pf_paramIndex pf);
              pf_key := pf_key pf; pf_paramVal := pf_paramVal pf;
              pf_paramCallbacks := pf_paramCallbacks pf;
              pf_paramCalled := pf_paramCalled pf;
              pf_layer := pf_layer pf; pf_layerPath := pf_layerPath pf;
              pf_path := pf_path pf |},
      (frame_memo f
         {| memo_heap :=
              <[ref := {| memo_signal := memo_signal rec;
                          memo_match := memo_match rec;
                          memo_value := param_get params (key_name key) |}]>
                (memo_heap (hf_paramcalled f));
            memo_called := memo_called (hf_paramcalled f) |}),
      ctx, params.
    split_and!; try done.
    + simpl. unfold step. simpl. unfold paramCallback.
      rewrite Hcbs, Hkey, Hparams, Href. simpl. rewrite Hrec, Hdrop. simpl.
      by rewrite app_nil_r.
    + simpl. by rewrite list_lookup_insert_eq.
  - apply drop_cons_inv in Hdrop as [Hfn Hdrop].
    apply Forall_cons in Hnext as [Hf Hnext].
    apply Forall_cons in Hkeep as [Hk Hkeep].
    assert (Hlt : ref < length (memo_heap (hf_paramcalled f)))
      by by eapply lookup_lt_Some.
    replace (3 * length (fn :: fns) + 1) with (3 + (3 * length fns + 1))
      by (simpl; lia).
    rewrite run_add.
    set (pf1 := {| pf_params := pf_params pf; pf_keys := pf_keys pf;
                   pf_i := pf_i pf; pf_paramIndex := S (pf_paramIndex pf);
                   pf_key := pf_key pf; pf_paramVal := pf_paramVal pf;
                   pf_paramCallbacks := pf_paramCallbacks pf;
                   pf_paramCalled := pf_paramCalled pf;
                   pf_layer := pf_layer pf; pf_layerPath := pf_layerPath pf;
                   pf_path := pf_path pf |}).
    set (rec1 := {| memo_signal := memo_signal rec; memo_match := memo_match rec;
                    memo_value := param_get params (key_name key) |}).
    set (called1 := {| memo_heap := <[ref := rec1]> (memo_heap (hf_paramcalled f));
                       memo_called := memo_called (hf_paramcalled f) |}).
    pose proof (Hf ctx [pval_value (pf_paramVal pf); key_value (key_name key)])
      as Hact.
    pose proof (Hk ctx [pval_value (pf_paramVal pf); key_value (key_name key)]
                  (ex_intro _ params Hparams)) as Hparams2.
    destruct (uf_call fn ctx [pval_value (pf_paramVal pf); key_value (key_name key)])
      as [ctx2 act] eqn:Hcall.
    simpl in Hact, Hparams2. subst act.
    assert (Hthree :
      run 3 (mkMachine ctx (FParam pf :: FRouter f :: frames)
               (CParamCallback None) trace)
      = mkMachine ctx2 (FParam pf1 :: FRouter (frame_memo f called1) :: frames)
          (CParamCallback None)
          (trace ++ [EParam (uf_name fn) (pf_paramVal pf) (key_name key)])).
    { unfold run. unfold step at 3. simpl. unfold paramCallback.
      rewrite Hcbs, Hkey, Hparams, Href. simpl. rewrite Hrec, Hfn.
      unfold step at 2. simpl. rewrite Hcall.
      unfold step. simpl. unfold pf1. by rewrite Hcbs, Hkey, Href. }
    rewrite Hthree.
    destruct (IH pf1 (frame_memo f called1) ctx2
                (trace ++ [EParam (uf_name fn) (pf_paramVal pf) (key_name key)])
                rec1)
      as (pf' & f' & ctx' & params' & Hrun & Hi & Hkeys & Hps & Hcalled & Hctx & Hheap);
      try done.
    { simpl. by rewrite list_lookup_insert_eq. }
    exists pf', f', ctx', params'. split_and!; try done.
    rewrite Hrun. simpl. by rewrite <- app_assoc.
Qed.

(** A capture the memo does not replay: [param] makes a fresh record and
    the callbacks of the name run, in registration order; the record
    then replays the same value. *)
Lemma param_resolves_afresh (fns : list UserFn) (pf : ParamFrame) (f : RouterFrame)
    (ctx : Ctx) (frames : list Frame) (trace : list Event) (key : Key)
    (params : Params) :
  pf_keys pf !! pf_i pf = Some key →
  ctx_params ctx = Some params →
  param_get params (key_name key) ≠ PUndef →
  pf_params pf !! key_name key = Some (User <$> fns) →
  replays (recalled (hf_paramcalled f) (key_name key))
    (param_get params (key_name key)) = false →
  Forall always_next fns → Forall keeps_params fns →
  ∃ pf' f' ctx',
    run (3 * length fns + 2)
      (mkMachine ctx (FParam pf :: FRouter f :: frames) (CParam None) trace)
    = mkMachine ctx' (FParam pf' :: FRouter f' :: frames) (CParam None)
        (trace ++ ((fun fn => EParam (uf_name fn) (param_get params (key_name key))
                                (key_name key)) <$> fns))
    ∧ pf_i pf' = S (pf_i pf)
    ∧ replays (recalled (hf_paramcalled f') (key_name key))
        (param_get params (key_name key)) = true.
Proof.
  intros Hkey Hparams Hval Hcbs Hrep Hnext Hkeep.
  set (name := key_name key) in *.
  set (paramVal := param_get params name) in *.
  set (ref := length (memo_heap (hf_paramcalled f))).
  set (rec0 := {| memo_signal := None; memo_match := paramVal;
                  memo_value := paramVal |}).
  set (called1 := {| memo_heap := memo_heap (hf_paramcalled f) ++ [rec0];
                     memo_called := <[name := ref]> (memo_called (hf_paramcalled f)) |}).
  set (pf1 := {| pf_params := pf_params pf; pf_keys := pf_keys pf;
                 pf_i := S (pf_i pf); pf_paramIndex := 0; pf_key := Some key;
                 pf_paramVal := paramVal;
                 pf_paramCallbacks := Some (User <$> fns);
                 pf_paramCalled := Some ref;
                 pf_layer := pf_layer pf; pf_layerPath := pf_layerPath pf;
                 pf_path := pf_path pf |}).
  assert (Hstep :
    step (mkMachine ctx (FParam pf :: FRouter f :: frames) (CParam None) trace)
    = mkMachine ctx (FParam pf1 :: FRouter (frame_memo f called1) :: frames)
        (CParamCallback None) trace).
  { unfold step, param. simpl.
    assert (Hlen : (length (pf_keys pf) <=? pf_i pf)%nat = false).
    { apply Nat.leb_gt. by eapply lookup_lt_Some. }
    rewrite Hlen, Hkey, Hparams. fold name. rewrite Hcbs. fold paramVal.
    rewrite (bool_decide_eq_false_2 _ Hval).
    rewrite (bool_decide_eq_true_2 (is_Some (Some (User <$> fns)))) by eauto.
    simpl. fold (recalled (hf_paramcalled f) name). by rewrite Hrep. }
  replace (3 * length fns + 2) with (1 + (3 * length fns + 1)) by lia.
  rewrite run_add. change (run 1 ?m) with (step m). rewrite Hstep.
  destruct (param_callbacks_run fns pf1 (frame_memo f called1) ctx frames trace
              (User <$> fns) key ref rec0)
    as (pf' & f' & ctx' & params' & Hrun & Hi & _ & _ & Hcalled & _ & Hheap);
    try done.
  { simpl. by rewrite lookup_app_r, Nat.sub_diag by done. }
  exists pf', f', ctx'. split_and!; [exact Hrun|exact Hi|].
  unfold recalled. rewrite Hcalled. simpl. rewrite lookup_insert_eq. simpl.
  rewrite Hheap. unfold replays. simpl. by rewrite bool_decide_eq_true_2.
Qed.

(** C3 (as amended). The memo belongs to one call of [handle]: every
    call, also the one a parent makes into a mounted child Router,
    starts with an empty memo of its own.  Within one call the memo
    keeps, for each name, the value and the signal of its latest
    resolution only.  When the capture of a layer for name N equals that
    latest value, or the latest signal is a signal other than ["route"],
    the stored value is written back, the stored signal is replayed and
    no callback of N is invoked.  Otherwise -- no record yet, or a
    different latest value whose signal was none or ["route"] -- a fresh
    record replaces the old one, so that the same value captured next is
    replayed, and the callbacks registered for N run in registration
    order, each through the continuation of the one before; a signal
    raised by one of them is stored and ends the run.  A value met
    earlier than the latest one is therefore resolved anew.  The last
    two parts follow a capture through the machine: a replay is one step
    that reports no call, and a fresh resolution, for callbacks of the
    application that end in [next()] and leave an object in
    [ctx.params], reports the call of each callback, in registration
    order, and ends with a record that replays the value. *)
Theorem C3_param_memo_keeps_latest_value (pf : ParamFrame) (called : Memo)
    (ctx : Ctx) (key : Key) (params : Params) (callbacks : list Callee)
    (ref : nat) (rec : MemoRec) (signal : option string) :
  (∀ self ctx0 frames trace,
     step (mkMachine ctx0 frames (CHandle self) trace)
     = mkMachine (Router_handle self ctx0 (length frames)).2
         (FRouter (Router_handle self ctx0 (length frames)).1 :: frames)
         (CRouterNext None) trace
     ∧ hf_paramcalled (Router_handle self ctx0 (length frames)).1
       = {| memo_heap := []; memo_called := ∅ |}
     ∧ replays
         (recalled (hf_paramcalled (Router_handle self ctx0 (length frames)).1)
            (key_name key))
         (param_get params (key_name key)) = false)
  ∧ (∀ self shown fns,
       inherited_key (key_name key) = false →
       router_params (Router_param self (key_name key) shown (VFun <$> fns)).1
         !! key_name key
       = match fns with
         | [] => router_params self !! key_name key
         | _ => Some (default [] (router_params self !! key_name key) ++ fns)
         end)
  ∧ (∀ r v, replays (Some r) v = true
            ↔ memo_match r = v
              ∨ ∃ s, memo_signal r = Some s ∧ s ≠ EmptyString ∧ s ≠ "route")
  ∧ replays None (param_get params (key_name key)) = false
  ∧ (pf_keys pf !! pf_i pf = Some key →
     ctx_params ctx = Some params →
     param_get params (key_name key) ≠ PUndef →
     pf_params pf !! key_name key = Some callbacks →
     let name := key_name key in
     let paramVal := param_get params name in
     let '(pf', called', ctx', call) := param pf called ctx None in
     pf_i pf' = S (pf_i pf) ∧ pf_key pf' = Some key
     ∧ pf_paramVal pf' = paramVal ∧ pf_paramCallbacks pf' = Some callbacks
     ∧ pf_paramIndex pf' = 0
     ∧ if replays (recalled called name) paramVal
       then called' = called
            ∧ call = PParam (recalled called name ≫= memo_signal)
            ∧ ctx_params ctx'
              = Some (<[name := default PUndef (memo_value <$> recalled called name)]>
                        params)
       else call = PParamCallback ∧ ctx' = ctx
            ∧ pf_paramCalled pf' = Some (length (memo_heap called))
            ∧ recalled called' name
              = Some {| memo_signal := None; memo_match := paramVal;
                        memo_value := paramVal |}
            ∧ replays (recalled called' name) paramVal = true)
  ∧ (pf_paramCallbacks pf = Some callbacks → pf_key pf = Some key →
     ctx_params ctx = Some params → pf_paramCalled pf = Some ref →
     memo_heap called !! ref = Some rec →
     let '(pf', called', call) := paramCallback pf called ctx signal in
     pf_paramIndex pf' = S (pf_paramIndex pf)
     ∧ pf_paramCallbacks pf' = Some callbacks
     ∧ memo_heap called' !! ref
       = Some {| memo_signal := if sig_truthy signal then signal
                                else memo_signal rec;
                 memo_match := memo_match rec;
                 memo_value := param_get params (key_name key) |}
     ∧ if sig_truthy signal then call = PParam signal
       else match callbacks !! pf_paramIndex pf with
            | Some fn => call = PMiddleware fn (pf_paramVal pf) (key_name key)
            | None => call = PParam None
            end)
  ∧ (sig_truthy signal = true →
     param pf called ctx signal = (pf, called, ctx, PNext signal))
  ∧ (∀ f frames trace,
       pf_keys pf !! pf_i pf = Some key →
       ctx_params ctx = Some params →
       param_get params (key_name key) ≠ PUndef →
       pf_params pf !! key_name key = Some callbacks →
       replays (recalled (hf_paramcalled f) (key_name key))
         (param_get params (key_name key)) = true →
       ∃ pf' ctx',
         step (mkMachine ctx (FParam pf :: FRouter f :: frames) (CParam None) trace)
         = mkMachine ctx' (FParam pf' :: FRouter f :: frames)
             (CParam (recalled (hf_paramcalled f) (key_name key) ≫= memo_signal))
             trace
         ∧ pf_i pf' = S (pf_i pf))
  ∧ (∀ fns f frames trace,
       pf_keys pf !! pf_i pf = Some key →
       ctx_params ctx = Some params →
       param_get params (key_name key) ≠ PUndef →
       pf_params pf !! key_name key = Some (User <$> fns) →
       replays (recalled (hf_paramcalled f) (key_name key))
         (param_get params (key_name key)) = false →
       Forall always_next fns → Forall keeps_params fns →
       ∃ pf' f' ctx',
         run (3 * length fns + 2)
           (mkMachine ctx (FParam pf :: FRouter f :: frames) (CParam None) trace)
         = mkMachine ctx' (FParam pf' :: FRouter f' :: frames) (CParam None)
             (trace ++ ((fun fn => EParam (uf_name fn)
                                     (param_get params (key_name key))
                                     (key_name key)) <$> fns))
         ∧ pf_i pf' = S (pf_i pf)
         ∧ replays (recalled (hf_paramcalled f') (key_name key))
             (param_get params (key_name key)) = true).
Proof.
  split_and!.
  - intros. by split_and!.
  - intros. by apply Router_param_appends.
  - apply replays_spec.
  - done.
  - intros Hkey Hparams Hval Hcbs. cbv zeta. unfold param. simpl.
    assert (Hlen : (length (pf_keys pf) <=? pf_i pf)%nat = false).
    { apply Nat.leb_gt. by eapply lookup_lt_Some. }
    rewrite Hlen, Hkey, Hparams, Hcbs.
    rewrite (bool_decide_eq_false_2 _ Hval).
    rewrite (bool_decide_eq_true_2 (is_Some (Some callbacks))) by eauto. simpl.
    fold (recalled called (key_name key)).
    destruct (replays (recalled called (key_name key)) _) eqn:Hrep.
    + destruct (recalled called (key_name key)) as [r|]; [|done]. by split_and!.
    + assert (Hnew :
        recalled
          {| memo_heap :=
               memo_heap called
                 ++ [{| memo_signal := None;
                        memo_match := param_get params (key_name key);
                        memo_value := param_get params (key_name key) |}];
             memo_called :=
               <[key_name key := length (memo_heap called)]> (memo_called called) |}
          (key_name key)
        = Some {| memo_signal := None;
                  memo_match := param_get params (key_name key);
                  memo_value := param_get params (key_name key) |}).
      { unfold recalled. simpl. rewrite lookup_insert_eq. simpl.
        by rewrite lookup_app_r, Nat.sub_diag. }
      split_and!; try done. rewrite Hnew. unfold replays. simpl.
      by rewrite bool_decide_eq_true_2.
  - intros Hcbs Hkey Hparams Href Hrec. unfold paramCallback.
    rewrite Hcbs, Hkey, Hparams, Href. simpl. rewrite Hrec.
    assert (Hlt : ref < length (memo_heap called)) by by eapply lookup_lt_Some.
    destruct (sig_truthy signal).
    + split_and!; try done. simpl. by rewrite list_lookup_insert_eq.
    + destruct (callbacks !! pf_paramIndex pf);
        (split_and!; try done; simpl; by rewrite list_lookup_insert_eq).
  - intros Hsig. unfold param. by rewrite Hsig.
  - intros f frames trace Hkey Hparams Hval Hcbs Hrep.
    assert (Hlen : (length (pf_keys pf) <=? pf_i pf)%nat = false).
    { apply Nat.leb_gt. by eapply lookup_lt_Some. }
    unfold step, param. simpl. rewrite Hlen, Hkey, Hparams, Hcbs.
    rewrite (bool_decide_eq_false_2 _ Hval).
    rewrite (bool_decide_eq_true_2 (is_Some (Some callbacks))) by eauto. simpl.
    fold (recalled (hf_paramcalled f) (key_name key)). rewrite Hrep.
    destruct (recalled (hf_paramcalled f) (key_name key)) as [r|] eqn:Hr;
      [|done].
    rewrite frame_memo_same. simpl. eauto.
  - intros. by eapply param_resolves_afresh.
Qed.

End ParamProofs.

(** C3 as the spec words it fails: one [handle] call in which three
    mounts capture [user] as ["a"], ["b"] and ["a"] again invokes the
    callback of [user] three times, twice for the value ["a"]. *)
Lemma C3_counterexample :
  let m :=
    run (H := SmallHost.host) 40
      (start SmallHost.aba_router (SmallHost.request "GET" "/a/b/a")) in
  m_call m = CFinished None
  ∧ m_trace m
    = [EParam "loadUser" (PStr "a") (Name "user");
       EHandler "first" "/b/a" (Some "/a");
       EParam "loadUser" (PStr "b") (Name "user");
       EHandler "second" "/a" (Some "/a/b");
       EParam "loadUser" (PStr "a") (Name "user");
       EHandler "third" "/" (Some "/a/b/a")].
Proof. by vm_compute. Qed.

(** The memo is per call of [handle]: a child Router mounted twice is
    entered twice for one request, each time with an empty memo, and
    resolves the same value of [user] both times. *)
Example child_mounted_twice_resolves_twice :
  let m :=
    run (H := SmallHost.host) 60
      (start Samples.twice_mounted (SmallHost.request "GET" "/a")) in
  m_call m = CFinished None
  ∧ m_trace m
    = [EParam "loadUser" (PStr "a") (Name "user");
       EHandler "inner" "/" (Some "/a");
       EParam "loadUser" (PStr "a") (Name "user");
       EHandler "inner" "/" (Some "/a")].
Proof. by vm_compute. Qed.

Lemma C3_witness :
  (param SmallHost.user_frame SmallHost.memo_b
     SmallHost.ctx_a None).2 = PParamCallback
  ∧ recalled
      (param SmallHost.user_frame SmallHost.memo_b
         SmallHost.ctx_a None).1.1.2 (Name "user")
    = Some {| memo_signal := None; memo_match := PStr "a";
              memo_value := PStr "a" |}
  ∧ param SmallHost.user_frame SmallHost.memo_b
      SmallHost.ctx_a (Some "router")
    = (SmallHost.user_frame, SmallHost.memo_b, SmallHost.ctx_a,
       PNext (Some "router"))
  ∧ (paramCallback
       (param SmallHost.user_frame SmallHost.memo_b SmallHost.ctx_a None).1.1.1
       (param SmallHost.user_frame SmallHost.memo_b SmallHost.ctx_a None).1.1.2
       SmallHost.ctx_a None).2
    = PMiddleware (User (SmallHost.calls_next "loadUser" None)) (PStr "a")
        (Name "user")
  ∧ router_params
      (Router_param (H := SmallHost.host) (Router_new SmallHost.no_options)
         (Name "user") "user" [SmallHost.handler "loadUser"]).1 !! Name "user"
    = Some [User (SmallHost.calls_next "loadUser" None)]
  ∧ m_trace
      (run (H := SmallHost.host) 5
         (mkMachine SmallHost.ctx_a
            [FParam SmallHost.user_frame;
             FRouter (frame_memo Samples.foo_frame SmallHost.memo_b)]
            (CParam None) []))
    = [EParam "loadUser" (PStr "a") (Name "user")].
Proof.
  pose proof (C3_param_memo_keeps_latest_value (H := SmallHost.host)
    (param SmallHost.user_frame SmallHost.memo_b SmallHost.ctx_a None).1.1.1
    (param SmallHost.user_frame SmallHost.memo_b SmallHost.ctx_a None).1.1.2
    SmallHost.ctx_a (mkKey (Name "user"))
    {[Name "user" := PStr "a"]} [User (SmallHost.calls_next "loadUser" None)]
    1 {| memo_signal := None; memo_match := PStr "a"; memo_value := PStr "a" |}
    None) as (_ & _ & _ & _ & _ & Hcallback & _).
  pose proof (C3_param_memo_keeps_latest_value (H := SmallHost.host)
    SmallHost.user_frame SmallHost.memo_b SmallHost.ctx_a (mkKey (Name "user"))
    {[Name "user" := PStr "a"]} [User (SmallHost.calls_next "loadUser" None)]
    0 {| memo_signal := None; memo_match := PStr "b"; memo_value := PStr "b" |}
    (Some "router")) as (_ & Hregister & _ & _ & Hparam & _ & Hsignal & _ & Hrun).
  split_and!.
  - destruct Hparam as (_ & _ & _ & _ & _ & Hfresh);
      [reflexivity|reflexivity|by vm_compute|reflexivity|].
    vm_compute in Hfresh. vm_compute. by destruct Hfresh.
  - destruct Hparam as (_ & _ & _ & _ & _ & Hfresh);
      [reflexivity|reflexivity|by vm_compute|reflexivity|].
    vm_compute in Hfresh. vm_compute. by destruct Hfresh as (_ & _ & _ & ? & _).
  - exact (Hsignal eq_refl).
  - destruct Hcallback as (_ & _ & _ & Hcall);
      [reflexivity|reflexivity|reflexivity|reflexivity|reflexivity|].
    exact Hcall.
  - exact (Hregister (Router_new SmallHost.no_options) "user"
             [User (SmallHost.calls_next "loadUser" None)] eq_refl).
  - assert (Hnext : Forall always_next [SmallHost.calls_next "loadUser" None])
      by (by repeat constructor).
    assert (Hkeep : Forall keeps_params [SmallHost.calls_next "loadUser" None])
      by (repeat constructor; by intros ctx extra Hsome).
    destruct (Hrun [SmallHost.calls_next "loadUser" None]
                (frame_memo Samples.foo_frame SmallHost.memo_b) [] []
                eq_refl eq_refl ltac:(by vm_compute) eq_refl eq_refl Hnext Hkeep)
      as (pf' & f' & ctx' & Hfive & _).
    change (3 * length [SmallHost.calls_next "loadUser" None] + 2) with 5 in Hfive.
    rewrite Hfive. reflexivity.
Defined.

(** * Layer: the query condition *)

Section QueryProofs.
Context `{HostEnv}.

Lemma assoc_NoDup {A} (props : list (string * A)) k v :
  NoDup props.*1 → (k, v) ∈ props → assoc k props = Some v.
Proof.
  induction props as [|[k' w] r IH]; csimpl; intros Hnd Hin.
  - by apply elem_of_nil in Hin.
  - apply NoDup_cons in Hnd as [Hk Hnd].
    apply elem_of_cons in Hin as [[= <- <-]|Hin].
    + by rewrite String.eqb_refl.
    + destruct (String.eqb_spec k' k) as [->|Hne]; [|by apply IH].
      exfalso. apply Hk. by apply (list_elem_of_fmap_2 fst r (k, v)).
Qed.

(** The table the setter builds holds, for each key, the comparator of
    its declared value. *)
Lemma checkers_assoc (declared : Arg) keys key acc :
  assoc key (foldl (fun acc k => assoc_set k (checker_for (get_prop declared k)) acc)
               acc keys)
  = if bool_decide (key ∈ keys) then Some (checker_for (get_prop declared key))
    else assoc key acc.
Proof.
  revert acc. induction keys as [|k ks IH]; intros acc; cbn [foldl].
  - by rewrite bool_decide_eq_false_2 by apply not_elem_of_nil.
  - rewrite IH, assoc_set_assoc.
    destruct (decide (key ∈ ks)) as [Hin|Hin].
    + by rewrite !bool_decide_eq_true_2 by set_solver.
    + rewrite (bool_decide_eq_false_2 (key ∈ ks)) by done.
      destruct (decide (k = key)) as [->|Hne].
      * by rewrite !bool_decide_eq_true_2 by set_solver.
      * by rewrite !bool_decide_eq_false_2 by set_solver.
Qed.

Lemma query_every_forallb (declared : Arg) checkers q (props : list (string * Arg)) :
  (∀ kv, kv ∈ props →
     assoc kv.1 checkers = Some (checker_for kv.2) ∧ get_prop declared kv.1 = kv.2) →
  (query_every declared checkers (Some q) props.*1).2
  = Ret (forallb (key_passes q) props).
Proof.
  induction props as [|[k v] r IH]; intros Hall; csimpl; [done|].
  destruct (Hall (k, v)) as [Ha Hg]; [set_solver|]. simpl in Ha, Hg.
  cbn [query_every]. rewrite Ha, Hg.
  unfold key_passes at 1. simpl.
  destruct (run_checker (checker_for v) v (default VUndefined (assoc k q)))
    as [log ok]; simpl.
  destruct ok; [|done].
  destruct (query_every declared checkers (Some q) r.*1) as [log' res] eqn:Hq.
  simpl in *. apply IH. intros kv Hkv. apply Hall. set_solver.
Qed.

Lemma queryMatch_set_query {R} (l : Layer_ Callee R) props q :
  NoDup props.*1 → props ≠ [] →
  (queryMatch (Layer_set_query l (VObj props)) (Some q)).2
  = Ret (forallb (key_passes q) props).
Proof.
  intros Hnd Hne. unfold queryMatch, Layer_set_query. simpl.
  assert (Hlen : (length props.*1 =? 0)%nat = false) by by destruct props.
  rewrite Hlen. simpl. apply query_every_forallb. intros [k v] Hin. simpl. split.
  - rewrite checkers_assoc.
    rewrite bool_decide_eq_true_2 by (by apply (list_elem_of_fmap_2 fst props (k, v))).
    unfold get_prop. simpl. by rewrite (assoc_NoDup props k v).
  - unfold get_prop. simpl. by rewrite (assoc_NoDup props k v).
Qed.

Lemma Layer_match_true {R} (l : Layer_ Callee R) path query :
  (Layer_match l path query).2 = Ret true → (queryMatch l query).2 = Ret true.
Proof.
  unfold Layer_match. destruct (queryMatch l query) as [log [qm|e]]; [|done].
  destruct path as [p|]; [|done]. simpl.
  destruct (layer_fast_slash l); [by intros [= ->]|].
  destruct (layer_fast_star l).
  { destruct (decode_param (Some p)); [|done]. by intros [= ->]. }
  destruct (layer_regexp l p) as [[whole groups]|]; [|done].
  destruct (store_captures groups (layer_keys l) ∅) as [params [[]|e]]; [|done].
  by intros [= ->].
Qed.

(** X1. A query object with at least one key is a conjunction: the
    layer's query condition holds exactly when every declared key passes
    the comparator chosen by the type of its declared value, applied to
    the request's value for that key.  Against a request without a query
    object it throws. *)
Theorem queryMatch_is_conjunction_of_keys {R} (l : Layer_ Callee R)
    (props : list (string * Arg)) (q : list (string * value)) :
  NoDup props.*1 → props ≠ [] →
  (queryMatch (Layer_set_query l (VObj props)) (Some q)).2
  = Ret (forallb (key_passes q) props)
  ∧ queryMatch (Layer_set_query l (VObj props)) None
    = ([], Throw (TypeError "Cannot read properties of undefined")).
Proof.
  intros Hnd Hne. split; [by apply queryMatch_set_query|].
  unfold queryMatch, Layer_set_query. simpl.
  by destruct props as [|[k v] r].
Qed.

(** X2. The setter and the getter of [query]: a falsy value, or a value
    without own keys (an empty object, a number, [true]), declares no
    condition -- the getter answers [undefined] and [queryMatch] is true
    for every request, with no call to user code; any other value is
    stored as it is, with its keys in the order of [Object.keys]. *)
Theorem query_setter_roundtrip {R} (l : Layer_ Callee R) (newQuery : Arg)
    (actualQuery : option (list (string * value))) :
  (truthy newQuery = false ∨ own_props newQuery = [] →
   Layer_query (Layer_set_query l newQuery) = None
   ∧ layer_queryKeys (Layer_set_query l newQuery) = []
   ∧ queryMatch (Layer_set_query l newQuery) actualQuery = ([], Ret true))
  ∧ (truthy newQuery = true → own_props newQuery ≠ [] →
     Layer_query (Layer_set_query l newQuery) = Some newQuery
     ∧ layer_queryKeys (Layer_set_query l newQuery) = (own_props newQuery).*1).
Proof.
  unfold Layer_query, queryMatch, Layer_set_query. split.
  - intros [->| ->]; [done|]. by rewrite orb_true_r.
  - intros -> Hne. destruct (own_props newQuery); done.
Qed.

(** X3. A declared value that is a plain object is compared with
    [expected === JSON.parse(actual)], which no parsed value satisfies:
    a query object holding such a value never passes, whatever the
    request, and [match] never returns [true] for the layer. *)
Theorem object_valued_query_never_matches {R} (l : Layer_ Callee R)
    (props : list (string * Arg)) (key : string) (inner : list (string * Arg))
    (path : option string) (q : list (string * value)) :
  NoDup props.*1 → (key, VObj inner) ∈ props →
  (queryMatch (Layer_set_query l (VObj props)) (Some q)).2 = Ret false
  ∧ (Layer_match (Layer_set_query l (VObj props)) path (Some q)).2 ≠ Ret true.
Proof.
  intros Hnd Hin.
  assert (Hq : (queryMatch (Layer_set_query l (VObj props)) (Some q)).2 = Ret false).
  { rewrite queryMatch_set_query; [|done|by intros ->; apply elem_of_nil in Hin].
    f_equal. apply not_true_is_false. intros Hall.
    rewrite forallb_forall in Hall.
    apply list_elem_of_In, Hall in Hin. unfold key_passes in Hin. simpl in Hin.
    by destruct (JSON_parse _). }
  split; [done|]. intros Ht. apply Layer_match_true in Ht. congruence.
Qed.

End QueryProofs.


(** * Route: what is answered, what is handled, what is registered *)

Section VerbProofs.
Context `{HostEnv}.

Lemma upper_lower_ascii c : upper_ascii (lower_ascii c) = upper_ascii c.
Proof. by destruct c as [[] [] [] [] [] [] [] []]. Qed.

Lemma toUpperCase_toLowerCase s : toUpperCase (toLowerCase s) = toUpperCase s.
Proof.
  unfold toUpperCase, toLowerCase.
  induction s as [|c s IH]; simpl; [done|]. by rewrite upper_lower_ascii, IH.
Qed.

Lemma lower_upper_ascii c : lower_ascii (upper_ascii c) = lower_ascii c.
Proof. by destruct c as [[] [] [] [] [] [] [] []]. Qed.

Lemma toLowerCase_toUpperCase s : toLowerCase (toUpperCase s) = toLowerCase s.
Proof.
  unfold toUpperCase, toLowerCase.
  induction s as [|c s IH]; simpl; [done|]. by rewrite lower_upper_ascii, IH.
Qed.

Lemma toLowerCase_verb k :
  k ∈ verb_keys → toLowerCase (toUpperCase k) = k.
Proof.
  unfold verb_keys. rewrite !elem_of_cons, elem_of_nil.
  intros Hk; destruct_or!; subst; done.
Qed.

(** X6. What [_options()] lists is what [_handles_method] accepts, but
    for the names [methods] inherits.  Every verb listed for a Route
    built by its verb methods is handled by it.  A verb handled by a
    Route that declares no [all] handler is listed, in upper case,
    unless its lower-case form is a member of [Object.prototype]; such a
    verb ([CONSTRUCTOR], say) is handled by every Route and never
    listed by one built by the verb methods. *)
Theorem options_lists_handled_verbs (r : Route) :
  (RouteBuilt r → ∀ verb, verb ∈ _options r → _handles_method r verb = true)
  ∧ (methods_get r "_all" = false →
     ∀ method, _handles_method r method = true →
       toUpperCase method ∈ _options r ∨ inherited (toLowerCase method) = true)
  ∧ (∀ method, inherited (toLowerCase method) = true →
       _handles_method r method = true
       ∧ (RouteBuilt r → toUpperCase method ∉ _options r)).
Proof.
  split_and!.
  - intros Hr verb Hin. destruct (RouteBuilt_methods r Hr) as (_ & Hverbs & Htrue).
    unfold _options in Hin. apply list_elem_of_fmap in Hin as (k & -> & Hk).
    unfold _handles_method. destruct (methods_get r "_all"); [done|]. cbv zeta.
    assert (Hcases : k ∈ (route_methods r).*1
                     ∨ (k = "head" ∧ methods_get r "get" = true
                        ∧ methods_get r "head" = false)).
    { revert Hk.
      destruct (methods_get r "get" && negb (methods_get r "head")) eqn:Hhead;
        intros Hk; [|by left].
      apply elem_of_app in Hk as [Hk|Hk]; [by left|].
      apply list_elem_of_singleton in Hk as ->.
      apply andb_true_iff in Hhead as [Hget Hnohead]. right.
      split_and!; [done|done|]. by destruct (methods_get r "head"). }
    destruct Hcases as [Hown|(-> & Hget & Hnohead)].
    + rewrite toLowerCase_verb by auto.
      destruct (String.eqb_spec k "head") as [->|Hne]; simpl.
      * rewrite (Htrue "head" Hown). simpl. by rewrite (Htrue "head" Hown).
      * by rewrite (Htrue k Hown).
    + change (toLowerCase (toUpperCase "head")) with "head". simpl.
      rewrite Hnohead. simpl. by rewrite Hget.
  - intros Hall method. unfold _handles_method, _options. rewrite Hall. cbv zeta.
    rewrite <- (toUpperCase_toLowerCase method).
    destruct (String.eqb_spec (toLowerCase method) "head") as [Hl|Hne]; simpl.
    + rewrite Hl. destruct (methods_get r "head") eqn:Hhead; simpl.
      * intros _. left. rewrite andb_false_r.
        apply list_elem_of_fmap_2, assoc_elem_of.
        unfold methods_get in Hhead. by destruct (assoc "head" (route_methods r)).
      * change (inherited "get") with false. rewrite orb_false_r. intros ->.
        left. simpl. apply (list_elem_of_fmap_2 toUpperCase _ "head").
        apply elem_of_app. right. by apply list_elem_of_singleton.
    + intros [Hm|Hi]%orb_true_iff; [left|by right].
      apply list_elem_of_fmap_2.
      assert (toLowerCase method ∈ (route_methods r).*1).
      { apply assoc_elem_of. unfold methods_get in Hm.
        by destruct (assoc (toLowerCase method) (route_methods r)). }
      destruct (_ && _); [apply elem_of_app; by left|done].
  - intros method Hi. split.
    + unfold _handles_method. destruct (methods_get r "_all"); [done|]. cbv zeta.
      destruct (String.eqb_spec (toLowerCase method) "head") as [Hl|Hne]; simpl.
      * rewrite Hl in Hi. by vm_compute in Hi.
      * by rewrite Hi, orb_true_r.
    + intros Hr Hin. destruct (RouteBuilt_methods r Hr) as (_ & Hverbs & _).
      unfold _options in Hin. apply list_elem_of_fmap in Hin as (k & Hup & Hk).
      assert (Hk' : k ∈ "head" :: verb_keys).
      { revert Hk. destruct (_ && _); set_solver. }
      apply (f_equal toLowerCase) in Hup.
      assert (Hlow : toLowerCase (toUpperCase k) = k).
      { apply elem_of_cons in Hk' as [->|Hk']; [done|by apply toLowerCase_verb]. }
      rewrite Hlow, toLowerCase_toUpperCase in Hup. rewrite Hup in Hi.
      clear Hup Hlow Hk. unfold verb_keys in Hk'.
      rewrite !elem_of_cons, elem_of_nil in Hk'.
      destruct_or!; subst k; by vm_compute in Hi.
Qed.

Lemma Route_method_loop_stack r methodName query (fns : list Callee) rest :
  (∀ v, head rest = Some v → is_function v = false) →
  Route_method_loop r methodName query ((VFun <$> fns) ++ rest)
  = ({| route_path := route_path r;
        route_stack := route_stack r ++ (method_layer methodName query <$> fns);
        route_methods :=
          match fns with
          | [] => route_methods r
          | _ => assoc_set methodName true (route_methods r)
          end |},
     Route_error methodName <$> head rest).
Proof.
  intros Hrest. revert r. induction fns as [|fn fns IH]; intros r; csimpl.
  - rewrite app_nil_r. destruct rest as [|v rest]; [by destruct r|].
    specialize (Hrest v eq_refl). destruct v; try done; by destruct r.
  - rewrite IH. simpl. f_equal. f_equal.
    + by rewrite <- app_assoc.
    + destruct fns; [done|]. apply assoc_set_idem.
Qed.

(** X7. [route.get(f1, ..., fn)] and the other verb methods push one
    layer for each function, in the order given, after the layers the
    Route already has, each with the verb as its method ([undefined] for
    [all]) and the query condition of the call.  A value that is not a
    function stops the call with its error; the layers of the functions
    before it stay registered. *)
Theorem Route_method_pushes_in_order (r : Route) (methodName : string)
    (query : Arg) (fns : list Callee) (rest : list Arg) :
  (∀ v, head rest = Some v → is_function v = false) →
  (truthy query = true → is_function query = false →
   Route_method r methodName (query :: (VFun <$> fns) ++ rest)
   = ({| route_path := route_path r;
         route_stack := route_stack r ++ (method_layer methodName query <$> fns);
         route_methods :=
           match fns with
           | [] => route_methods r
           | _ => assoc_set methodName true (route_methods r)
           end |},
      Route_error methodName <$> head rest))
  ∧ (fns ≠ [] →
     Route_method r methodName ((VFun <$> fns) ++ rest)
     = ({| route_path := route_path r;
           route_stack := route_stack r ++ (method_layer methodName VUndefined <$> fns);
           route_methods := assoc_set methodName true (route_methods r) |},
        Route_error methodName <$> head rest)).
Proof.
  intros Hrest. split.
  - intros Ht Hf. unfold Route_method, shift_query. rewrite Ht, Hf. simpl.
    by apply Route_method_loop_stack.
  - intros Hne. destruct fns as [|fn fns]; [done|].
    exact (Route_method_loop_stack r methodName VUndefined (fn :: fns) rest Hrest).
Qed.

End VerbProofs.

(** * Route: the walk of [dispatch] *)

Section WalkProofs.
Context `{HostEnv}.

Lemma run_checker_no_handler c (expected : Arg) actual :
  handler_names (run_checker c expected actual).1 = [].
Proof. destruct c; try done. by destruct expected as [| | | | | | | |[]]. Qed.

Lemma query_every_no_handler (declared : Arg) checkers q keys :
  handler_names (query_every declared checkers q keys).1 = [].
Proof.
  induction keys as [|key keys IH]; simpl; [done|].
  destruct q as [q|]; [|done].
  destruct (assoc key checkers) as [chk|]; [|done].
  pose proof (run_checker_no_handler chk (get_prop declared key)
                (default VUndefined (assoc key q))) as Hc.
  destruct (run_checker chk _ _) as [log ok]. simpl in Hc.
  destruct ok; [|done].
  destruct (query_every declared checkers (Some q) keys) as [log' res].
  simpl in *. unfold handler_names in *. by rewrite omap_app, Hc, IH.
Qed.

Lemma queryMatch_no_handler {R} (l : Layer_ Callee R) q :
  handler_names (queryMatch l q).1 = [].
Proof.
  unfold queryMatch. destruct (layer__query l); [|done].
  apply query_every_no_handler.
Qed.

(** X8. A Route none of whose remaining layers is for the request -- each
    declares another verb, or a query condition the request fails --
    invokes no handler: the walk visits each of them once, calling only
    the query predicates of the layers whose verb fits, and then calls
    the Route's continuation with no signal, the context unchanged. *)
Theorem dispatch_passes_over_other_verbs (fr : RouteFrame) (ctx : Ctx)
    (frames : list Frame) (trace : list Event) :
  Forall (passed_over ctx (rf_method fr)) (drop (rf_idx fr) (rf_stack fr)) →
  run (S (length (drop (rf_idx fr) (rf_stack fr))))
    (mkMachine ctx (FRoute fr :: frames) (CRouteNext None) trace)
  = mkMachine ctx frames (CNext None)
      (trace ++ predicate_calls ctx (rf_method fr)
                  (drop (rf_idx fr) (rf_stack fr)))
  ∧ handler_names
      (predicate_calls ctx (rf_method fr) (drop (rf_idx fr) (rf_stack fr))) = [].
Proof.
  intros Hall. split.
  - remember (drop (rf_idx fr) (rf_stack fr)) as rest eqn:Hrest.
    revert fr trace Hrest Hall.
    induction rest as [|layer rest IH]; intros fr trace Hrest Hall.
    + symmetry in Hrest. apply drop_nil_inv in Hrest.
      simpl. unfold step, routeNext. simpl. rewrite Hrest. simpl.
      by rewrite !app_nil_r.
    + symmetry in Hrest. apply drop_cons_inv in Hrest as [Hl Hd].
      apply Forall_cons in Hall as [Hskip Hall].
      cbn [length]. rewrite run_S.
      assert (step (mkMachine ctx (FRoute fr :: frames) (CRouteNext None) trace)
              = mkMachine ctx
                  (FRoute {| rf_stack := rf_stack fr; rf_method := rf_method fr;
                             rf_idx := S (rf_idx fr) |} :: frames)
                  (CRouteNext None)
                  (trace ++ predicate_calls ctx (rf_method fr) [layer])) as ->.
      { unfold step, routeNext, predicate_calls. simpl. rewrite Hl.
        destruct (other_method layer (rf_method fr)) eqn:Ho; simpl; [done|].
        destruct Hskip as [?|Hq]; [congruence|].
        destruct (queryMatch layer (ctx_query ctx)) as [log res].
        simpl in Hq. subst res. simpl. by rewrite app_nil_r. }
      rewrite (IH {| rf_stack := rf_stack fr; rf_method := rf_method fr;
                     rf_idx := S (rf_idx fr) |}); [|by rewrite <- Hd|done].
      simpl. rewrite <- app_assoc. f_equal. f_equal.
      unfold predicate_calls. simpl. by rewrite app_nil_r.
  - unfold predicate_calls.
    induction (drop (rf_idx fr) (rf_stack fr)) as [|layer rest IH]; [done|].
    simpl. unfold handler_names in *. rewrite omap_app.
    apply Forall_cons in Hall as [_ Hall]. rewrite (IH Hall), app_nil_r.
    destruct (other_method layer (rf_method fr)); [done|].
    apply queryMatch_no_handler.
Qed.

(** X9. A Route whose remaining layers are all for the request, each
    with a handler that ends in [next()], invokes the handlers in the
    order of the stack, each on the context the one before left, and
    then calls the Route's continuation with no signal. *)
Theorem dispatch_runs_handlers_in_order (fr : RouteFrame) (fns : list UserFn)
    (ctx : Ctx) (frames : list Frame) (trace : list Event) :
  Forall2 (entered (rf_method fr)) (drop (rf_idx fr) (rf_stack fr)) fns →
  Forall always_next fns →
  run (3 * length fns + 1)
    (mkMachine ctx (FRoute fr :: frames) (CRouteNext None) trace)
  = mkMachine (thread_handlers fns ctx).1 frames (CNext None)
      (trace ++ (thread_handlers fns ctx).2).
Proof.
  revert fr ctx trace. induction fns as [|f fns IH]; intros fr ctx trace Hall Hnext.
  - apply Forall2_nil_inv_r in Hall. apply drop_nil_inv in Hall.
    simpl. unfold step, routeNext. simpl. rewrite Hall. simpl.
    by rewrite !app_nil_r.
  - apply Forall2_cons_inv_r in Hall as (layer & rest & Hent & Hall & Hd).
    apply drop_cons_inv in Hd as [Hl Hd].
    destruct Hent as (Hhandle & Hverb & Hquery & Hlen).
    apply Forall_cons in Hnext as [Hf Hnext].
    replace (3 * length (f :: fns) + 1) with (S (S (S (3 * length fns + 1))))
      by (simpl; lia).
    cbn [run].
    assert (step (mkMachine ctx (FRoute fr :: frames) (CRouteNext None) trace)
            = mkMachine ctx
                (FRoute {| rf_stack := rf_stack fr; rf_method := rf_method fr;
                           rf_idx := S (rf_idx fr) |} :: frames)
                (CInvoke (User f)) trace) as ->.
    { unfold step, routeNext. simpl. rewrite Hl, Hverb.
      unfold queryMatch. rewrite Hquery. simpl. rewrite app_nil_r.
      unfold handle_request_call, handle_request. rewrite Hhandle. simpl.
      by rewrite (proj2 (Nat.ltb_ge _ _) Hlen). }
    unfold step at 2. simpl.
    pose proof (Hf ctx []) as Hact.
    destruct (uf_call f ctx []) as [ctx' act] eqn:Hcall. simpl in Hact. subst act.
    unfold step at 1. simpl.
    rewrite IH; [|simpl; by rewrite Hd|done]. simpl.
    destruct (thread_handlers fns ctx') as [ctx'' log]. simpl.
    by rewrite <- app_assoc.
Qed.

(** X5. [dispatch] picks the verb once, the request's verb in lower
    case, or [get] for a HEAD request on a Route that declares no [head]
    handler; from then on [routeNext] invokes a layer only if the layer
    is the one [idx] points at, declares that verb or none, and has a
    query condition the request passes. *)
Theorem dispatch_invokes_only_its_verb (r : Route) (ctx0 ctx : Ctx)
    (fr f : RouteFrame) (signal : option string) (layer : RouteLayer) :
  Route_dispatch r ctx0 = Some fr →
  rf_method f = rf_method fr →
  (routeNext f ctx signal).2 = RHandle layer →
  rf_method fr
  = (if String.eqb (toLowerCase (ctx_method ctx0)) "head"
        && negb (methods_get r "head")
     then "get" else toLowerCase (ctx_method ctx0))
  ∧ rf_stack f !! rf_idx f = Some layer
  ∧ (queryMatch layer (ctx_query ctx)).2 = Ret true
  ∧ (∀ verb, layer_method layer = Some verb → verb ≠ EmptyString →
       verb = rf_method fr).
Proof.
  intros Hd Hm. unfold Route_dispatch in Hd.
  destruct (length (route_stack r) =? 0)%nat; [done|]. injection Hd as <-.
  simpl in *. unfold routeNext.
  repeat case_bool_decide; try done.
  destruct (rf_stack f !! rf_idx f) as [l0|]; [|done].
  destruct (other_method l0 (rf_method f)) eqn:Ho; [done|].
  destruct (queryMatch l0 (ctx_query ctx)) as [log [[]|e]] eqn:Hq; try done.
  simpl. intros [= ->]. rewrite Hq. split_and!; try done.
  intros verb Hv Hne. unfold other_method in Ho. rewrite Hv in Ho.
  destruct (String.eqb_spec verb EmptyString); [done|]. simpl in Ho.
  rewrite <- Hm. by destruct (String.eqb_spec verb (rf_method f)).
Qed.

End WalkProofs.

(** * Strings of the URL arithmetic *)

Section StringFacts.

Lemma append_cons c s t : String c s +:+ t = String c (s +:+ t).
Proof. done. Qed.

Lemma append_nil_l s : EmptyString +:+ s = s.
Proof. done. Qed.

Lemma append_assoc s t u : (s +:+ t) +:+ u = s +:+ (t +:+ u).
Proof.
  induction s as [|c s IH]; [done|]. by rewrite !append_cons, IH.
Qed.

Lemma length_append s t :
  String.length (s +:+ t) = String.length s + String.length t.
Proof.
  induction s as [|c s IH]; [done|]. rewrite append_cons. simpl. by rewrite IH.
Qed.

Lemma substring_all s : String.substring 0 (String.length s) s = s.
Proof. induction s as [|c s IH]; simpl; [done|by rewrite IH]. Qed.

Lemma substr_from_0 s : substr_from 0 s = s.
Proof. unfold substr_from. rewrite Nat.sub_0_r. apply substring_all. Qed.

Lemma substr_from_cons n c s : substr_from (S n) (String c s) = substr_from n s.
Proof. done. Qed.

(** [(a + b).substr(a.length)] is [b]. *)
Lemma substr_from_append a b : substr_from (String.length a) (a +:+ b) = b.
Proof.
  induction a as [|c a IH]; [apply substr_from_0|].
  rewrite append_cons. simpl String.length. by rewrite substr_from_cons.
Qed.

(** [s.substr(0, n) + s.substr(s.substr(0, n).length)] is [s]. *)
Lemma substring_rest n s :
  String.substring 0 n s
    +:+ substr_from (String.length (String.substring 0 n s)) s = s.
Proof.
  revert n. induction s as [|c s IH]; intros [|n]; try done.
  - simpl. by rewrite append_nil_l, substr_from_0.
  - simpl String.substring. simpl String.length. rewrite append_cons.
    by rewrite substr_from_cons, IH.
Qed.

End StringFacts.

(** * index.js: the helpers *)

Section HelperProofs.
Context `{HostEnv}.

Lemma appendMethods_cons methods m addition :
  appendMethods methods (m :: addition)
  = appendMethods (if bool_decide (m ∈ methods) then methods else methods ++ [m])
      addition.
Proof. done. Qed.

Lemma appendMethods_spec (methods addition : list string) :
  methods `prefix_of` appendMethods methods addition
  ∧ (∀ m, m ∈ appendMethods methods addition ↔ m ∈ methods ∨ m ∈ addition)
  ∧ (NoDup methods → NoDup (appendMethods methods addition)).
Proof.
  revert methods. induction addition as [|a addition IH]; intros methods.
  - split_and!; [done|set_solver|done].
  - rewrite appendMethods_cons. case_bool_decide as Ha.
    + destruct (IH methods) as (Hp & Hin & Hnd). split_and!; [done| |done].
      intros m. rewrite Hin. set_solver.
    + destruct (IH (methods ++ [a])) as (Hp & Hin & Hnd). split_and!.
      * by eapply prefix_app_l.
      * intros m. rewrite Hin. set_solver.
      * intros Hm. apply Hnd, NoDup_app. split_and!; [done| |apply NoDup_singleton].
        intros x Hx ->%list_elem_of_singleton. done.
Qed.

Lemma appendMethods_known (methods addition : list string) :
  (∀ m, m ∈ addition → m ∈ methods) → appendMethods methods addition = methods.
Proof.
  induction addition as [|a addition IH]; intros Hin; [done|].
  rewrite appendMethods_cons, bool_decide_eq_true_2 by (apply Hin; set_solver).
  apply IH. intros m Hm. apply Hin. set_solver.
Qed.

(** X10. [appendMethods] is a union that keeps order: the verbs already
    gathered stay where they are, a verb is in the result exactly when it
    was gathered or is added, a verb gathered once is never listed
    twice, and adding the same verbs again changes nothing. *)
Theorem appendMethods_is_ordered_union (methods addition : list string) :
  methods `prefix_of` appendMethods methods addition
  ∧ (∀ m, m ∈ appendMethods methods addition ↔ m ∈ methods ∨ m ∈ addition)
  ∧ (NoDup methods → NoDup (appendMethods methods addition))
  ∧ appendMethods (appendMethods methods addition) addition
    = appendMethods methods addition.
Proof.
  destruct (appendMethods_spec methods addition) as (Hprefix & Hin & Hnd).
  split_and!; [done|done|done|].
  apply appendMethods_known. intros m Hm. apply Hin. by right.
Qed.

(** X11. [getProtohost] answers [undefined] for an empty URL and for one
    that starts with a slash; what it answers otherwise is a prefix of
    the URL, so that [protohost + url.substr(protohost.length)] is the
    URL again; and for a URL with a scheme but no slash after the host it
    is the empty string. *)
Theorem getProtohost_is_a_prefix (url : string) :
  (url = EmptyString ∨ String.get 0 url = Some "/"%char → getProtohost url = None)
  ∧ (∀ protohost, getProtohost url = Some protohost →
       protohost +:+ substr_from (String.length protohost) url = url)
  ∧ (∀ i, String.index 0 "://"
            (String.substring 0
               (default (String.length url) (String.index 0 "?" url)) url) = Some i →
          String.index (3 + i) "/" url = None →
          String.get 0 url ≠ Some "/"%char →
          getProtohost url = Some EmptyString).
Proof.
  unfold getProtohost. split_and!.
  - intros [->|Hg]; [done|]. rewrite (bool_decide_eq_true_2 _ Hg).
    by rewrite orb_true_r.
  - intros protohost. destruct (_ || _); [done|].
    destruct (String.index 0 "://" _) as [fqdnIndex|]; [|done].
    intros [= <-]. simpl.
    destruct (String.index (S (S (S fqdnIndex))) "/" url) as [slash|].
    + apply substring_rest.
    + apply substr_from_0.
  - intros i Hi Hslash Hfirst.
    assert (Hlen : (String.length url =? 0)%nat = false).
    { destruct url; [by vm_compute in Hi|done]. }
    rewrite Hlen, (bool_decide_eq_false_2 _ Hfirst). cbn [orb]. cbv zeta.
    by rewrite Hi, Hslash.
Qed.

(** X12. What [trim_prefix] cuts, [router_next] puts back.  When the URL
    is the protocol and host, then the matched prefix, then a rest, the
    handler sees the rest after the protocol and host -- with a slash put
    in front when there is neither -- and a base URL longer by the
    prefix without its trailing slash; the head of the next
    [router_next] restores the context [trim_prefix] was given. *)
Theorem trim_prefix_then_restore_url (f : RouterFrame) (ctx : Ctx)
    (layer : Layer) (layerPath path rest : string) :
  hf_removed f = EmptyString → hf_slashAdded f = false →
  ctx_url ctx = he_protohost (hf_env f) +:+ layerPath +:+ rest →
  ctx_baseUrl ctx = Some (he_parentUrl (hf_env f)) →
  let '(f', ctx', call) := trim_prefix f ctx layer layerPath path in
  restore_url f' ctx' = ctx
  ∧ (hf_removed f' ≠ EmptyString →
     ctx_url ctx'
     = (if (String.length (he_protohost (hf_env f)) =? 0)%nat
           && negb (bool_decide
                      (String.get 0 (he_protohost (hf_env f) +:+ rest)
                       = Some "/"%char))
        then "/" +:+ rest else he_protohost (hf_env f) +:+ rest)
     ∧ ctx_baseUrl ctx'
       = Some (he_parentUrl (hf_env f) +:+ without_trailing_slash layerPath)).
Proof.
  intros Hremoved Hslash Hurl Hbase.
  assert (Hsame : restore_url f ctx = ctx).
  { unfold restore_url. by rewrite Hslash, Hremoved. }
  assert (Hrest :
    substr_from (String.length (he_protohost (hf_env f)) + String.length layerPath)
      (ctx_url ctx) = rest).
  { rewrite Hurl, <- length_append, <- append_assoc. apply substr_from_append. }
  unfold trim_prefix. rewrite Hrest.
  destruct (String.length layerPath =? 0)%nat eqn:Hlen; simpl;
    [by split; [|rewrite Hremoved]|].
  assert (Htrimmed :
    ∀ (slash : bool) url',
      url' = (if slash then "/" +:+ rest else he_protohost (hf_env f) +:+ rest) →
      (slash = true → he_protohost (hf_env f) = EmptyString) →
      restore_url
        {| hf_env := hf_env f; hf_idx := hf_idx f; hf_removed := layerPath;
           hf_slashAdded := if slash then true else hf_slashAdded f;
           hf_paramcalled := hf_paramcalled f; hf_options := hf_options f |}
        (ctx_set_baseUrl (ctx_set_url ctx url')
           (Some (he_parentUrl (hf_env f) +:+
                  (if bool_decide (last_char layerPath = Some "/"%char)
                   then String.substring 0 (String.length layerPath - 1) layerPath
                   else layerPath))))
      = ctx).
  { intros slash url' -> Hproto. unfold restore_url. simpl. rewrite Hlen. simpl.
    destruct ctx. simpl in *. subst. unfold ctx_set_url, ctx_set_baseUrl. simpl.
    destruct slash; simpl.
    - rewrite Hproto by done. f_equal.
      by rewrite append_cons, substr_from_cons, !append_nil_l, !substr_from_0.
    - rewrite Hslash. simpl. f_equal. by rewrite substr_from_append. }
  assert (Hgoal :
    let slash :=
      (String.length (he_protohost (hf_env f)) =? 0)%nat
      && negb (bool_decide
                 (String.get 0 (he_protohost (hf_env f) +:+ rest) = Some "/"%char)) in
    let url := he_protohost (hf_env f) +:+ rest in
    restore_url
      {| hf_env := hf_env f; hf_idx := hf_idx f; hf_removed := layerPath;
         hf_slashAdded := if slash then true else hf_slashAdded f;
         hf_paramcalled := hf_paramcalled f; hf_options := hf_options f |}
      (ctx_set_baseUrl (ctx_set_url ctx (if slash then "/" +:+ url else url))
         (Some (he_parentUrl (hf_env f) +:+
                (if bool_decide (last_char layerPath = Some "/"%char)
                 then String.substring 0 (String.length layerPath - 1) layerPath
                 else layerPath))))
    = ctx).
  { cbv zeta. apply Htrimmed.
    - destruct (String.length (he_protohost (hf_env f)) =? 0)%nat eqn:Hp; simpl;
        [|done].
      destruct (he_protohost (hf_env f)); [|done]. simpl.
      by destruct (negb _).
    - intros [Hp _]%andb_true_iff. by destruct (he_protohost (hf_env f)). }
  assert (Hseen :
    (if (String.length (he_protohost (hf_env f)) =? 0)%nat
        && negb (bool_decide
                   (String.get 0 (he_protohost (hf_env f) +:+ rest) = Some "/"%char))
     then "/" +:+ (he_protohost (hf_env f) +:+ rest)
     else he_protohost (hf_env f) +:+ rest)
    = (if (String.length (he_protohost (hf_env f)) =? 0)%nat
          && negb (bool_decide
                     (String.get 0 (he_protohost (hf_env f) +:+ rest) = Some "/"%char))
       then "/" +:+ rest else he_protohost (hf_env f) +:+ rest)).
  { destruct (String.length (he_protohost (hf_env f)) =? 0)%nat eqn:Hp; simpl;
      [|done].
    by destruct (he_protohost (hf_env f)). }
  cbv zeta in Hgoal.
  destruct (String.get (String.length layerPath) path) as [c|]; simpl.
  - destruct (negb (Ascii.eqb c "/") && negb (Ascii.eqb c ".")); simpl.
    + by split; [|rewrite Hremoved].
    + split; [exact Hgoal|]. intros _. by rewrite Hseen.
  - split; [exact Hgoal|]. intros _. by rewrite Hseen.
Qed.

End HelperProofs.

(** * index.js: the scan of [router_next] *)

Section ScanProofs.
Context `{HostEnv}.

Lemma restore_url_method f ctx : ctx_method (restore_url f ctx) = ctx_method ctx.
Proof.
  unfold restore_url. destruct (hf_slashAdded f); by destruct (negb _).
Qed.

(** The loop of [router_next]: [options] only grows, by verbs it does not
    hold yet and on [OPTIONS] requests only; [idx] moves forward by at
    least one layer and stops within the layers given. *)
Lemma scan_stack_spec path ctx rest idx options :
  let '(idx', options', _, found) := scan_stack path ctx rest idx options in
  options `prefix_of` options'
  ∧ (NoDup options → NoDup options')
  ∧ (ctx_method ctx ≠ "OPTIONS" → options' = options)
  ∧ idx ≤ idx' ≤ idx + length rest
  ∧ (rest ≠ [] → idx < idx')
  ∧ (found = Ret None → idx' = idx + length rest).
Proof.
  revert idx options. induction rest as [|layer rest IH]; intros idx options.
  { simpl. split_and!; (done || lia). }
  cbn [scan_stack].
  destruct (Layer_match layer (Some path) (ctx_query ctx)) as [[l1 log1] matched].
  assert (Hcont : ∀ opts,
    options `prefix_of` opts → (NoDup options → NoDup opts) →
    (ctx_method ctx ≠ "OPTIONS" → opts = options) →
    let '(idx', options', _, found) :=
      (let '(idx', options', log', found) := scan_stack path ctx rest (S idx) opts in
       (idx', options', log1 ++ log', found)) in
    options `prefix_of` options'
    ∧ (NoDup options → NoDup options')
    ∧ (ctx_method ctx ≠ "OPTIONS" → options' = options)
    ∧ idx ≤ idx' ≤ idx + length (layer :: rest)
    ∧ (layer :: rest ≠ [] → idx < idx')
    ∧ (found = Ret None → idx' = idx + length (layer :: rest))).
  { intros opts Hp Hnd Hsame. specialize (IH (S idx) opts).
    destruct (scan_stack path ctx rest (S idx) opts) as [[[idx' options'] log'] found].
    destruct IH as (Hp' & Hnd' & Hsame' & Hidx & _ & Hnone). simpl.
    split_and!; try lia.
    - by etrans.
    - auto.
    - intros Hm. rewrite Hsame' by done. auto.
    - intros Hf. rewrite Hnone by done. lia. }
  assert (Hstop : ∀ opts (found : Res (option Layer)),
    options `prefix_of` opts → (NoDup options → NoDup opts) →
    (ctx_method ctx ≠ "OPTIONS" → opts = options) →
    found ≠ Ret None →
    options `prefix_of` opts
    ∧ (NoDup options → NoDup opts)
    ∧ (ctx_method ctx ≠ "OPTIONS" → opts = options)
    ∧ idx ≤ S idx ≤ idx + length (layer :: rest)
    ∧ (layer :: rest ≠ [] → idx < S idx)
    ∧ (found = Ret None → S idx = idx + length (layer :: rest))).
  { intros opts found Hp Hnd Hsame Hf. simpl. split_and!; try done; lia. }
  destruct matched as [[]|e]; [|by apply Hcont|by apply Hstop].
  destruct (layer_route l1) as [route|]; [|by apply Hstop].
  set (opts := if negb (_handles_method route (ctx_method ctx))
                  && String.eqb (ctx_method ctx) "OPTIONS"
               then appendMethods options (_options route) else options).
  assert (Hopts : options `prefix_of` opts ∧ (NoDup options → NoDup opts)
                  ∧ (ctx_method ctx ≠ "OPTIONS" → opts = options)).
  { unfold opts. destruct (String.eqb_spec (ctx_method ctx) "OPTIONS") as [Hm|Hm].
    - destruct (negb _); simpl; [|done].
      destruct (appendMethods_spec options (_options route)) as (? & _ & ?).
      by split_and!.
    - by rewrite andb_false_r. }
  destruct Hopts as (Hp & Hnd & Hsame).
  destruct (negb (_handles_method route (ctx_method ctx))
            && negb (String.eqb (ctx_method ctx) "HEAD"));
    [by apply Hcont|by apply Hstop].
Qed.

(** X13. The verbs [router_next] gathers for an [OPTIONS] answer: what
    was gathered stays, in place; a list without repetition stays
    without repetition; and a request of any other verb gathers
    nothing. *)
Theorem router_next_gathers_each_verb_once (f : RouterFrame) (ctx : Ctx)
    (signal : option string) :
  hf_options f `prefix_of` hf_options (router_next f ctx signal).1.1.1
  ∧ (NoDup (hf_options f) → NoDup (hf_options (router_next f ctx signal).1.1.1))
  ∧ (ctx_method ctx ≠ "OPTIONS" →
     hf_options (router_next f ctx signal).1.1.1 = hf_options f).
Proof.
  unfold router_next. destruct (_ || _); [done|].
  destruct (parseUrl_pathname _) as [path|]; [|done].
  pose proof (scan_stack_spec path (restore_url f ctx)
                (drop (hf_idx f) (router_stack (he_self (hf_env f))))
                (hf_idx f) (hf_options f)) as Hs.
  destruct (scan_stack _ _ _ _ _) as [[[idx options] log] found].
  rewrite restore_url_method in Hs. destruct Hs as (Hp & Hnd & Hsame & _).
  destruct found as [[layer|]|e]; try done.
  by destruct (layer_params layer), (layer_path layer).
Qed.


End ScanProofs.

(** * mergeParams, for every pair of mappings *)

Section MergeAllProofs.


End MergeAllProofs.

(** * index.js: registration *)

Section RegistrationProofs.
Context `{HostEnv}.

Lemma flatten_functions (fns : list Callee) : flatten (VFun <$> fns) = VFun <$> fns.
Proof. induction fns as [|fn fns IH]; [done|]. simpl. by f_equal. Qed.

Lemma flatten_app {F} (xs ys : list (jsval F)) :
  flatten (xs ++ ys) = flatten xs ++ flatten ys.
Proof. unfold flatten. apply flat_map_app. Qed.

(** What [array-flatten] returns holds no array: flattening it again
    changes nothing. *)
Lemma flatten_val_flat {F} (v : jsval F) : flatten (flatten_val v) = flatten_val v.
Proof.
  revert v. fix IH 1. intros [| | | | | |xs| |]; try reflexivity.
  simpl. revert xs. fix IHxs 1. intros [|x xs]; [reflexivity|].
  simpl. rewrite flatten_app, IH. f_equal. apply IHxs.
Qed.

Lemma flatten_flat {F} (xs : list (jsval F)) : flatten (flatten xs) = flatten xs.
Proof.
  induction xs as [|x xs IH]; [done|].
  change (flatten (x :: xs)) with (flatten_val x ++ flatten xs).
  by rewrite flatten_app, flatten_val_flat, IH.
Qed.

(** [firstArg.every(one => typeof one === 'string' || one instanceof RegExp)] *)
Lemma use_arguments_path (p : Arg) (rest : list Arg) :
  forallb is_string_or_regexp (match p with VArr xs => xs | _ => [p] end) = true →
  use_arguments (p :: rest)
  = (p, (shift_query (flatten rest)).1, (shift_query (flatten rest)).2).
Proof.
  intros Hp. unfold use_arguments. simpl. rewrite Hp.
  by destruct (shift_query (flatten rest)).
Qed.

Lemma prefixed_path_string (p : string) (fn : Callee) :
  prefixed_path (VStr p) fn = Ret (mount_path p fn).
Proof. unfold prefixed_path, mount_path. by destruct (mounted_prefix fn). Qed.

Lemma Router_use_loop_stack self (p : string) query (fns : list Callee) rest :
  (∀ v, head rest = Some v → is_function v = false) →
  Router_use_loop self (VStr p) query ((VFun <$> fns) ++ rest)
  = ({| router_params := router_params self;
        router_caseSensitive := router_caseSensitive self;
        router_mergeParams := router_mergeParams self;
        router_strict := router_strict self;
        router_prefix := router_prefix self;
        router_stack :=
          router_stack self
            ++ ((fun fn => use_layer self (mount_path p fn) query fn) <$> fns) |},
     Router_use_error <$> head rest).
Proof.
  intros Hrest. revert self.
  induction fns as [|fn fns IH]; intros self; csimpl.
  - rewrite app_nil_r. destruct rest as [|v rest]; [by destruct self|].
    specialize (Hrest v eq_refl). destruct v; try done; by destruct self.
  - rewrite prefixed_path_string, IH. simpl. f_equal. f_equal.
    by rewrite <- app_assoc.
Qed.

(** X16. [router.use(path, f1, ..., fn)] with a string path, with or
    without a query object after the path, pushes one layer for each
    function, in the order given, after the layers the Router already
    has.  A function is mounted at [path]; a router function with a
    prefix is mounted at [path] joined with the prefix, a slash that ends
    [path] giving way to one that starts the prefix.  Each layer has no
    Route and carries the query condition of the call; nothing else of
    the Router changes.  A value that is not a function stops the call
    with its error, and the layers of the functions before it stay. *)
Theorem Router_use_pushes_in_order (self : Router) (path : string) (query : Arg)
    (fns : list Callee) (rest : list Arg) :
  fns ≠ [] →
  flatten rest = rest →
  (∀ v, head rest = Some v → is_function v = false) →
  (truthy query = true → is_function query = false → flatten [query] = [query] →
   Router_use self (VStr path :: query :: (VFun <$> fns) ++ rest)
   = ({| router_params := router_params self;
         router_caseSensitive := router_caseSensitive self;
         router_mergeParams := router_mergeParams self;
         router_strict := router_strict self;
         router_prefix := router_prefix self;
         router_stack :=
           router_stack self
             ++ ((fun fn => use_layer self (mount_path path fn) query fn)
                   <$> fns) |},
      Router_use_error <$> head rest))
  ∧ Router_use self (VStr path :: (VFun <$> fns) ++ rest)
    = ({| router_params := router_params self;
          router_caseSensitive := router_caseSensitive self;
          router_mergeParams := router_mergeParams self;
          router_strict := router_strict self;
          router_prefix := router_prefix self;
          router_stack :=
            router_stack self
              ++ ((fun fn => use_layer self (mount_path path fn) VUndefined fn)
                    <$> fns) |},
       Router_use_error <$> head rest)
  ∧ (∀ fn, mount_path path fn
           = match fn_router fn ≫= router_prefix with
             | None | Some EmptyString => VStr path
             | Some prefix =>
                 VStr ((if bool_decide (last_char path = Some "/"%char)
                           && bool_decide (String.get 0 prefix = Some "/"%char)
                        then String.substring 0 (String.length path - 1) path
                        else path) +:+ prefix)
             end).
Proof.
  intros Hne Hflat Hrest.
  assert (Hlen : ∀ q, (length ((VFun (F := Callee) <$> fns) ++ q) =? 0)%nat = false).
  { intros q. by destruct fns. }
  split_and!.
  - intros Ht Hf Hq. unfold Router_use. rewrite use_arguments_path by done.
    change (query :: (VFun <$> fns) ++ rest)
      with ([query] ++ ((VFun <$> fns) ++ rest)).
    rewrite !flatten_app, Hq, flatten_functions, Hflat. simpl.
    unfold shift_query. rewrite Ht, Hf. simpl. rewrite Hlen.
    by apply Router_use_loop_stack.
  - unfold Router_use. rewrite use_arguments_path by done.
    rewrite !flatten_app, flatten_functions, Hflat.
    destruct fns as [|fn fns]; [done|].
    change (shift_query ((VFun <$> fn :: fns) ++ rest))
      with (VUndefined (F := Callee), (VFun <$> fn :: fns) ++ rest).
    cbn [fst snd]. rewrite Hlen.
    by apply Router_use_loop_stack.
  - intros fn. unfold mount_path, mounted_prefix.
    destruct (fn_router fn ≫= router_prefix) as [[|c prefix]|]; done.
Qed.

Lemma use_layer_root_matches (self : Router) (fn : Callee) (p : string)
    (q : option (list (string * value))) :
  Layer_match (use_layer self (VStr "/") VUndefined fn) (Some p) q
  = (set_scratch (use_layer self (VStr "/") VUndefined fn) (Some ∅)
       (Some EmptyString), [], Ret true).
Proof.
  unfold use_layer, Layer_new.
  destruct (pathRegexp (VStr "/") _) as [re keys]. done.
Qed.

(** X17. [router.use(f1, ..., fn)] without a path mounts at ["/"]: it
    pushes one layer for each function, mounted at ["/"], or at its
    prefix for a router function that has one.  A layer mounted at
    ["/"], which is the layer of every function that is not a router
    with a prefix, matches every path and every query, leaving empty
    [params] and the empty string as the matched prefix, so nothing is
    trimmed from the URL the function sees. *)
Theorem use_without_path_matches_every_request (self : Router)
    (fns : list Callee) :
  fns ≠ [] →
  Router_use self (VFun <$> fns)
  = ({| router_params := router_params self;
        router_caseSensitive := router_caseSensitive self;
        router_mergeParams := router_mergeParams self;
        router_strict := router_strict self;
        router_prefix := router_prefix self;
        router_stack :=
          router_stack self
            ++ ((fun fn => use_layer self (mount_path "/" fn) VUndefined fn)
                  <$> fns) |},
     None)
  ∧ (∀ fn, mounted_prefix fn = None → mount_path "/" fn = VStr "/")
  ∧ (∀ fn prefix, mounted_prefix fn = Some prefix →
       mount_path "/" fn
       = VStr (if bool_decide (String.get 0 prefix = Some "/"%char)
               then prefix else "/" +:+ prefix))
  ∧ ∀ fn p q,
      Layer_match (use_layer self (VStr "/") VUndefined fn) (Some p) q
      = (set_scratch (use_layer self (VStr "/") VUndefined fn) (Some ∅)
           (Some EmptyString), [], Ret true).
Proof.
  intros Hne. split_and!; [| | |apply use_layer_root_matches].
  - assert (Hargs : use_arguments (VFun <$> fns)
                    = (VStr "/", VUndefined, VFun (F := Callee) <$> fns)).
    { destruct fns as [|fn fns]; [done|].
      pose proof (flatten_functions (fn :: fns)) as Hflat.
      unfold use_arguments. cbn [fmap list_fmap head default forallb
        is_string_or_regexp andb id] in *.
      by rewrite Hflat. }
    unfold Router_use. rewrite Hargs.
    assert (Hlen : (length (VFun (F := Callee) <$> fns) =? 0)%nat = false)
      by by destruct fns.
    rewrite Hlen.
    assert (Hrest : ∀ v : Arg, head (@nil Arg) = Some v → is_function v = false)
      by done.
    pose proof (Router_use_loop_stack self "/" VUndefined fns [] Hrest) as Hl.
    rewrite app_nil_r in Hl. by apply Hl.
  - intros fn Hp. unfold mount_path. by rewrite Hp.
  - intros fn prefix Hp. unfold mount_path. rewrite Hp. simpl.
    by case_bool_decide.
Qed.

(** X24. [router.use] flattens its middleware arguments: after a path,
    arrays of functions nested to any depth are registered as the flat
    list of their elements, in order. *)
Theorem use_flattens_nested_arrays (self : Router) (path : Arg)
    (middlewares : list Arg) :
  forallb is_string_or_regexp (match path with VArr xs => xs | _ => [path] end)
  = true →
  Router_use self (path :: middlewares)
  = Router_use self (path :: flatten middlewares).
Proof.
  intros Hpath. unfold Router_use.
  by rewrite !use_arguments_path, flatten_flat by done.
Qed.

Lemma Router_param_error self name shown (fns : list Callee) v rest :
  is_function v = false →
  inherited_key name = false →
  Router_param self name shown ((VFun <$> fns) ++ v :: rest)
  = ((Router_param self name shown (VFun <$> fns)).1,
     Some (Error ("invalid param() call for " +:+ shown +:+ ", got "
                  +:+ inspect v))).
Proof.
  intros Hv Hname. revert self.
  induction fns as [|fn fns IH]; intros self; csimpl.
  - by destruct v.
  - rewrite Hname. apply IH.
Qed.

Lemma Router_param_rest self name shown (fns : list Callee) :
  inherited_key name = false →
  (Router_param self name shown (VFun <$> fns)).2 = None
  ∧ router_stack (Router_param self name shown (VFun <$> fns)).1 = router_stack self
  ∧ router_prefix (Router_param self name shown (VFun <$> fns)).1
    = router_prefix self
  ∧ ∀ other, other ≠ name →
      router_params (Router_param self name shown (VFun <$> fns)).1 !! other
      = router_params self !! other.
Proof.
  intros Hname. revert self.
  induction fns as [|fn fns IH]; intros self; csimpl; [done|].
  rewrite Hname.
  destruct (IH {| router_params :=
                    <[name := default [] (router_params self !! name) ++ [fn]]>
                      (router_params self);
                  router_caseSensitive := router_caseSensitive self;
                  router_mergeParams := router_mergeParams self;
                  router_strict := router_strict self;
                  router_prefix := router_prefix self;
                  router_stack := router_stack self |})
    as (He & Hs & Hp & Ho).
  split_and!; try done.
  intros other Hne. rewrite Ho by done. simpl. by rewrite lookup_insert_ne.
Qed.

(** X18. For a name that [Object.prototype] does not hold,
    [router.param(name, f1, ..., fn)] adds the functions, in order, after
    the callbacks [name] already has, and touches neither the callbacks
    of other names nor the layers; a value that is not a function stops
    the call with an [Error] naming the parameter, and the functions
    before it stay registered.  For a name that [Object.prototype] holds,
    such as ["constructor"], the first function makes the call throw a
    [TypeError], no callback being registered, and a first value that is
    not a function throws the [Error] naming the parameter. *)
Theorem Router_param_registers_until_error (self : Router) (name : PKey)
    (shown : string) (fns : list Callee) (v : Arg) (rest : list Arg) :
  is_function v = false →
  (inherited_key name = false →
   let self' := (Router_param self name shown ((VFun <$> fns) ++ v :: rest)).1 in
   (Router_param self name shown ((VFun <$> fns) ++ v :: rest)).2
   = Some (Error ("invalid param() call for " +:+ shown +:+ ", got "
                  +:+ inspect v))
   ∧ router_params self' !! name
     = match fns with
       | [] => router_params self !! name
       | _ => Some (default [] (router_params self !! name) ++ fns)
       end
   ∧ (∀ other, other ≠ name →
        router_params self' !! other = router_params self !! other)
   ∧ router_stack self' = router_stack self
   ∧ (Router_param self name shown (VFun <$> fns)).2 = None)
  ∧ (inherited_key name = true →
     (∀ fn more,
        Router_param self name shown (VFun fn :: more)
        = (self, Some (TypeError "this.params[name].push is not a function")))
     ∧ Router_param self name shown (v :: rest)
       = (self, Some (Error ("invalid param() call for " +:+ shown +:+ ", got "
                             +:+ inspect v)))).
Proof.
  intros Hv. split.
  - intros Hname self'. unfold self'. rewrite Router_param_error by done. simpl.
    destruct (Router_param_rest self name shown fns Hname) as (He & Hs & _ & Ho).
    split_and!; try done. by apply Router_param_appends.
  - intros Hname. split.
    + intros fn more. simpl. by rewrite Hname.
    + by destruct v.
Qed.

(** X19. [routes()] is the function [router], whose [.router] is the
    Router itself.  [routes(false)] on a Router with a prefix wraps it:
    the result belongs to a fresh Router, made by [new Router()] from
    whatever [Router.defaultOptions] holds at that time, whose one layer
    mounts the Router at its prefix, with a leading slash. *)
Theorem routes_wraps_a_prefixed_router (defaults : DefaultOptions)
    (self : Router) (prefix : string) :
  routes defaults self true = RouterFn self
  ∧ (mounted_prefix (RouterFn self) = None →
     routes defaults self false = RouterFn self)
  ∧ (router_prefix self = Some prefix → prefix ≠ EmptyString →
     let wrapper :=
       {| router_params := ∅;
          router_caseSensitive := d_caseSensitive defaults;
          router_mergeParams := d_mergeParams defaults;
          router_strict := d_strict defaults;
          router_prefix := d_prefix defaults;
          router_stack := [] |} in
     let mounted :=
       if bool_decide (String.get 0 prefix = Some "/"%char)
       then prefix else "/" +:+ prefix in
     routes defaults self false
     = RouterFn
         (push_layer wrapper
            (use_layer wrapper (VStr mounted) VUndefined (RouterFn self)))).
Proof.
  split_and!.
  - done.
  - intros Hp. unfold routes. by rewrite Hp.
  - intros Hp Hne wrapper mounted.
    assert (Hm : mounted_prefix (RouterFn self) = Some prefix).
    { unfold mounted_prefix. simpl. rewrite Hp.
      by destruct (String.eqb_spec prefix EmptyString). }
    unfold routes. rewrite Hm. simpl.
    unfold Router_use, use_arguments. simpl.
    unfold prefixed_path. rewrite Hm. simpl.
    unfold mounted. by case_bool_decide.
Qed.

(** X15. A verb method of the Router ([router.get(path, ...)] and the
    like) pushes exactly one layer, which owns a new Route for [path] and
    dispatches to it; the functions given become the layers of that
    Route, in order.  When a value that is not a function stops the call
    with its error, the layer has been pushed all the same, with the
    Route holding the functions before that value. *)
Theorem Router_method_pushes_one_layer (self : Router) (method methodName : string)
    (path : Arg) (fns : list Callee) (rest : list Arg) :
  Route_verb method = Some methodName →
  fns ≠ [] →
  (∀ v, head rest = Some v → is_function v = false) →
  let route :=
    {| route_path := path;
       route_stack := method_layer methodName VUndefined <$> fns;
       route_methods := [(methodName, true)] |} in
  let '(self', err) := Router_method self method path ((VFun <$> fns) ++ rest) in
  err = Route_error methodName <$> head rest
  ∧ router_params self' = router_params self
  ∧ ∃ layer,
      router_stack self' = router_stack self ++ [layer]
      ∧ layer_route layer = Some route
      ∧ layer_handle layer = DispatchFn route
      ∧ layer__query layer = None.
Proof.
  intros Hverb Hne Hrest route.
  destruct fns as [|fn fns]; [done|].
  unfold Router_method.
  change (shift_query ((VFun <$> fn :: fns) ++ rest))
    with (VUndefined (F := Callee), (VFun <$> fn :: fns) ++ rest).
  cbv iota beta. rewrite Hverb.
  pose proof (Route_method_loop_stack (Route_new path) methodName
                VUndefined (fn :: fns) rest Hrest) as Hr.
  change (Route_method (Route_new path) methodName ((VFun <$> fn :: fns) ++ rest))
    with (Route_method_loop (Route_new path) methodName VUndefined
            ((VFun <$> fn :: fns) ++ rest)).
  rewrite Hr. simpl. split_and!; try done.
  eexists. split; [done|]. unfold Layer_new.
  by destruct (pathRegexp path _).
Qed.

End RegistrationProofs.

(** * The machine on whole requests *)

Section RequestProofs.
Context `{HostEnv}.

(** X21. A Router without layers and a Route without handlers call the
    continuation they were given at once, with no signal and without
    calling user code.  The Route leaves the context as it was; the
    Router leaves one mark, [originalUrl], which it sets to the URL when
    it was not set. *)
Theorem empty_Router_and_Route_fall_through (options : RouterOptions)
    (path : Arg) (ctx : Ctx) :
  run 4 (start (Router_new options) ctx)
  = mkMachine
      (ctx_set_originalUrl ctx
         (Some (match ctx_originalUrl ctx with
                | Some u => if String.eqb u EmptyString then ctx_url ctx else u
                | None => ctx_url ctx
                end)))
      [] (CFinished None) []
  ∧ run 2 (start_route (Route_new path) ctx)
    = mkMachine ctx [] (CFinished None) [].
Proof.
  split; [|by destruct ctx].
  unfold run, start. unfold step at 4. simpl. unfold step at 3. simpl.
  unfold step at 2. simpl. unfold step. simpl.
  unfold done. simpl. rewrite andb_false_r. by destruct ctx.
Qed.


End RequestProofs.

(** * Middleware mounted at the root *)

Section MiddlewareProofs.
Context `{HostEnv}.

Lemma restore_url_idle f ctx :
  hf_removed f = EmptyString → hf_slashAdded f = false → restore_url f ctx = ctx.
Proof. intros Hr Hs. unfold restore_url. by rewrite Hs, Hr. Qed.

Lemma handler_names_app log1 log2 :
  handler_names (log1 ++ log2) = handler_names log1 ++ handler_names log2.
Proof. unfold handler_names. apply omap_app. Qed.

Lemma Router_handle_url self ctx depth :
  ctx_url (Router_handle self ctx depth).2 = ctx_url ctx.
Proof. by destruct ctx. Qed.

(** The walk of [router_next] over layers mounted at ["/"] whose
    functions end in [next()] and leave the URL alone. *)
Lemma root_middleware_walk (fns : list UserFn) (f : RouterFrame) (ctx : Ctx)
    (frames : list Frame) (trace : list Event) :
  is_Some (parseUrl_pathname (ctx_url ctx)) →
  hf_removed f = EmptyString → hf_slashAdded f = false →
  Forall2 mounted_at_root
    (drop (hf_idx f) (router_stack (he_self (hf_env f)))) fns →
  Forall always_next fns →
  Forall keeps_url fns →
  ∃ f' ctx' log,
    run (5 * length fns + 1)
      (mkMachine ctx (FRouter f :: frames) (CRouterNext None) trace)
    = mkMachine ctx' (FRouter f' :: frames) CDone (trace ++ log)
    ∧ hf_env f' = hf_env f
    ∧ handler_names log = uf_name <$> fns.
Proof.
  revert f ctx trace.
  induction fns as [|fn fns IH];
    intros f ctx trace Hurl Hremoved Hslash Hall Hnext Hkeep.
  - apply Forall2_nil_inv_r in Hall. apply (f_equal length) in Hall.
    rewrite length_drop in Hall. simpl in Hall.
    exists (reset f (hf_idx f) (hf_options f)), ctx, [].
    split_and!; [|reflexivity|done].
    simpl. unfold step. simpl.
    rewrite router_next_exhausted by lia. simpl.
    by rewrite restore_url_idle, !app_nil_r.
  - apply Forall2_cons_inv_r in Hall as (layer & rest & Hroot & Hall & Hd).
    pose proof Hd as Hlen. apply (f_equal length) in Hlen.
    rewrite length_drop in Hlen. simpl in Hlen.
    apply drop_cons_inv in Hd as [Hl Hd].
    destruct Hroot as (Hfast & Hroute & Hquery & Hkeys & Hhandle & Harity).
    apply Forall_cons in Hnext as [Hfn Hnext].
    apply Forall_cons in Hkeep as [Hsame Hkeep].
    pose proof Hurl as [path Hpath].
    set (layer' := set_scratch layer (Some ∅) (Some EmptyString)).
    set (f1 := {| hf_env := hf_env f; hf_idx := S (hf_idx f);
                  hf_removed := EmptyString; hf_slashAdded := false;
                  hf_paramcalled := hf_paramcalled f;
                  hf_options := hf_options f |}).
    set (ctx1 := ctx_set_params ctx
                   (Some (if router_mergeParams (he_self (hf_env f))
                          then mergeParams ∅ (he_parentParams (hf_env f))
                          else ∅))).
    assert (Hnext1 : router_next f ctx None
                     = (f1, ctx1, [], CProcessParams layer' EmptyString path)).
    { unfold router_next. rewrite restore_url_idle by done.
      rewrite (proj2 (Nat.leb_gt _ _)) by lia. simpl. rewrite Hpath.
      rewrite (drop_S _ layer _ Hl). cbn [scan_stack].
      assert (Layer_match layer (Some path) (ctx_query ctx)
              = (layer', [], Ret true)) as ->.
      { unfold Layer_match, queryMatch. by rewrite Hquery, Hfast. }
      unfold layer', set_scratch. simpl. by rewrite Hroute. }
    replace (5 * length (fn :: fns) + 1)
      with (5 + (5 * length fns + 1)) by (simpl; lia).
    rewrite run_add.
    pose proof (Hfn ctx1 []) as Hact.
    pose proof (Hsame ctx1 []) as Hurl2.
    destruct (uf_call fn ctx1 []) as [ctx2 act] eqn:Hcall.
    simpl in Hact, Hurl2. subst act.
    assert (Hfive :
      run 5 (mkMachine ctx (FRouter f :: frames) (CRouterNext None) trace)
      = mkMachine ctx2 (FRouter f1 :: frames) (CRouterNext None)
          (trace ++ [EHandler (uf_name fn) (ctx_url ctx1) (ctx_baseUrl ctx1)])).
    { unfold run. unfold step at 5. simpl. rewrite Hnext1. rewrite app_nil_r.
      unfold step at 4. simpl. unfold process_params. simpl. rewrite Hkeys. simpl.
      unfold params_done. simpl. rewrite Hroute.
      unfold step at 3. simpl. unfold trim_prefix. simpl.
      unfold handle_request_call, handle_request. simpl. rewrite Hhandle. simpl.
      rewrite (proj2 (Nat.ltb_ge _ _) Harity).
      unfold step at 2. simpl. rewrite Hcall.
      unfold step. simpl. done. }
    rewrite Hfive.
    assert (Hurl' : is_Some (parseUrl_pathname (ctx_url ctx2))).
    { rewrite Hurl2. unfold ctx1. by destruct ctx. }
    destruct (IH f1 ctx2
                (trace ++ [EHandler (uf_name fn) (ctx_url ctx1) (ctx_baseUrl ctx1)]))
      as (f' & ctx' & log & Hrun & Henv & Hnames);
      [done|done|done|unfold f1; simpl; by rewrite Hd|done|done|].
    exists f', ctx', (EHandler (uf_name fn) (ctx_url ctx1) (ctx_baseUrl ctx1) :: log).
    split_and!.
    + rewrite Hrun. by rewrite <- app_assoc.
    + done.
    + simpl. by rewrite Hnames.
Qed.

(** X23. A Router whose layers were all pushed by [use(f1, ..., fn)] with
    no path and no query condition, for functions of the application
    that declare at most three parameters, end in [next()] and leave
    [ctx.url] alone.  On a request whose URL has a pathname, a call of
    [handle] invokes [f1], ..., [fn], each once and in the order of
    registration, and then calls the continuation of the host with no
    signal.  On a request whose URL has none, such as the blank URL, it
    invokes no function and calls the continuation at once. *)
Theorem root_middleware_runs_in_order (self : Router) (fns : list UserFn)
    (ctx : Ctx) :
  Forall2 mounted_at_root (router_stack self) fns →
  Forall always_next fns →
  Forall keeps_url fns →
  (is_Some (parseUrl_pathname (ctx_url ctx)) →
   let m := run (5 * length fns + 4) (start self ctx) in
   m_call m = CFinished None
   ∧ m_frames m = []
   ∧ handler_names (m_trace m) = uf_name <$> fns)
  ∧ (parseUrl_pathname (ctx_url ctx) = None →
     let m := run 4 (start self ctx) in
     m_call m = CFinished None
     ∧ m_frames m = []
     ∧ m_trace m = []).
Proof.
  intros Hall Hnext Hkeep. split.
  - intros Hurl m. unfold m.
    replace (5 * length fns + 4) with (1 + ((5 * length fns + 1) + 2)) by lia.
    rewrite (run_add 1), (run_add (5 * length fns + 1) 2).
    destruct (root_middleware_walk fns (Router_handle self ctx 0).1
                (Router_handle self ctx 0).2 [] [])
      as (f' & ctx' & log & Hrun & Henv & Hnames);
      [by rewrite Router_handle_url|done|done|done|done|done|].
    change (run 1 (start self ctx))
      with (mkMachine (Router_handle self ctx 0).2
              [FRouter (Router_handle self ctx 0).1] (CRouterNext None) []).
    rewrite Hrun. by split_and!.
  - intros Hurl m. unfold m.
    assert (Hnone : router_next (Router_handle self ctx 0).1
                      (Router_handle self ctx 0).2 None
                    = (reset (Router_handle self ctx 0).1 0 [],
                       (Router_handle self ctx 0).2, [], CDone)).
    { unfold router_next. rewrite restore_url_idle by done.
      rewrite Router_handle_url, Hurl. simpl.
      by destruct (length (router_stack self) <=? 0)%nat. }
    change (run 4 (start self ctx))
      with (run 2 (step (mkMachine (Router_handle self ctx 0).2
                           [FRouter (Router_handle self ctx 0).1]
                           (CRouterNext None) []))).
    assert (Hstep :
      step (mkMachine (Router_handle self ctx 0).2
              [FRouter (Router_handle self ctx 0).1] (CRouterNext None) [])
      = mkMachine (Router_handle self ctx 0).2
          [FRouter (reset (Router_handle self ctx 0).1 0 [])] CDone []).
    { unfold step. cbn [m_call m_ctx m_frames m_trace]. by rewrite Hnone. }
    rewrite Hstep. unfold run. unfold step at 2. simpl. unfold step. simpl. done.
Qed.

End MiddlewareProofs.

(** * The further theorems on concrete requests *)

Lemma queryMatch_is_conjunction_of_keys_witness :
  (queryMatch (H := SmallHost.host)
     (Layer_set_query SmallHost.user_layer
        (VObj [("state", VStr "started")]))
     (Some [("state", VStr "started")])).2 = Ret true.
Proof.
  exact (proj1 (queryMatch_is_conjunction_of_keys (H := SmallHost.host)
                  SmallHost.user_layer [("state", VStr "started")]
                  [("state", VStr "started")]
                  (NoDup_singleton "state") ltac:(discriminate))).
Defined.

Lemma query_setter_roundtrip_witness :
  queryMatch (H := SmallHost.host)
    (Layer_set_query SmallHost.user_layer (VObj [])) None
  = ([], Ret true).
Proof.
  exact (proj2 (proj2 (proj1 (query_setter_roundtrip (H := SmallHost.host)
                                SmallHost.user_layer (VObj []) None)
                         (or_intror eq_refl)))).
Defined.

Lemma object_valued_query_never_matches_witness :
  (queryMatch (H := SmallHost.host)
     (Layer_set_query SmallHost.user_layer
        (VObj [("filter", VObj [("a", VNum 1)])]))
     (Some [("filter", VStr "x")])).2 = Ret false.
Proof.
  exact (proj1 (object_valued_query_never_matches (H := SmallHost.host)
                  SmallHost.user_layer [("filter", VObj [("a", VNum 1)])]
                  "filter" [("a", VNum 1)] None [("filter", VStr "x")]
                  (NoDup_singleton "filter")
                  (list_elem_of_here _ _))).
Defined.


Lemma options_lists_handled_verbs_witness :
  _handles_method SmallHost.post_then_get "HEAD" = true
  ∧ (toUpperCase "post" ∈ _options SmallHost.post_then_get
     ∨ inherited (toLowerCase "post") = true)
  ∧ _handles_method SmallHost.post_then_get "CONSTRUCTOR" = true.
Proof.
  assert (Hbuilt : RouteBuilt (H := SmallHost.host) SmallHost.post_then_get).
  { apply built_method; [apply built_method; [apply built_new|]|];
      unfold verb_keys;
      repeat first [apply list_elem_of_here | apply list_elem_of_further]. }
  destruct (options_lists_handled_verbs (H := SmallHost.host)
              SmallHost.post_then_get) as (Hlisted & Hhandled & Hinherited).
  split_and!.
  - apply (Hlisted Hbuilt "HEAD").
    repeat first [apply list_elem_of_here | apply list_elem_of_further].
  - exact (Hhandled eq_refl "post" eq_refl).
  - exact (proj1 (Hinherited "CONSTRUCTOR" eq_refl)).
Defined.

Lemma Route_method_pushes_in_order_witness :
  (Route_method (H := SmallHost.host) (Route_new (VStr "/")) "get"
     [SmallHost.handler "h"; VStr "oops"]).2
  = Some (Route_error (H := SmallHost.host) "get" (VStr "oops"))
  ∧ length (route_stack
              (Route_method (H := SmallHost.host) (Route_new (VStr "/")) "get"
                 [SmallHost.handler "h"; VStr "oops"]).1) = 1.
Proof.
  assert (Hrest : ∀ v : Arg, head [VStr "oops" : Arg] = Some v →
                             is_function v = false)
    by (by intros v [= <-]).
  pose proof (proj2 (Route_method_pushes_in_order (H := SmallHost.host)
                       (Route_new (VStr "/")) "get" VUndefined
                       [User (SmallHost.calls_next "h" None)] [VStr "oops"] Hrest)
                ltac:(discriminate)) as Hw.
  change ((VFun <$> [User (SmallHost.calls_next "h" None)]) ++ [VStr "oops"])
    with [SmallHost.handler "h"; VStr "oops"] in Hw.
  rewrite Hw. by split.
Defined.

Lemma dispatch_passes_over_other_verbs_witness :
  run (H := SmallHost.host) 3
    (mkMachine (SmallHost.request "DELETE" "/")
       [FRoute (Samples.walk SmallHost.post_then_get "delete")]
       (CRouteNext None) [])
  = mkMachine (SmallHost.request "DELETE" "/") [] (CNext None) []
  ∧ run (H := SmallHost.host) 2
      (mkMachine (SmallHost.request "GET" "/")
         [FRoute (Samples.walk Samples.odd_only "get")] (CRouteNext None) [])
    = mkMachine (SmallHost.request "GET" "/") [] (CNext None)
        [EPredicate "odd" VUndefined].
Proof.
  split.
  - apply (dispatch_passes_over_other_verbs (H := SmallHost.host)
             (Samples.walk SmallHost.post_then_get "delete")
             (SmallHost.request "DELETE" "/") [] []).
    repeat constructor.
  - apply (dispatch_passes_over_other_verbs (H := SmallHost.host)
             (Samples.walk Samples.odd_only "get")
             (SmallHost.request "GET" "/") [] []).
    apply Forall_cons. split; [|apply Forall_nil_2]. by right.
Defined.

Lemma dispatch_runs_handlers_in_order_witness :
  run (H := SmallHost.host) 7
    (mkMachine (SmallHost.request "GET" "/")
       [FRoute (Samples.walk Samples.get_twice "get")] (CRouteNext None) [])
  = mkMachine (SmallHost.request "GET" "/") [] (CNext None)
      [EHandler "a" "/" None; EHandler "b" "/" None].
Proof.
  apply (dispatch_runs_handlers_in_order (H := SmallHost.host)
           (Samples.walk Samples.get_twice "get")
           [SmallHost.calls_next "a" None; SmallHost.calls_next "b" None]
           (SmallHost.request "GET" "/") [] []).
  - repeat constructor.
  - by repeat constructor.
Defined.

Lemma dispatch_invokes_only_its_verb_witness :
  rf_stack (Samples.walk SmallHost.post_then_get "get") !! 1
  = Some (method_layer (H := SmallHost.host) "get" VUndefined
            (User (SmallHost.calls_next "h" None))).
Proof.
  exact (proj1 (proj2 (dispatch_invokes_only_its_verb (H := SmallHost.host)
    SmallHost.post_then_get (SmallHost.request "HEAD" "/")
    (SmallHost.request "HEAD" "/")
    (Samples.walk SmallHost.post_then_get "get")
    {| rf_stack := route_stack SmallHost.post_then_get; rf_method := "get";
       rf_idx := 1 |}
    None
    (method_layer (H := SmallHost.host) "get" VUndefined
       (User (SmallHost.calls_next "h" None)))
    eq_refl eq_refl eq_refl))).
Defined.

Lemma appendMethods_is_ordered_union_witness :
  NoDup (appendMethods ["GET"] ["GET"; "POST"]).
Proof.
  exact (proj1 (proj2 (proj2 (appendMethods_is_ordered_union ["GET"]
                                ["GET"; "POST"])))
           (NoDup_singleton "GET")).
Defined.

Lemma getProtohost_is_a_prefix_witness :
  "http://example.com" +:+ substr_from 18 "http://example.com/a?b=1"
  = "http://example.com/a?b=1".
Proof.
  exact (proj1 (proj2 (getProtohost_is_a_prefix "http://example.com/a?b=1"))
           "http://example.com" eq_refl).
Defined.

Lemma trim_prefix_then_restore_url_witness :
  let '(f', ctx', call) :=
    trim_prefix Samples.foo_frame Samples.foo_ctx SmallHost.user_layer
      "/foo" "/foo/bar" in
  restore_url f' ctx' = Samples.foo_ctx ∧ ctx_url ctx' = "/bar".
Proof.
  pose proof (trim_prefix_then_restore_url Samples.foo_frame Samples.foo_ctx
                SmallHost.user_layer "/foo" "/foo/bar" "/bar"
                eq_refl eq_refl eq_refl eq_refl) as Hw.
  destruct (trim_prefix Samples.foo_frame Samples.foo_ctx SmallHost.user_layer
              "/foo" "/foo/bar") as [[f' ctx'] call] eqn:Ht.
  destruct Hw as [Hrestore Hseen]. split; [exact Hrestore|].
  assert (Hremoved : hf_removed f' ≠ EmptyString).
  { vm_compute in Ht. by injection Ht as <- _ _. }
  exact (proj1 (Hseen Hremoved)).
Defined.

Lemma router_next_gathers_each_verb_once_witness :
  NoDup (hf_options
           (router_next (H := SmallHost.host)
              (Router_handle SmallHost.get_root (SmallHost.request "OPTIONS" "/") 0).1
              (Router_handle SmallHost.get_root (SmallHost.request "OPTIONS" "/") 0).2
              None).1.1.1).
Proof.
  exact (proj1 (proj2 (router_next_gathers_each_verb_once (H := SmallHost.host)
    (Router_handle SmallHost.get_root (SmallHost.request "OPTIONS" "/") 0).1
    (Router_handle SmallHost.get_root (SmallHost.request "OPTIONS" "/") 0).2
    None)) (NoDup_nil_2 (A := string))).
Defined.

Lemma Router_method_pushes_one_layer_witness :
  length (router_stack
            (Router_all (H := SmallHost.host)
               (Router_new SmallHost.no_options) (VStr "/x")
               [SmallHost.handler "h"]).1) = 1.
Proof.
  assert (Hrest : ∀ v : Arg, head (@nil Arg) = Some v → is_function v = false)
    by (by intros v [=]).
  pose proof (Router_method_pushes_one_layer (H := SmallHost.host)
                (Router_new SmallHost.no_options) "all" "_all" (VStr "/x")
                [User (SmallHost.calls_next "h" None)] [] eq_refl
                ltac:(discriminate) Hrest) as Hw.
  change ((VFun <$> [User (SmallHost.calls_next "h" None)]) ++ [])
    with [SmallHost.handler "h"] in Hw.
  unfold Router_all.
  destruct (Router_method (H := SmallHost.host) (Router_new SmallHost.no_options)
              "all" (VStr "/x") [SmallHost.handler "h"]) as [self' err].
  destruct Hw as (_ & _ & layer & Hstack & _). simpl. by rewrite Hstack.
Defined.

Lemma Router_use_pushes_in_order_witness :
  Router_use (H := SmallHost.host) (Router_new SmallHost.no_options)
    [VStr "/v1/"; SmallHost.handler "a"; VFun (RouterFn Samples.api_router);
     VNum 1]
  = (foldl push_layer (Router_new SmallHost.no_options)
       [use_layer (H := SmallHost.host) (Router_new SmallHost.no_options)
          (VStr "/v1/") VUndefined (User (SmallHost.calls_next "a" None));
        use_layer (H := SmallHost.host) (Router_new SmallHost.no_options)
          (VStr "/v1/api") VUndefined (RouterFn Samples.api_router)],
     Some (TypeError "Router.use() requires a middleware function but got a 1")).
Proof.
  assert (Hrest : ∀ v : Arg, head [VNum 1 : Arg] = Some v → is_function v = false)
    by (by intros v [= <-]).
  pose proof (proj1 (proj2 (Router_use_pushes_in_order (H := SmallHost.host)
                       (Router_new SmallHost.no_options) "/v1/" VUndefined
                       [User (SmallHost.calls_next "a" None);
                        RouterFn Samples.api_router] [VNum 1]
                       ltac:(discriminate) eq_refl Hrest)))
    as Hw.
  change (VStr "/v1/" :: (VFun <$> [User (SmallHost.calls_next "a" None);
                                    RouterFn Samples.api_router]) ++ [VNum 1])
    with [VStr "/v1/"; SmallHost.handler "a"; VFun (RouterFn Samples.api_router);
          VNum 1 : Arg] in Hw.
  rewrite Hw. reflexivity.
Defined.

Lemma use_without_path_matches_every_request_witness :
  (Router_use (H := SmallHost.host) (Router_new SmallHost.no_options)
     [SmallHost.handler "a"]).2 = None
  ∧ ∃ layer,
      router_stack
        (Router_use (H := SmallHost.host) (Router_new SmallHost.no_options)
           [SmallHost.handler "a"]).1 = [layer]
      ∧ (Layer_match (H := SmallHost.host) layer (Some "/any/path")
           (Some [("q", VStr "1")])).2 = Ret true
      ∧ layer_path
          (Layer_match (H := SmallHost.host) layer (Some "/any/path")
             (Some [("q", VStr "1")])).1.1 = Some EmptyString.
Proof.
  destruct (use_without_path_matches_every_request (H := SmallHost.host)
              (Router_new SmallHost.no_options)
              [User (SmallHost.calls_next "a" None)] ltac:(discriminate))
    as (Hw & Hroot & _ & Hmatch).
  change (VFun <$> [User (SmallHost.calls_next "a" None)])
    with [SmallHost.handler "a"] in Hw.
  rewrite Hw. split; [reflexivity|].
  eexists. split; [reflexivity|]. cbn [fmap list_fmap].
  rewrite (Hroot (User (SmallHost.calls_next "a" None)) eq_refl).
  rewrite (Hmatch (User (SmallHost.calls_next "a" None)) "/any/path"
             (Some [("q", VStr "1")])).
  split; reflexivity.
Defined.

Lemma use_flattens_nested_arrays_witness :
  Router_use (H := SmallHost.host) (Router_new SmallHost.no_options)
    [VStr "/p"; VArr [SmallHost.handler "a"; VArr [SmallHost.handler "b"]]]
  = Router_use (H := SmallHost.host) (Router_new SmallHost.no_options)
      [VStr "/p"; SmallHost.handler "a"; SmallHost.handler "b"].
Proof.
  exact (use_flattens_nested_arrays (H := SmallHost.host)
           (Router_new SmallHost.no_options) (VStr "/p")
           [VArr [SmallHost.handler "a"; VArr [SmallHost.handler "b"]]] eq_refl).
Defined.

Lemma Router_param_registers_until_error_witness :
  (Router_param (H := SmallHost.host) (Router_new SmallHost.no_options)
     (Name "user") "user" [SmallHost.handler "a"; VNum 1]).2
  = Some (Error "invalid param() call for user, got 1")
  ∧ Router_param (H := SmallHost.host) (Router_new SmallHost.no_options)
      (Name "constructor") "constructor" [SmallHost.handler "a"]
    = (Router_new SmallHost.no_options,
       Some (TypeError "this.params[name].push is not a function")).
Proof.
  split.
  - exact (proj1 (proj1 (Router_param_registers_until_error (H := SmallHost.host)
                    (Router_new SmallHost.no_options) (Name "user") "user"
                    [User (SmallHost.calls_next "a" None)] (VNum 1) [] eq_refl)
                   eq_refl)).
  - exact (proj1 (proj2 (Router_param_registers_until_error (H := SmallHost.host)
                    (Router_new SmallHost.no_options) (Name "constructor")
                    "constructor" [] (VNum 1) [] eq_refl) eq_refl)
             (User (SmallHost.calls_next "a" None)) []).
Defined.

Lemma routes_wraps_a_prefixed_router_witness :
  router_stack
    <$> fn_router (routes (H := SmallHost.host) Router_defaultOptions
                     Samples.api_router false)
  = Some [use_layer (H := SmallHost.host) (Router_new SmallHost.no_options)
            (VStr "/api") VUndefined (RouterFn Samples.api_router)]
  ∧ router_strict
      <$> fn_router (routes (H := SmallHost.host)
                       (mkDefaultOptions false false true None)
                       Samples.api_router false)
    = Some true.
Proof.
  split.
  - rewrite (proj2 (proj2 (routes_wraps_a_prefixed_router (H := SmallHost.host)
                             Router_defaultOptions Samples.api_router "/api"))
               eq_refl); [reflexivity|discriminate].
  - rewrite (proj2 (proj2 (routes_wraps_a_prefixed_router (H := SmallHost.host)
                             (mkDefaultOptions false false true None)
                             Samples.api_router "/api"))
               eq_refl); [reflexivity|discriminate].
Defined.




Lemma root_middleware_runs_in_order_witness :
  (let m := run (H := SmallHost.host) 14
              (start Samples.use_twice (SmallHost.request "GET" "/any/path")) in
   m_call m = CFinished None
   ∧ m_frames m = []
   ∧ handler_names (m_trace m) = ["a"; "b"])
  ∧ (let m := run (H := SmallHost.host) 4
                (start Samples.use_twice (SmallHost.request "GET" EmptyString)) in
     m_call m = CFinished None
     ∧ m_frames m = []
     ∧ m_trace m = []).
Proof.
  assert (Hroot : Forall2 mounted_at_root
                    (router_stack Samples.use_twice)
                    [SmallHost.calls_next "a" None; SmallHost.calls_next "b" None])
    by (repeat constructor).
  assert (Hnext : Forall always_next
                    [SmallHost.calls_next "a" None; SmallHost.calls_next "b" None])
    by (by repeat constructor).
  assert (Hkeep : Forall keeps_url
                    [SmallHost.calls_next "a" None; SmallHost.calls_next "b" None])
    by (by repeat constructor).
  split.
  - apply (proj1 (root_middleware_runs_in_order (H := SmallHost.host)
                    Samples.use_twice _ (SmallHost.request "GET" "/any/path")
                    Hroot Hnext Hkeep)).
    by eexists.
  - apply (proj2 (root_middleware_runs_in_order (H := SmallHost.host)
                    Samples.use_twice _ (SmallHost.request "GET" EmptyString)
                    Hroot Hnext Hkeep)).
    reflexivity.
Defined.
